(** * second-brain: the ingestion and retrieval pipelines

    A shallow embedding of the backend of the link manager
    (backend/src/utils/openai.utils.ts, utils/url.utils.ts,
    controllers/link.controller.ts, controllers/chat.controller.ts,
    controllers/tag.controller.ts, middleware/auth.middleware.ts and
    prisma/supabase-setup.sql), the properties its specification states
    about them, and further properties of the code.

    Conventions.  A JavaScript string is a [string], one character for
    each code unit, so its length is the length of the Rocq string; the
    strings here hold code units below 256.  A JavaScript number is an
    IEEE 754 double, [spec_float]; a promise that settles is an [outcome].
    Everything outside the process (the HTTP fetch and the HTML parser,
    the text-generation and embedding provider, [JSON.parse], the clock)
    is a field of a [world]; the relational store is an explicit [store]
    value threaded through the controllers. *)

From Stdlib Require Import List String Ascii ZArith Bool Arith Lia.
From Stdlib Require Import Permutation Sorted.
From Stdlib Require Import Floats.SpecFloat.
From Stdlib Require Import Numbers.DecimalString.
Import ListNotations.

Local Open Scope string_scope.
Local Open Scope list_scope.
Local Open Scope nat_scope.

(** String concatenation, JavaScript's [+] on strings. *)
Infix "+++" := String.append (at level 60, right associativity).

(* ================================================================== *)
(** ** JavaScript values and string primitives *)
(* ================================================================== *)

Module Js.

(** What a [catch] clause receives: an [Error] object with its message, or
    some other thrown value. *)
Inductive thrown : Type :=
| ErrorObj (message : string)
| NonError.

(** A settled promise (or the result of a block that may throw). *)
Inductive outcome (A : Type) : Type :=
| Resolved (a : A)
| Rejected (e : thrown).

Arguments Resolved {A} a.
Arguments Rejected {A} e.

(** [error instanceof Error ? error.message : 'Unknown error'] *)
Definition message_of (e : thrown) : string :=
  match e with
  | ErrorObj m => m
  | NonError => "Unknown error"
  end.

(** Run-time values, as [JSON.parse] and the provider's SDK hand them over. *)
#[local] Unset Elimination Schemes.
Inductive value : Type :=
| Undefined
| Null
| Boolean (b : bool)
| Num (x : spec_float)
| Str (s : string)
| Arr (items : list value)
| Obj (fields : list (string * value)).
#[local] Set Elimination Schemes.

(** [Number.isNaN(val)]: true only for the number NaN. *)
Definition Number_isNaN (v : value) : bool :=
  match v with
  | Num S754_nan => true
  | _ => false
  end.

(** [Number.isFinite(val)]: true only for a number that is neither NaN nor
    an infinity. *)
Definition Number_isFinite (v : value) : bool :=
  match v with
  | Num (S754_zero _) => true
  | Num (S754_finite _ _ _) => true
  | _ => false
  end.

Definition is_empty (s : string) : bool :=
  match s with
  | EmptyString => true
  | String _ _ => false
  end.

(** [a || b] on strings: the empty string is falsy. *)
Definition or_else (a b : string) : string :=
  if is_empty a then b else a.

(** [s.startsWith(p)] *)
Definition startsWith (p s : string) : bool := String.prefix p s.

(** White space as [\s] and [trim] see it.  A character of a string
    here is a code unit below 256; among these the white space and line
    terminators of JavaScript are U+0009 to U+000D, U+0020 and the
    no-break space U+00A0. *)
Definition is_space (c : ascii) : bool :=
  let n := nat_of_ascii c in
  (n =? 32) || ((9 <=? n) && (n <=? 13)) || (n =? 160).

Fixpoint trimStart (s : string) : string :=
  match s with
  | EmptyString => EmptyString
  | String c r => if is_space c then trimStart r else s
  end.

Fixpoint trimEnd (s : string) : string :=
  match s with
  | EmptyString => EmptyString
  | String c r =>
      match trimEnd r with
      | EmptyString => if is_space c then EmptyString else String c EmptyString
      | r' => String c r'
      end
  end.

Definition trim (s : string) : string := trimEnd (trimStart s).

(** [s.replace] of a character class repeated: every maximal run of characters satisfying [p]
    becomes the single character [rep].  [inside] tells whether the
    previous character belonged to a run. *)
Fixpoint squeeze (p : ascii -> bool) (rep : ascii) (inside : bool)
  (s : string) : string :=
  match s with
  | EmptyString => EmptyString
  | String c r =>
      if p c
      then if inside then squeeze p rep true r
           else String rep (squeeze p rep true r)
      else String c (squeeze p rep false r)
  end.

Definition is_newline (c : ascii) : bool := nat_of_ascii c =? 10.

Definition lower_ascii (c : ascii) : ascii :=
  let n := nat_of_ascii c in
  if (65 <=? n) && (n <=? 90) then ascii_of_nat (n + 32) else c.

(** [s.toLowerCase()] (the ASCII letters). *)
Fixpoint toLowerCase (s : string) : string :=
  match s with
  | EmptyString => EmptyString
  | String c r => String (lower_ascii c) (toLowerCase r)
  end.

(** [s.replace] of every character of a class [p] by nothing. *)
Fixpoint remove_chars (p : ascii -> bool) (s : string) : string :=
  match s with
  | EmptyString => EmptyString
  | String c r => if p c then remove_chars p r else String c (remove_chars p r)
  end.

(** [s.split(sep)] for a one-character separator: never the empty list. *)
Fixpoint split_on (sep : ascii) (s : string) : list string :=
  match s with
  | EmptyString => [EmptyString]
  | String c r =>
      if Ascii.eqb c sep then EmptyString :: split_on sep r
      else match split_on sep r with
           | [] => [String c EmptyString]
           | piece :: pieces => String c piece :: pieces
           end
  end.

(** [parts.join(sep)] *)
Definition join (sep : string) (parts : list string) : string :=
  String.concat sep parts.

(** The elements of an array as strings; [None] when one of them is not a
    string. *)
Fixpoint as_strings (items : list value) : option (list string) :=
  match items with
  | [] => Some []
  | Str s :: rest => option_map (cons s) (as_strings rest)
  | _ :: _ => None
  end.

(** [obj[key]]: [Undefined] when the object has no such property. *)
Fixpoint lookup (key : string) (fields : list (string * value)) : value :=
  match fields with
  | [] => Undefined
  | (k, v) :: rest => if String.eqb k key then v else lookup key rest
  end.

(** [String(n)] for a non-negative integer. *)
Definition of_nat (n : nat) : string := NilEmpty.string_of_uint (Nat.to_uint n).

(** The double-quote character as a one-character string. *)
Definition dquote : string := String (ascii_of_nat 34) EmptyString.

(** A line break, as in a template literal. *)
Definition nl : string := String (ascii_of_nat 10) EmptyString.

End Js.

(* ================================================================== *)
(** ** PostgreSQL's order on [float8] *)
(* ================================================================== *)

Module Float8.

(** PostgreSQL compares [float8] values with a total order: the IEEE order
    on everything but NaN, all NaNs equal to each other and greater than
    every other value. *)
Definition cmp (a b : spec_float) : comparison :=
  match a, b with
  | S754_nan, S754_nan => Eq
  | S754_nan, _ => Gt
  | _, S754_nan => Lt
  | _, _ => match SFcompare a b with
            | Some c => c
            | None => Eq
            end
  end.

(** [a > b] *)
Definition gt (a b : spec_float) : bool :=
  match cmp a b with
  | Gt => true
  | _ => false
  end.

(** [a < b] *)
Definition lt (a b : spec_float) : bool :=
  match cmp a b with
  | Lt => true
  | _ => false
  end.

(** [a >= b] *)
Definition ge (a b : spec_float) : bool := negb (lt a b).

(** The literal [0]. *)
Definition zero : spec_float := S754_zero false.

(** The literal [1]. *)
Definition one : spec_float := S754_finite false 4503599627370496 (-52).

(** The literal [100]. *)
Definition hundred : spec_float := S754_finite false 7036874417766400 (-46).

(** The arithmetic of doubles. *)
Definition add (a b : spec_float) : spec_float := SFadd 53 1024 a b.
Definition sub (a b : spec_float) : spec_float := SFsub 53 1024 a b.
Definition mul (a b : spec_float) : spec_float := SFmul 53 1024 a b.
Definition div (a b : spec_float) : spec_float := SFdiv 53 1024 a b.
Definition sqrt (a : spec_float) : spec_float := SFsqrt 53 1024 a.

(** A [vector] value of pgvector: its components. *)
Definition vector : Type := list spec_float.

(** A rank that orders the floats as [cmp] does, lexicographically: the
    class first (minus infinity, negative, zero, positive, plus infinity,
    NaN), then exponent and mantissa, reversed for the negative ones. *)
Definition rank (a : spec_float) : Z * Z * Z :=
  match a with
  | S754_infinity true => (0, 0, 0)
  | S754_finite true m e => (1, - e, - Z.pos m)
  | S754_zero _ => (2, 0, 0)
  | S754_finite false m e => (3, e, Z.pos m)
  | S754_infinity false => (4, 0, 0)
  | S754_nan => (5, 0, 0)
  end%Z.

Definition lex_lt (x y : Z * Z * Z) : Prop :=
  match x, y with
  | (x1, x2, x3), (y1, y2, y3) =>
      (x1 < y1 \/ (x1 = y1 /\ (x2 < y2 \/ (x2 = y2 /\ x3 < y3))))%Z
  end.

End Float8.

(* ================================================================== *)
(** ** What lies outside the process *)
(* ================================================================== *)

Module Env.

(** A fetched document after [cheerio.load] and the removal of
    [script, style, nav, footer, header, aside, iframe, noscript, svg,
    form, button], as the content extractor queries it. *)
Record page : Type := {
  (** [$(selector)]: [None] when no element matches ([element.length] is
      0), otherwise the [.text()] of the matched set. *)
  select_text : string -> option string;
  (** the [.text()] of every [p] element, in document order *)
  paragraph_texts : list string;
  (** [$('body').text()] *)
  body_text : string
}.

(** [{title, image, domain}] as [extractUrlMetadata] returns it. *)
Record UrlMetadata : Type := {
  md_title : option string;
  md_image : option string;
  md_domain : string
}.

(** A request to [openai.chat.completions.create]. *)
Record chat_request : Type := {
  chat_model : string;
  chat_system : string;
  chat_user : string;
  chat_max_tokens : nat;
  (** the temperature in tenths: 5 stands for 0.5 *)
  chat_temperature : nat
}.

Record world : Type := {
  (** [axios.get(url, ...)] followed by [cheerio.load] and the removal of
      the non-content elements: a page, or whatever was thrown on the way *)
  fetch_page : string -> Js.outcome page;
  (** [extractUrlMetadata] (utils/url.utils.ts) taken whole: it catches
      every error it meets, returns a record in every case and reads
      nothing but the network *)
  url_metadata : string -> UrlMetadata;
  (** [openai.chat.completions.create]: the [message.content] of each
      element of [response.choices] ([None] for [null]) *)
  chat_completions_create : chat_request -> Js.outcome (list (option string));
  (** [openai.embeddings.create] with model text-embedding-ada-002: the
      [embedding] field of each element of [response.data] *)
  embeddings_create : string -> Js.outcome (list Js.value);
  (** [JSON.parse]: [None] when it throws a SyntaxError *)
  JSON_parse : string -> option Js.value;
  (** zod's [z.string().url()] *)
  zod_url : string -> bool;
  (** [Math.round] *)
  Math_round : spec_float -> spec_float;
  (** [process.env.NODE_ENV === 'development'] *)
  development : bool;
  (** pgvector's cosine distance operator, [a <=> b] *)
  cosine_distance : Float8.vector -> Float8.vector -> spec_float;
  (** the store's [now()] *)
  now : Z
}.

End Env.

(* ================================================================== *)
(** ** utils/url.utils.ts: the content extractor *)
(* ================================================================== *)

Module UrlUtils.
Import Js Env.

Definition contentSelectors : list string :=
  [ "article"; "main"; ".content"; ".post-content"; ".article-content";
    ".entry-content"; "#content"; "[role=" +++ dquote +++ "main" +++ dquote +++ "]";
    ".post"; ".blog-post" ].

(** The loop over [contentSelectors]: the first selector that matches an
    element decides, even when its text is empty. *)
Fixpoint first_container (p : page) (selectors : list string) : string :=
  match selectors with
  | [] => ""
  | selector :: rest =>
      match select_text p selector with
      | Some text => trim text
      | None => first_container p rest
      end
  end.

(** The paragraphs whose trimmed text is longer than 50 characters. *)
Definition long_paragraphs (p : page) : list string :=
  map trim (filter (fun text => 50 <? String.length (trim text)) (paragraph_texts p)).

Definition main_content (p : page) : string :=
  let content := first_container p contentSelectors in
  if is_empty content
  then match long_paragraphs p with
       | [] => trim (body_text p)
       | paragraphs => join (nl +++ nl) paragraphs
       end
  else content.

(** Runs of white space become one space, runs of line breaks one line
    break, and the result is trimmed. *)
Definition clean (content : string) : string :=
  trim (squeeze is_newline (ascii_of_nat 10) false
          (squeeze is_space (ascii_of_nat 32) false content)).

Definition maxLength : nat := 8000.

(** [content.length > maxLength ? content.substring(0, maxLength) + '...' : content] *)
Definition limit (content : string) : string :=
  if maxLength <? String.length content
  then substring 0 maxLength content +++ "..."
  else content.

Definition formatUrl (url : string) : string :=
  if startsWith "http" url then url else "https://" +++ url.

Definition extractUrlContent (w : world) (url : string) : string :=
  match fetch_page w (formatUrl url) with
  | Resolved p =>
      let content := limit (clean (main_content p)) in
      or_else content ("Could not extract meaningful content from " +++ url)
  | Rejected error =>
      "Failed to extract content from " +++ url +++ ". Error: " +++ message_of error
  end.

Definition extractUrlMetadata (w : world) (url : string) : UrlMetadata :=
  url_metadata w url.

End UrlUtils.

(* ================================================================== *)
(** ** utils/openai.utils.ts *)
(* ================================================================== *)

Module OpenAiUtils.
Import Js Env.

(** Default embedding dimensions for text-embedding-ada-002. *)
Definition EMBEDDING_DIMENSIONS : nat := 1536.

(** Available tags for link categorization. *)
Definition AVAILABLE_TAGS : list string :=
  [ "Article"; "Blog"; "News"; "Tutorial"; "Documentation"; "Video"; "Image";
    "Social Media"; "Research"; "Tool"; "Product"; "Forum"; "Discussion";
    "Review"; "Music" ].

(** *** generateEmbedding *)

(** The two checks on [response.data[0].embedding]. *)
Definition check_embedding (embedding : value) : outcome (list value) :=
  match embedding with
  | Arr items =>
      if negb (List.length items =? EMBEDDING_DIMENSIONS)
      then Rejected (ErrorObj ("Invalid embedding dimensions: " +++ of_nat (List.length items)))
      else if existsb (fun val => Number_isNaN val || negb (Number_isFinite val)) items
      then Rejected (ErrorObj "Embedding contains NaN or non-finite values")
      else Resolved items
  | _ => Rejected (ErrorObj "Invalid embedding dimensions: not an array")
  end.

(** [text.length > 8000 ? text.substring(0, 8000) : text] *)
Definition truncateText (text : string) : string :=
  if 8000 <? String.length text then substring 0 8000 text else text.

Definition generateEmbedding (w : world) (text : string) : outcome (list value) :=
  let attempt :=
    match embeddings_create w (truncateText text) with
    | Rejected error => Rejected error
    | Resolved [] =>
        Rejected (ErrorObj "Cannot read properties of undefined (reading 'embedding')")
    | Resolved (embedding :: _) => check_embedding embedding
    end in
  match attempt with
  | Resolved embedding => Resolved embedding
  | Rejected error =>
      Rejected (ErrorObj ("Failed to generate embedding: " +++ message_of error))
  end.

(** *** generateSummary *)

(** [content.length > 8000 ? content.substring(0, 8000) + '...' : content] *)
Definition truncateContent (content : string) : string :=
  if 8000 <? String.length content
  then substring 0 8000 content +++ "..."
  else content.

(** [response.choices[0].message.content], when there is a first choice. *)
Definition first_content (choices : list (option string)) : outcome (option string) :=
  match choices with
  | [] => Rejected (ErrorObj "Cannot read properties of undefined (reading 'message')")
  | choice :: _ => Resolved choice
  end.

Definition content_or (content : option string) (fallback : string) : string :=
  match content with
  | Some text => or_else text fallback
  | None => fallback
  end.

Definition summary_request (content : string) : chat_request :=
  {| chat_model := "gpt-4";
     chat_system := "You are a helpful assistant that generates concise summaries. Create a 3-4 line summary of the provided content. Focus on the main points and key information.";
     chat_user := truncateContent content;
     chat_max_tokens := 150;
     chat_temperature := 5 |}.

Definition generateSummary (w : world) (content : string) : string :=
  match chat_completions_create w (summary_request content) with
  | Resolved choices =>
      match first_content choices with
      | Resolved message => trim (content_or message "")
      | Rejected _ => "No summary available due to processing error."
      end
  | Rejected _ => "No summary available due to processing error."
  end.

(** *** generateTags *)

Definition tags_request (content : string) : chat_request :=
  {| chat_model := "gpt-4";
     chat_system :=
       "You are a helpful assistant that categorizes content. " +++ nl +++
       "          From the following list of tags: " +++ join ", " AVAILABLE_TAGS +++ ", " +++ nl +++
       "          select 2-4 of the most appropriate tags for the provided content. " +++ nl +++
       "          Return only the tag names as a JSON array with no explanation or additional text." +++ nl +++
       "          Example response format: [" +++ dquote +++ "Tag1" +++ dquote +++ ", "
         +++ dquote +++ "Tag2" +++ dquote +++ "]";
     chat_user := truncateContent content;
     chat_max_tokens := 50;
     chat_temperature := 3 |}.

Definition is_char (n : nat) (c : ascii) : bool := nat_of_ascii c =? n.

(** A line terminator, which [.] does not match. *)
Definition is_line_terminator (c : ascii) : bool := is_char 10 c || is_char 13 c.

(** The longest prefix without a line terminator. *)
Fixpoint line_of (s : string) : string :=
  match s with
  | EmptyString => EmptyString
  | String c r => if is_line_terminator c then EmptyString else String c (line_of r)
  end.

(** The text before the last closing bracket, when there is one. *)
Fixpoint before_last_bracket (s : string) : option string :=
  match s with
  | EmptyString => None
  | String c r =>
      match before_last_bracket r with
      | Some t => Some (String c t)
      | None => if is_char 93 c then Some EmptyString else None
      end
  end.

(** [responseContent.match] with the pattern "an opening bracket, any
    characters of one line (captured, greedy), a closing bracket": the
    capture group of the leftmost match, which runs to the last closing
    bracket of the line. *)
Fixpoint array_match (s : string) : option string :=
  match s with
  | EmptyString => None
  | String c r =>
      if is_char 91 c
      then match before_last_bracket (line_of r) with
           | Some captured => Some captured
           | None => array_match r
           end
      else array_match r
  end.

(** The length of a prefix made of white space and a closing bracket, when
    the string starts with one. *)
Fixpoint spaces_then_bracket (s : string) : option nat :=
  match s with
  | EmptyString => None
  | String c r =>
      if is_char 93 c then Some 1
      else if is_space c then option_map S (spaces_then_bracket r)
      else None
  end.

(** [.replace] of every comma that only white space separates from a
    closing bracket, white space included, by the bracket; [skip] counts
    the characters of a match still to be passed over. *)
Fixpoint drop_trailing_commas (skip : nat) (s : string) : string :=
  match s with
  | EmptyString => EmptyString
  | String c r =>
      match skip with
      | S k => drop_trailing_commas k r
      | O =>
          if is_char 44 c
          then match spaces_then_bracket r with
               | Some n => String (ascii_of_nat 93) (drop_trailing_commas n r)
               | None => String c (drop_trailing_commas 0 r)
               end
          else String c (drop_trailing_commas 0 r)
      end
  end.

(** Every single quote becomes a double quote. *)
Fixpoint double_the_quotes (s : string) : string :=
  match s with
  | EmptyString => EmptyString
  | String c r =>
      String (if is_char 39 c then ascii_of_nat 34 else c) (double_the_quotes r)
  end.

Definition formatMatch (captured : string) : string :=
  drop_trailing_commas 0 (double_the_quotes captured).

(** The fallback of the inner [catch]: strip brackets and quotes, split at
    the commas, trim, drop the empty pieces. *)
Definition split_fallback (responseContent : string) : list string :=
  filter (fun tag => negb (is_empty tag))
    (map trim
       (split_on (ascii_of_nat 44)
          (remove_chars
             (fun c => is_char 91 c || is_char 93 c || is_char 34 c || is_char 39 c)
             responseContent))).

(** [parsedTags] after the inner [try]/[catch]. *)
Definition parse_tags (w : world) (responseContent : string) : value :=
  let attempt : option value :=
    match JSON_parse w responseContent with
    | None => None
    | Some (Arr items) => Some (Arr items)
    | Some _ =>
        match array_match responseContent with
        | Some captured =>
            if is_empty captured then Some (Arr [])
            else JSON_parse w ("[" +++ formatMatch captured +++ "]")
        | None => Some (Arr [])
        end
    end in
  match attempt with
  | Some parsedTags => parsedTags
  | None => Arr (map Str (split_fallback responseContent))
  end.

(** [validTag.toLowerCase() === tag.toLowerCase()] *)
Definition same_tag (tag validTag : string) : bool :=
  String.eqb (toLowerCase validTag) (toLowerCase tag).

(** [AVAILABLE_TAGS.some(validTag => ...)] *)
Definition is_available (tag : string) : bool :=
  existsb (same_tag tag) AVAILABLE_TAGS.

(** [AVAILABLE_TAGS.find(validTag => ...) || tag] *)
Definition correctCase (tag : string) : string :=
  match find (same_tag tag) AVAILABLE_TAGS with
  | Some validTag => or_else validTag tag
  | None => tag
  end.

(** [parsedTags.filter(...).map(...).slice(0, 5)]; on an element that is
    not a string [tag.toLowerCase()] throws a TypeError. *)
Definition validTags (parsedTags : value) : outcome (list string) :=
  match parsedTags with
  | Arr items =>
      match as_strings items with
      | Some tags => Resolved (firstn 5 (map correctCase (filter is_available tags)))
      | None => Rejected (ErrorObj "tag.toLowerCase is not a function")
      end
  | _ => Rejected (ErrorObj "parsedTags.filter is not a function")
  end.

Definition default_tags : list string := ["Article"; "Blog"].

Definition generateTags (w : world) (content : string) : list string :=
  match chat_completions_create w (tags_request content) with
  | Resolved choices =>
      match first_content choices with
      | Resolved message =>
          let responseContent := content_or message "[]" in
          match validTags (parse_tags w responseContent) with
          | Resolved [] => default_tags
          | Resolved tags => tags
          | Rejected _ => default_tags
          end
      | Rejected _ => default_tags
      end
  | Rejected _ => default_tags
  end.

(** *** generateChatResponse *)

(** An element of [relevantLinks]. *)
Record context_link : Type := {
  ctx_url : string;
  ctx_title : option string;
  ctx_summary : option string
}.

Definition link_block (index : nat) (link : context_link) : string :=
  "LINK " +++ of_nat (index + 1) +++ ":" +++ nl +++
  "TITLE: " +++ content_or (ctx_title link) "Untitled" +++ nl +++
  "URL: " +++ ctx_url link +++ nl +++
  "SUMMARY: " +++ content_or (ctx_summary link) "No summary available" +++ nl.

(** [relevantLinks.map((link, index) => ...)] *)
Fixpoint map_indexed {A B : Type} (f : nat -> A -> B) (index : nat) (l : list A) : list B :=
  match l with
  | [] => []
  | a :: rest => f index a :: map_indexed f (S index) rest
  end.

Definition build_context (relevantLinks : list context_link) : string :=
  join (nl +++ "---" +++ nl) (map_indexed link_block 0 relevantLinks).

Definition chat_request_for (query : string) (relevantLinks : list context_link) : chat_request :=
  {| chat_model := "gpt-4";
     chat_system :=
       "You are a helpful assistant that answers questions based on the user's saved links. " +++ nl +++
       "          Use the following saved links as context for answering the user's question. " +++ nl +++
       "          When you find information in the provided links that helps answer the query, mention which link(s) " +++ nl +++
       "          contained that information." +++ nl +++
       "          " +++ nl +++
       "          If the links don't contain relevant information to answer the question, " +++ nl +++
       "          acknowledge that and provide your best response based on your general knowledge." +++ nl +++
       "          " +++ nl +++
       "          CONTEXT LINKS:" +++ nl +++
       "          " +++ build_context relevantLinks;
     chat_user := query;
     chat_max_tokens := 800;
     chat_temperature := 5 |}.

Definition generateChatResponse (w : world) (query : string)
  (relevantLinks : list context_link) : string :=
  match chat_completions_create w (chat_request_for query relevantLinks) with
  | Resolved choices =>
      match first_content choices with
      | Resolved message => content_or message "I could not generate a response."
      | Rejected _ =>
          "Sorry, I encountered an error while generating a response. Please try again later."
      end
  | Rejected _ =>
      "Sorry, I encountered an error while generating a response. Please try again later."
  end.

End OpenAiUtils.

(* ================================================================== *)
(** ** The relational store (prisma/supabase-setup.sql) *)
(* ================================================================== *)

Module Db.
Import Js Env.

(** A UUID.  [uuid_generate_v4] below picks one that no row uses. *)
Definition uuid : Type := nat.

Definition vector : Type := Float8.vector.

(** A row of [public.links]. *)
Record link : Type := {
  link_id : uuid;
  link_url : string;
  link_title : option string;
  link_image : option string;
  link_domain : option string;
  link_summary : option string;
  link_embedding : option vector;
  link_created_at : Z;
  link_updated_at : Z;
  link_user_id : uuid
}.

(** A row of [public.tags]. *)
Record tag : Type := {
  tag_id : uuid;
  tag_name : string
}.

(** The tables, each in the order a sequential scan visits its rows;
    [public.users] by its keys, [public.link_to_tag] as
    [(link_id, tag_id)] pairs. *)
Record store : Type := {
  users : list uuid;
  links : list link;
  tags : list tag;
  link_to_tag : list (uuid * uuid)
}.

Definition with_links (ls : list link) (s : store) : store :=
  {| users := users s; links := ls; tags := tags s; link_to_tag := link_to_tag s |}.

Definition with_tags (ts : list tag) (s : store) : store :=
  {| users := users s; links := links s; tags := ts; link_to_tag := link_to_tag s |}.

Definition with_link_to_tag (lt : list (uuid * uuid)) (s : store) : store :=
  {| users := users s; links := links s; tags := tags s; link_to_tag := lt |}.

(** The constraints of the schema: primary keys, [tags.name] UNIQUE, and
    the foreign keys of [links] and [link_to_tag]. *)
Record consistent (s : store) : Prop := {
  link_ids_unique : NoDup (map link_id (links s));
  tag_ids_unique : NoDup (map tag_id (tags s));
  tag_names_unique : NoDup (map tag_name (tags s));
  link_to_tag_unique : NoDup (link_to_tag s);
  link_owner_exists : forall l, In l (links s) -> In (link_user_id l) (users s);
  link_to_tag_refs : forall p, In p (link_to_tag s) ->
    In (fst p) (map link_id (links s)) /\ In (snd p) (map tag_id (tags s))
}.

(** A store operation that may throw; what it wrote before throwing stays
    (no statement here runs inside a transaction). *)
Definition db (A : Type) : Type := store -> outcome A * store.

Definition ret {A : Type} (a : A) : db A := fun s => (Resolved a, s).

Definition bind {A B : Type} (c : db A) (k : A -> db B) : db B :=
  fun s =>
    match c s with
    | (Resolved a, s') => k a s'
    | (Rejected e, s') => (Rejected e, s')
    end.

Notation "x <- c ;; k" := (bind c (fun x => k))
  (at level 61, c at next level, right associativity).

(** [uuid_generate_v4()]: a key no row of the store carries. *)
Definition uuid_generate_v4 (s : store) : uuid :=
  S (list_max (users s ++ map link_id (links s) ++ map tag_id (tags s))).

(** The single-precision number nearest to a double, held as a double. *)
Definition float4 (x : spec_float) : spec_float :=
  match x with
  | S754_finite s m e =>
      match binary_round 24 128 s m e with
      | S754_finite s' m' e' => binary_round 53 1024 s' m' e'
      | y => y
      end
  | _ => x
  end.

(** A component of the text of a vector as pgvector reads it ([strtof]
    into a [float4]): the number rounded to single precision; no value
    when the element is not a number, is NaN or an infinity (written
    [null] by [JSON.stringify]), or is out of the range of single
    precision.  (A double exactly half way between two single-precision
    numbers goes to the even one here; the store reads the decimal text
    of the double, which lies on one side.) *)
Definition as_float (v : value) : option spec_float :=
  match v with
  | Num x =>
      match float4 x with
      | S754_zero s => Some (S754_zero s)
      | S754_finite s m e => Some (S754_finite s m e)
      | _ => None
      end
  | _ => None
  end.

Fixpoint floats_of (items : list value) : option vector :=
  match items with
  | [] => Some []
  | v :: rest =>
      match as_float v, floats_of rest with
      | Some x, Some xs => Some (x :: xs)
      | _, _ => None
      end
  end.

(** [JSON.stringify(embedding)] cast to [vector(1536)]: pgvector refuses a
    vector of another dimension and one with a component that is not a
    finite number of the range of single precision, and keeps the
    components in single precision. *)
Definition vector_in (embedding : list value) : option vector :=
  if List.length embedding =? 1536 then floats_of embedding else None.

Definition user_exists (user : uuid) (s : store) : bool :=
  existsb (Nat.eqb user) (users s).

Definition link_exists (id : uuid) (s : store) : bool :=
  existsb (fun l => link_id l =? id) (links s).

Definition tag_exists (id : uuid) (s : store) : bool :=
  existsb (fun t => tag_id t =? id) (tags s).

(** [INSERT INTO public.links (url, title, image, domain, summary, user_id,
    embedding) VALUES (...)]: [id], [created_at] and [updated_at] take
    their defaults. *)
Definition insert_link (created : Z) (url : string) (title image : option string)
  (domain summary : string) (user : uuid) (embedding : list value) : db unit :=
  fun s =>
    match vector_in embedding with
    | None => (Rejected (ErrorObj "invalid input for type vector"), s)
    | Some v =>
        if user_exists user s
        then (Resolved tt,
              with_links
                (links s ++
                 [ {| link_id := uuid_generate_v4 s;
                      link_url := url;
                      link_title := title;
                      link_image := image;
                      link_domain := Some domain;
                      link_summary := Some summary;
                      link_embedding := Some v;
                      link_created_at := created;
                      link_updated_at := created;
                      link_user_id := user |} ]) s)
        else (Rejected (ErrorObj "violates foreign key constraint"), s)
    end.

(** The row with the greatest [created_at]; among equals the scan order
    is kept. *)
Fixpoint newest (candidates : list link) : option link :=
  match candidates with
  | [] => None
  | l :: rest =>
      match newest rest with
      | Some m => if (link_created_at l <? link_created_at m)%Z then Some m else Some l
      | None => Some l
      end
  end.

(** [prisma.link.findFirst({ where: { url, userId }, orderBy: { createdAt: 'desc' } })] *)
Definition findFirst (url : string) (userId : uuid) : db (option link) :=
  fun s =>
    (Resolved
       (newest (filter (fun l => String.eqb (link_url l) url && (link_user_id l =? userId))
                  (links s))),
     s).

(** [prisma.link.findUnique({ where: { id, userId } })] *)
Definition findUnique (id userId : uuid) : db (option link) :=
  fun s =>
    (Resolved (find (fun l => (link_id l =? id) && (link_user_id l =? userId)) (links s)), s).

(** How the Prisma client runs an upsert.  The client is not part of the
    sources: it sends either one statement (INSERT ... ON CONFLICT), or a
    SELECT and, when no row is found, an INSERT.  The code asks for
    neither and adds no transaction, lock or retry of its own. *)
Inductive upsert_mode : Type :=
| OneStatement
| ReadThenWrite.

(** [SELECT ... FROM public.tags WHERE name = ...] *)
Definition select_tag (name : string) : db (option tag) :=
  fun s => (Resolved (find (fun t => String.eqb (tag_name t) name) (tags s)), s).

(** [INSERT INTO public.tags (name) VALUES (...)]: [tags.name] is UNIQUE,
    so the store refuses a name that has its row. *)
Definition insert_tag (name : string) : db tag :=
  fun s =>
    if existsb (fun t => String.eqb (tag_name t) name) (tags s)
    then (Rejected (ErrorObj "Unique constraint failed on the fields: (name)"), s)
    else
      let t := {| tag_id := uuid_generate_v4 s; tag_name := name |} in
      (Resolved t, with_tags (tags s ++ [t]) s).

(** [prisma.tag.upsert({ where: { name }, update: {}, create: { name } })]
    with no statement of another request between its read and its write,
    as in a single request or when the client sends one statement: the
    row of the name, created when there is none. *)
Definition upsert_tag (name : string) : db tag :=
  found <- select_tag name ;;
  match found with
  | Some t => ret t
  | None => insert_tag name
  end.

(** [INSERT INTO public.link_to_tag (link_id, tag_id) VALUES (...)
    ON CONFLICT (link_id, tag_id) DO NOTHING] *)
Definition insert_link_to_tag (linkId tagId : uuid) : db unit :=
  fun s =>
    if existsb (fun p => (fst p =? linkId) && (snd p =? tagId)) (link_to_tag s)
    then (Resolved tt, s)
    else if link_exists linkId s && tag_exists tagId s
    then (Resolved tt, with_link_to_tag (link_to_tag s ++ [(linkId, tagId)]) s)
    else (Rejected (ErrorObj "violates foreign key constraint"), s).

(** [DELETE FROM public.link_to_tag WHERE link_id = ...] *)
Definition delete_link_to_tag (linkId : uuid) : db unit :=
  fun s =>
    (Resolved tt,
     with_link_to_tag (filter (fun p => negb (fst p =? linkId)) (link_to_tag s)) s).

Definition set_title_summary (title summary : option string) (updated : Z) (l : link) : link :=
  {| link_id := link_id l;
     link_url := link_url l;
     link_title := match title with Some t => Some t | None => link_title l end;
     link_image := link_image l;
     link_domain := link_domain l;
     link_summary := match summary with Some t => Some t | None => link_summary l end;
     link_embedding := link_embedding l;
     link_created_at := link_created_at l;
     link_updated_at := updated;
     link_user_id := link_user_id l |}.

(** [prisma.link.update({ where: { id }, data })] with [data] holding the
    title and the summary that are defined.  [updatedAt] is refreshed, as
    a column the client maintains would be (the Prisma schema is not part
    of the sources; nothing below depends on it).  It throws when no row
    has the key. *)
Definition update_link (id : uuid) (title summary : option string) (updated : Z) : db link :=
  fun s =>
    match find (fun l => link_id l =? id) (links s) with
    | None => (Rejected (ErrorObj "Record to update not found."), s)
    | Some l =>
        (Resolved (set_title_summary title summary updated l),
         with_links
           (map (fun r => if link_id r =? id then set_title_summary title summary updated r else r)
              (links s)) s)
    end.

(** [prisma.link.delete({ where: { id } })]; the rows of [link_to_tag]
    that refer to the link go with it (ON DELETE CASCADE). *)
Definition delete_link (id : uuid) : db unit :=
  fun s =>
    if link_exists id s
    then (Resolved tt,
          {| users := users s;
             links := filter (fun l => negb (link_id l =? id)) (links s);
             tags := tags s;
             link_to_tag := filter (fun p => negb (fst p =? id)) (link_to_tag s) |})
    else (Rejected (ErrorObj "Record to delete does not exist."), s).

(** [SELECT t.* FROM public.tags t JOIN public.link_to_tag lt
    ON t.id = lt.tag_id WHERE lt.link_id = ...] *)
Definition tags_of_link (linkId : uuid) (s : store) : list tag :=
  flat_map
    (fun p => if fst p =? linkId
              then filter (fun t => tag_id t =? snd p) (tags s)
              else [])
    (link_to_tag s).

(** [supabase.from('links').select('embedding').eq('id', id).single()] *)
Definition embedding_of_link (id : uuid) (s : store) : option vector :=
  match find (fun l => link_id l =? id) (links s) with
  | Some l => link_embedding l
  | None => None
  end.

(** *** match_links *)

(** A row of the table [match_links] returns. *)
Record match_row : Type := {
  m_id : uuid;
  m_url : string;
  m_title : option string;
  m_image : option string;
  m_domain : option string;
  m_summary : option string;
  m_similarity : spec_float
}.

(** [1 - (links.embedding <=> query_embedding)] *)
Definition similarity (w : world) (embedding query_embedding : vector) : spec_float :=
  Float8.sub Float8.one (cosine_distance w embedding query_embedding).

(** The WHERE clause and the SELECT list: the row of the result a link
    contributes, if any. *)
Definition matching (w : world) (query_embedding : vector) (match_threshold : spec_float)
  (user_id : uuid) (l : link) : option match_row :=
  if link_user_id l =? user_id
  then match link_embedding l with
       | Some embedding =>
           if Float8.gt (similarity w embedding query_embedding) match_threshold
           then Some {| m_id := link_id l;
                        m_url := link_url l;
                        m_title := link_title l;
                        m_image := link_image l;
                        m_domain := link_domain l;
                        m_summary := link_summary l;
                        m_similarity := similarity w embedding query_embedding |}
           else None
       | None => None
       end
  else None.

Fixpoint select_where (w : world) (query_embedding : vector) (match_threshold : spec_float)
  (user_id : uuid) (rows : list link) : list match_row :=
  match rows with
  | [] => []
  | l :: rest =>
      match matching w query_embedding match_threshold user_id l with
      | Some r => r :: select_where w query_embedding match_threshold user_id rest
      | None => select_where w query_embedding match_threshold user_id rest
      end
  end.

(** ORDER BY similarity DESC names no second key: rows of equal similarity
    come out in an order the SQL does not fix.  Here they keep the order
    of the scan, so every order the store may produce is the result for
    some order of the table. *)
Fixpoint insert_desc (r : match_row) (sorted : list match_row) : list match_row :=
  match sorted with
  | [] => [r]
  | r' :: rest =>
      if Float8.lt (m_similarity r) (m_similarity r')
      then r' :: insert_desc r rest
      else r :: sorted
  end.

Definition order_by_similarity_desc (rows : list match_row) : list match_row :=
  fold_right insert_desc [] rows.

(** [match_links(query_embedding, match_threshold, match_count, user_id)];
    a negative LIMIT is an error of the store. *)
Definition match_links (w : world) (query_embedding : vector) (match_threshold : spec_float)
  (match_count : Z) (user_id : uuid) (s : store) : outcome (list match_row) :=
  if (match_count <? 0)%Z
  then Rejected (ErrorObj "LIMIT must not be negative")
  else Resolved
         (firstn (Z.to_nat match_count)
            (order_by_similarity_desc
               (select_where w query_embedding match_threshold user_id (links s)))).

End Db.

(* ================================================================== *)
(** ** HTTP requests and responses *)
(* ================================================================== *)

Module Http.
Import Js Db.

(** [req.user], set by the authentication middleware. *)
Record auth_user : Type := {
  user_id : uuid;
  user_email : string
}.

Record request : Type := {
  req_user : option auth_user;
  (** [req.params.id] *)
  req_id : uuid;
  req_body : value
}.

(** The link object of a response ([formatLinkResponse]). *)
Record LinkResponse : Type := {
  r_id : uuid;
  r_url : string;
  r_title : option string;
  r_image : option string;
  r_domain : option string;
  r_summary : option string;
  r_tags : list string;
  r_embedding : option vector;
  r_createdAt : Z;
  r_updatedAt : Z
}.

(** An element of [similarLinks] in the chat response. *)
Record FormattedLink : Type := {
  f_id : uuid;
  f_url : string;
  f_title : option string;
  f_domain : option string;
  f_summary : option string;
  f_similarity : spec_float;
  f_relevanceScore : spec_float
}.

Inductive payload : Type :=
| Message (message : string)
| ValidationErrors
| ProcessingError (message error : string)
| LinkPayload (message : string) (link : LinkResponse)
| ChatPayload (response : string) (similarLinks : list FormattedLink).

Record response : Type := {
  status : nat;
  json : payload
}.

Definition reply (code : nat) (body : payload) : response :=
  {| status := code; json := body |}.

End Http.

(* ================================================================== *)
(** ** controllers/link.controller.ts *)
(* ================================================================== *)

Module LinkController.
Import Js Env Db Http.

(** [createLinkSchema]: an object whose [url] is a string that is a URL. *)
Definition validate_createLink (w : world) (body : value) : option string :=
  match body with
  | Obj fields =>
      match lookup "url" fields with
      | Str url => if zod_url w url then Some url else None
      | _ => None
      end
  | _ => None
  end.

(** The data [updateLinkSchema] lets through. *)
Record update_data : Type := {
  upd_title : option string;
  upd_summary : option string;
  upd_tags : option (list string)
}.

(** [z.string().optional()]: absent, or a string. *)
Definition optional_string (v : value) : option (option string) :=
  match v with
  | Undefined => Some None
  | Str s => Some (Some s)
  | _ => None
  end.

(** [z.array(z.string()).optional()] *)
Definition optional_strings (v : value) : option (option (list string)) :=
  match v with
  | Undefined => Some None
  | Arr items => option_map Some (as_strings items)
  | _ => None
  end.

Definition validate_updateLink (body : value) : option update_data :=
  match body with
  | Obj fields =>
      match optional_string (lookup "title" fields),
            optional_string (lookup "summary" fields),
            optional_strings (lookup "tags" fields) with
      | Some title, Some summary, Some tags =>
          Some {| upd_title := title; upd_summary := summary; upd_tags := tags |}
      | _, _, _ => None
      end
  | _ => None
  end.

(** The loop of [createTagsForLink]. *)
Fixpoint link_each_tag (linkId : uuid) (tagNames : list string) : db unit :=
  match tagNames with
  | [] => ret tt
  | tagName :: rest =>
      tag <- upsert_tag tagName ;;
      _ <- insert_link_to_tag linkId (tag_id tag) ;;
      link_each_tag linkId rest
  end.

Definition createTagsForLink (linkId : uuid) (tagNames : list string) : db unit :=
  fun s =>
    match link_each_tag linkId tagNames s with
    | (Resolved u, s') => (Resolved u, s')
    | (Rejected _, s') => (Rejected (ErrorObj "Failed to create tags for link"), s')
    end.

(** [getTagsForLink] *)
Definition getTagsForLink (linkId : uuid) (s : store) : list tag := tags_of_link linkId s.

Definition deleteTagsForLink (linkId : uuid) : db unit :=
  fun s =>
    match delete_link_to_tag linkId s with
    | (Resolved u, s') => (Resolved u, s')
    | (Rejected _, s') => (Rejected (ErrorObj "Failed to delete tags for link"), s')
    end.

Definition formatLinkResponse (l : link) (embedding : option vector) (tags : list tag)
  : LinkResponse :=
  {| r_id := link_id l;
     r_url := link_url l;
     r_title := link_title l;
     r_image := link_image l;
     r_domain := link_domain l;
     r_summary := link_summary l;
     r_tags := map tag_name tags;
     r_embedding := embedding;
     r_createdAt := link_created_at l;
     r_updatedAt := link_updated_at l |}.

(** The inner [catch] of [createLink]. *)
Definition processing_error (w : world) (error : thrown) : response :=
  reply 500
    (ProcessingError "Error processing link"
       (if development w then "Error: " +++ message_of error else "Server error")).

(** POST /api/links *)
Definition createLink (w : world) (req : request) (s : store) : response * store :=
  match req_user req with
  | None => (reply 401 (Message "Not authenticated"), s)
  | Some user =>
      match validate_createLink w (req_body req) with
      | None => (reply 400 ValidationErrors, s)
      | Some url =>
          let metadata := UrlUtils.extractUrlMetadata w url in
          let content := UrlUtils.extractUrlContent w url in
          let summary := OpenAiUtils.generateSummary w content in
          let suggestedTags := OpenAiUtils.generateTags w content in
          match OpenAiUtils.generateEmbedding w content with
          | Rejected error => (processing_error w error, s)
          | Resolved embedding =>
              if negb (List.length embedding =? 1536)
              then (reply 500 (Message "Failed to generate valid embedding"), s)
              else
                match insert_link (now w) url (md_title metadata) (md_image metadata)
                        (md_domain metadata) summary (user_id user) embedding s with
                | (Rejected error, s1) => (processing_error w error, s1)
                | (Resolved _, s1) =>
                    match findFirst url (user_id user) s1 with
                    | (Rejected error, s2) => (processing_error w error, s2)
                    | (Resolved None, s2) =>
                        (reply 500 (Message "Failed to create link"), s2)
                    | (Resolved (Some newLink), s2) =>
                        match createTagsForLink (link_id newLink) suggestedTags s2 with
                        | (Rejected error, s3) => (processing_error w error, s3)
                        | (Resolved _, s3) =>
                            (reply 201
                               (LinkPayload "Link created successfully"
                                  (formatLinkResponse newLink
                                     (embedding_of_link (link_id newLink) s3)
                                     (getTagsForLink (link_id newLink) s3))),
                             s3)
                        end
                    end
                end
          end
      end
  end.

(** The body of the [try] of [updateLink] once the link is known to exist. *)
Definition apply_update (w : world) (id : uuid) (data : update_data) : db response :=
  updatedLink <- update_link id (upd_title data) (upd_summary data) (now w) ;;
  _ <- match upd_tags data with
       | Some tags =>
           _ <- deleteTagsForLink id ;;
           createTagsForLink id tags
       | None => ret tt
       end ;;
  fun s =>
    (Resolved
       (reply 200
          (LinkPayload "Link updated successfully"
             (formatLinkResponse updatedLink (embedding_of_link id s) (getTagsForLink id s)))),
     s).

(** PUT /api/links/:id *)
Definition updateLink (w : world) (req : request) (s : store) : response * store :=
  match req_user req with
  | None => (reply 401 (Message "Not authenticated"), s)
  | Some user =>
      match validate_updateLink (req_body req) with
      | None => (reply 400 ValidationErrors, s)
      | Some data =>
          match findUnique (req_id req) (user_id user) s with
          | (Rejected _, s1) => (reply 500 (Message "Server error updating link"), s1)
          | (Resolved None, s1) => (reply 404 (Message "Link not found"), s1)
          | (Resolved (Some existingLink), s1) =>
              match apply_update w (req_id req) data s1 with
              | (Resolved r, s2) => (r, s2)
              | (Rejected _, s2) => (reply 500 (Message "Server error updating link"), s2)
              end
          end
      end
  end.

(** DELETE /api/links/:id *)
Definition deleteLink (w : world) (req : request) (s : store) : response * store :=
  match req_user req with
  | None => (reply 401 (Message "Not authenticated"), s)
  | Some user =>
      match findUnique (req_id req) (user_id user) s with
      | (Rejected _, s1) => (reply 500 (Message "Server error deleting link"), s1)
      | (Resolved None, s1) => (reply 404 (Message "Link not found"), s1)
      | (Resolved (Some _), s1) =>
          match delete_link (req_id req) s1 with
          | (Resolved _, s2) => (reply 200 (Message "Link deleted successfully"), s2)
          | (Rejected _, s2) => (reply 500 (Message "Server error deleting link"), s2)
          end
      end
  end.

(** The requests that write to the store, and a sequence of them served
    one after the other. *)
Inductive operation : Type :=
| CreateLink (w : world) (req : request)
| UpdateLink (w : world) (req : request)
| DeleteLink (w : world) (req : request).

Definition serve (op : operation) (s : store) : response * store :=
  match op with
  | CreateLink w req => createLink w req s
  | UpdateLink w req => updateLink w req s
  | DeleteLink w req => deleteLink w req s
  end.

Fixpoint serve_all (ops : list operation) (s : store) : store :=
  match ops with
  | [] => s
  | op :: rest => serve_all rest (snd (serve op s))
  end.

(** The names of the tags of a Record. *)
Definition tag_names_of (linkId : uuid) (s : store) : list string :=
  map tag_name (getTagsForLink linkId s).

End LinkController.

(* ================================================================== *)
(** ** controllers/chat.controller.ts *)
(* ================================================================== *)

Module ChatController.
Import Js Env Db Http.

(** [chatQuerySchema]: an object whose [query] is a non-empty string. *)
Definition validate_chatQuery (body : value) : option string :=
  match body with
  | Obj fields =>
      match lookup "query" fields with
      | Str query => if 1 <=? String.length query then Some query else None
      | _ => None
      end
  | _ => None
  end.

(** [supabase.rpc('match_links', {...})]: [{ data, error }]. *)
Definition rpc_match_links (w : world) (query_embedding : list value)
  (match_threshold : spec_float) (match_count : Z) (user : uuid) (s : store)
  : outcome (list match_row) :=
  match vector_in query_embedding with
  | Some q => match_links w q match_threshold match_count user s
  | None => Rejected (ErrorObj "invalid input for type vector")
  end.

Definition as_context (r : match_row) : OpenAiUtils.context_link :=
  {| OpenAiUtils.ctx_url := m_url r;
     OpenAiUtils.ctx_title := m_title r;
     OpenAiUtils.ctx_summary := m_summary r |}.

Definition format_link (w : world) (r : match_row) : FormattedLink :=
  {| f_id := m_id r;
     f_url := m_url r;
     f_title := m_title r;
     f_domain := m_domain r;
     f_summary := m_summary r;
     f_similarity := m_similarity r;
     f_relevanceScore := Math_round w (Float8.mul (m_similarity r) Float8.hundred) |}.

(** The Retrieval Ranker as the chat endpoint runs it: K = 5, floor 0. *)
Definition chat_match_count : Z := 5.
Definition chat_match_threshold : spec_float := Float8.zero.

(** POST /api/chat.  It writes nothing: the store is only read. *)
Definition chatWithLinks (w : world) (req : request) (s : store) : response :=
  match req_user req with
  | None => reply 401 (Message "Not authenticated")
  | Some user =>
      match validate_chatQuery (req_body req) with
      | None => reply 400 ValidationErrors
      | Some query =>
          let enhancedQuery := "This is about: " +++ query in
          match OpenAiUtils.generateEmbedding w enhancedQuery with
          | Rejected _ => reply 500 (Message "Server error processing chat request")
          | Resolved queryEmbedding =>
              match rpc_match_links w queryEmbedding chat_match_threshold
                      chat_match_count (user_id user) s with
              | Rejected _ => reply 500 (Message "Error finding similar links")
              | Resolved [] =>
                  reply 200 (ChatPayload (OpenAiUtils.generateChatResponse w query []) [])
              | Resolved similarLinks =>
                  reply 200
                    (ChatPayload
                       (OpenAiUtils.generateChatResponse w query (map as_context similarLinks))
                       (map (format_link w) similarLinks))
              end
          end
      end
  end.

End ChatController.

(* ================================================================== *)
(** ** Two callers of createTagsForLink at once *)
(* ================================================================== *)

Module Interleaving.
Import Js Db.

(** Where one invocation of [createTagsForLink] stands: about to upsert
    the first of the names left (returned when none is left); between
    the read of an upsert that found no row and its INSERT; about to link
    the tag it got back; or thrown. *)
Inductive caller : Type :=
| Upserting (linkId : uuid) (tagNames : list string)
| Creating (linkId : uuid) (tagName : string) (rest : list string)
| Linking (linkId : uuid) (t : tag) (rest : list string)
| Thrown.

(** The next statement of a caller, run on the store as it is now.  An
    upsert is one statement or two, as the client runs it. *)
Definition advance (mode : upsert_mode) (c : caller) (s : store) : caller * store :=
  match c with
  | Upserting linkId [] => (c, s)
  | Upserting linkId (tagName :: rest) =>
      match mode with
      | OneStatement =>
          match upsert_tag tagName s with
          | (Resolved t, s') => (Linking linkId t rest, s')
          | (Rejected _, s') => (Thrown, s')
          end
      | ReadThenWrite =>
          match select_tag tagName s with
          | (Resolved (Some t), s') => (Linking linkId t rest, s')
          | (Resolved None, s') => (Creating linkId tagName rest, s')
          | (Rejected _, s') => (Thrown, s')
          end
      end
  | Creating linkId tagName rest =>
      match insert_tag tagName s with
      | (Resolved t, s') => (Linking linkId t rest, s')
      | (Rejected _, s') => (Thrown, s')
      end
  | Linking linkId t rest =>
      match insert_link_to_tag linkId (tag_id t) s with
      | (Resolved _, s') => (Upserting linkId rest, s')
      | (Rejected _, s') => (Thrown, s')
      end
  | Thrown => (c, s)
  end.

(** A caller that has returned or thrown. *)
Definition settled (c : caller) : bool :=
  match c with
  | Upserting _ [] => true
  | Thrown => true
  | _ => false
  end.

(** Two callers and the store they share.  Between two [await]s a caller
    runs one statement of the store, and the store runs each statement
    atomically; the event loop may run the next statement of either
    caller. *)
Inductive step (mode : upsert_mode)
  : store * caller * caller -> store * caller * caller -> Prop :=
| step_first s a b a' s' :
    settled a = false -> advance mode a s = (a', s') -> step mode (s, a, b) (s', a', b)
| step_second s a b b' s' :
    settled b = false -> advance mode b s = (b', s') -> step mode (s, a, b) (s', a, b').

Inductive steps (mode : upsert_mode)
  : store * caller * caller -> store * caller * caller -> Prop :=
| steps_refl c : steps mode c c
| steps_cons c1 c2 c3 : step mode c1 c2 -> steps mode c2 c3 -> steps mode c1 c3.

(** The names a caller has still to upsert. *)
Definition pending (c : caller) : list string :=
  match c with
  | Upserting _ tagNames => tagNames
  | Creating _ tagName rest => tagName :: rest
  | Linking _ _ rest => rest
  | Thrown => []
  end.

(** One caller run alone to its end: at most three statements per name. *)
Fixpoint run_alone (mode : upsert_mode) (fuel : nat) (c : caller) (s : store)
  : caller * store :=
  match fuel with
  | O => (c, s)
  | S fuel' =>
      if settled c then (c, s)
      else let (c', s') := advance mode c s in run_alone mode fuel' c' s'
  end.

End Interleaving.

(* ================================================================== *)
(** ** Sample worlds, requests and stores *)
(* ================================================================== *)

Module Sample.
Import Js Env Db Http.

(** The cosine distance of two vectors computed in doubles: one minus the
    dot product over the root of the product of the squared norms, the
    quotient kept within [-1, 1]; NaN when a norm is zero. *)
Fixpoint dot (a b : vector) : spec_float :=
  match a, b with
  | x :: a', y :: b' => Float8.add (Float8.mul x y) (dot a' b')
  | _, _ => Float8.zero
  end.

Definition cosine_distance_b64 (a b : vector) : spec_float :=
  let similarity := Float8.div (dot a b) (Float8.sqrt (Float8.mul (dot a a) (dot b b))) in
  let minus_one := S754_finite true 4503599627370496 (-52) in
  let clamped :=
    if SFltb Float8.one similarity then Float8.one
    else if SFltb similarity minus_one then minus_one
    else similarity in
  Float8.sub Float8.one clamped.

(** A world in which every outside service is down. *)
Definition offline : world :=
  {| fetch_page := fun _ => Rejected (ErrorObj "connect ETIMEDOUT");
     url_metadata := fun url => {| md_title := None; md_image := None; md_domain := "example.com" |};
     chat_completions_create := fun _ => Rejected (ErrorObj "503 Service Unavailable");
     embeddings_create := fun _ => Rejected (ErrorObj "503 Service Unavailable");
     JSON_parse := fun _ => None;
     zod_url := fun url => startsWith "http" url;
     Math_round := fun x => x;
     development := false;
     cosine_distance := cosine_distance_b64;
     now := 100 |}.

(** The same world with the embedding provider answering [reply]. *)
Definition embedding_answers (reply : list value) (w : world) : world :=
  {| fetch_page := fetch_page w;
     url_metadata := url_metadata w;
     chat_completions_create := chat_completions_create w;
     embeddings_create := fun _ => Resolved reply;
     JSON_parse := JSON_parse w;
     zod_url := zod_url w;
     Math_round := Math_round w;
     development := development w;
     cosine_distance := cosine_distance w;
     now := now w |}.

(** The unit vector of dimension 1536 along axis [i]. *)
Definition axis (i : nat) : vector :=
  repeat Float8.zero i ++ [Float8.one] ++ repeat Float8.zero (1535 - i).

Definition as_values (v : vector) : list value := map Num v.

(** A world whose embedding provider answers the unit vector along the
    first axis. *)
Definition online : world := embedding_answers [Arr (as_values (axis 0))] offline.

Definition alice : auth_user := {| user_id := 1; user_email := "alice@example.com" |}.

Definition save_request (url : string) : request :=
  {| req_user := Some alice; req_id := 0; req_body := Obj [("url", Str url)] |}.

(** A store with one user and no Record. *)
Definition fresh_store : store :=
  {| users := [1]; links := []; tags := []; link_to_tag := [] |}.

(** The same world at another time of the store's clock. *)
Definition at_time (t : Z) (w : world) : world :=
  {| fetch_page := fetch_page w;
     url_metadata := url_metadata w;
     chat_completions_create := chat_completions_create w;
     embeddings_create := embeddings_create w;
     JSON_parse := JSON_parse w;
     zod_url := zod_url w;
     Math_round := Math_round w;
     development := development w;
     cosine_distance := cosine_distance w;
     now := t |}.

(** A Record of user 1 as a row of [links]. *)
Definition saved (id : uuid) (url : string) (embedding : option vector) (created : Z) : link :=
  {| link_id := id;
     link_url := url;
     link_title := None;
     link_image := None;
     link_domain := Some "example.com";
     link_summary := Some "No summary available due to processing error.";
     link_embedding := embedding;
     link_created_at := created;
     link_updated_at := created;
     link_user_id := 1 |}.

(** Two Records of user 1: one without an embedding, one whose embedding
    is orthogonal to the first axis. *)
Definition sparse_store : store :=
  {| users := [1];
     links := [ saved 2 "https://example.com/a" None 10;
                saved 3 "https://example.com/b" (Some (axis 1)) 20 ];
     tags := [];
     link_to_tag := [] |}.

(** The same request served twice, at times 10 and 20 of the store's
    clock: two Records of one URL with the same embedding. *)
Definition saved_twice : store :=
  LinkController.serve_all
    [ LinkController.CreateLink (at_time 10 online) (save_request "https://example.com/a");
      LinkController.CreateLink (at_time 20 online) (save_request "https://example.com/a") ]
    fresh_store.

(** A request that gives Record 2 six tags of the user's own. *)
Definition retag_request : request :=
  {| req_user := Some alice;
     req_id := 2;
     req_body :=
       Obj [("tags", Arr [Str "todo"; Str "read later"; Str "work"; Str "home";
                          Str "ideas"; Str "misc"])] |}.

(** One URL saved, then its Record retagged by the user. *)
Definition saved_then_retagged : store :=
  LinkController.serve_all
    [ LinkController.CreateLink (at_time 10 online) (save_request "https://example.com/a");
      LinkController.UpdateLink (at_time 20 online) retag_request ]
    fresh_store.

(** A chat request of [alice]. *)
Definition chat_request_of (query : string) : request :=
  {| req_user := Some alice; req_id := 0; req_body := Obj [("query", Str query)] |}.

(** The same world with the text generation answering [content]. *)
Definition chat_answers (content : string) (w : world) : world :=
  {| fetch_page := fetch_page w;
     url_metadata := url_metadata w;
     chat_completions_create := fun _ => Resolved [Some content];
     embeddings_create := embeddings_create w;
     JSON_parse := JSON_parse w;
     zod_url := zod_url w;
     Math_round := Math_round w;
     development := development w;
     cosine_distance := cosine_distance w;
     now := now w |}.

End Sample.

(* ================================================================== *)
(** ** controllers/link.controller.ts: the read endpoints *)
(* ================================================================== *)

(** The Supabase client of the server acts under the service role
    (config/database.ts), so row level security filters nothing of what it
    reads. *)

Module LinkReads.
Import Js Env Db Http LinkController.

(** What a read endpoint answers: a status with its body, or a status with
    a message. *)
Inductive answer (A : Type) : Type :=
| Answer (code : nat) (body : A)
| Refusal (code : nat) (message : string).

Arguments Answer {A} code body.
Arguments Refusal {A} code message.

(** ORDER BY with one key: [goes_first y x] tells that [y] has to come
    before [x].  Rows that the key does not separate keep the order of
    the scan. *)
Fixpoint insert_by {A : Type} (goes_first : A -> A -> bool) (x : A) (sorted : list A)
  : list A :=
  match sorted with
  | [] => [x]
  | y :: rest =>
      if goes_first y x then y :: insert_by goes_first x rest else x :: sorted
  end.

Definition order_by {A : Type} (goes_first : A -> A -> bool) (rows : list A) : list A :=
  fold_right (insert_by goes_first) [] rows.

(** [createdAt] descending: the later row first. *)
Definition later (a b : link) : bool := (link_created_at b <? link_created_at a)%Z.

(** [prisma.link.findMany({ where: { userId }, orderBy: { createdAt: 'desc' } })] *)
Definition findMany (userId : uuid) (s : store) : list link :=
  order_by later (filter (fun l => link_user_id l =? userId) (links s)).

(** [supabase.from('links').select('id, embedding').in('id', ids)] *)
Definition select_embeddings (ids : list uuid) (s : store) : list (uuid * option vector) :=
  map (fun l => (link_id l, link_embedding l))
    (filter (fun l => existsb (Nat.eqb (link_id l)) ids) (links s)).

(** [embeddingMap.get(id)] after [embeddingMap.set] was called for each
    entry in turn: the last entry of the key counts. *)
Fixpoint Map_get (id : uuid) (entries : list (uuid * option vector))
  : option (option vector) :=
  match entries with
  | [] => None
  | (k, v) :: rest =>
      match Map_get id rest with
      | Some found => Some found
      | None => if k =? id then Some v else None
      end
  end.

(** [embeddingMap.get(link.id) || null] *)
Definition embedding_or_null (id : uuid) (entries : list (uuid * option vector))
  : option vector :=
  match Map_get id entries with
  | Some (Some embedding) => Some embedding
  | _ => None
  end.

(** GET /api/links *)
Definition getLinks (req : request) (s : store) : answer (list LinkResponse) :=
  match req_user req with
  | None => Refusal 401 "Not authenticated"
  | Some user =>
      let found := findMany (user_id user) s in
      let embeddings := select_embeddings (map link_id found) s in
      Answer 200
        (map (fun l => formatLinkResponse l (embedding_or_null (link_id l) embeddings)
                         (getTagsForLink (link_id l) s))
           found)
  end.

(** GET /api/links/:id *)
Definition getLinkById (req : request) (s : store) : answer LinkResponse :=
  match req_user req with
  | None => Refusal 401 "Not authenticated"
  | Some user =>
      match findUnique (req_id req) (user_id user) s with
      | (Rejected _, _) => Refusal 500 "Server error fetching link"
      | (Resolved None, _) => Refusal 404 "Link not found"
      | (Resolved (Some l), _) =>
          Answer 200
            (formatLinkResponse l (embedding_of_link (req_id req) s)
               (getTagsForLink (link_id l) s))
      end
  end.

(** The [preview] object of GET /api/links/preview. *)
Record Preview : Type := {
  p_url : string;
  p_title : option string;
  p_image : option string;
  p_domain : string;
  p_summary : string;
  p_tags : list string
}.

(** GET /api/links/preview?url=...; [query_url] is [req.query.url]. *)
Definition previewLink (w : world) (query_url : value) : answer Preview :=
  match query_url with
  | Str url =>
      if is_empty url then Refusal 400 "URL parameter is required"
      else
        let metadata := UrlUtils.extractUrlMetadata w url in
        let content := UrlUtils.extractUrlContent w url in
        Answer 200
          {| p_url := url;
             p_title := md_title metadata;
             p_image := md_image metadata;
             p_domain := md_domain metadata;
             p_summary := OpenAiUtils.generateSummary w content;
             p_tags := OpenAiUtils.generateTags w content |}
  | _ => Refusal 400 "URL parameter is required"
  end.

End LinkReads.

(* ================================================================== *)
(** ** controllers/tag.controller.ts *)
(* ================================================================== *)

Module TagController.
Import Js Env Db Http LinkController LinkReads.

(** An element of [links] in the answer of [getLinksByTag]. *)
Record TaggedLink : Type := {
  tl_id : uuid;
  tl_url : string;
  tl_title : option string;
  tl_image : option string;
  tl_domain : option string;
  tl_summary : option string;
  tl_tags : list string;
  tl_createdAt : Z
}.

(** [prisma.tag.findUnique({ where: { name } })] *)
Definition find_tag (name : string) (s : store) : option tag :=
  find (fun t => String.eqb (tag_name t) name) (tags s).

(** [SELECT l.* FROM public.links l JOIN public.link_to_tag lt
    ON l.id = lt.link_id WHERE lt.tag_id = ... AND l.user_id = ...
    ORDER BY l.created_at DESC]: one row for each pair that joins. *)
Definition links_with_tag (tagId userId : uuid) (s : store) : list link :=
  order_by later
    (flat_map
       (fun l =>
          if link_user_id l =? userId
          then map (fun _ => l)
                 (filter (fun p => (fst p =? link_id l) && (snd p =? tagId)) (link_to_tag s))
          else [])
       (links s)).

Definition tagged (s : store) (l : link) : TaggedLink :=
  {| tl_id := link_id l;
     tl_url := link_url l;
     tl_title := link_title l;
     tl_image := link_image l;
     tl_domain := link_domain l;
     tl_summary := link_summary l;
     tl_tags := map tag_name (tags_of_link (link_id l) s);
     tl_createdAt := link_created_at l |}.

(** GET /api/tags/:tagName/links *)
Definition getLinksByTag (req : request) (tagName : string) (s : store)
  : answer (tag * list TaggedLink) :=
  match req_user req with
  | None => Refusal 401 "Not authenticated"
  | Some user =>
      match find_tag tagName s with
      | None => Refusal 404 "Tag not found"
      | Some t => Answer 200 (t, map (tagged s) (links_with_tag (tag_id t) (user_id user) s))
      end
  end.

(** GET /api/tags: every tag, ordered by name as the store's collation
    [name_first] has it; no user is asked for. *)
Definition getAllTags (name_first : string -> string -> bool) (s : store)
  : list (uuid * string) :=
  map (fun t => (tag_id t, tag_name t))
    (order_by (fun a b => name_first (tag_name a) (tag_name b)) (tags s)).

End TagController.

(* ================================================================== *)
(** ** middleware/auth.middleware.ts *)
(* ================================================================== *)

Module AuthMiddleware.
Import Js Env Db Http.

(** What the middleware reads from its environment. *)
Record auth_env : Type := {
  (** [process.env.JWT_SECRET] *)
  JWT_SECRET : option string;
  (** [jwt.verify(token, secret)]: the decoded [id] and [email], [None]
      when it throws *)
  jwt_verify : string -> string -> option auth_user;
  (** the Supabase client, when both of its settings are there;
      [auth.getUser(token)] resolves to a user ([id], [email]) or to none
      (an error, or no user), or throws *)
  supabase_getUser : option (string -> outcome (option (uuid * option string)))
}.

(** [authHeader.split(' ')[1]] *)
Definition bearer_token (authHeader : string) : option string :=
  match split_on (ascii_of_nat 32) authHeader with
  | _ :: token :: _ => Some token
  | _ => None
  end.

Definition invalid_token : response := reply 401 (Message "Invalid or expired token").

(** [authenticate]: a response, or [next()] with [req.user] set. *)
Definition authenticate (env : auth_env) (authorization : option string)
  : response + auth_user :=
  match authorization with
  | None => inl (reply 401 (Message "No authorization token provided"))
  | Some authHeader =>
      if is_empty authHeader
      then inl (reply 401 (Message "No authorization token provided"))
      else
        match bearer_token authHeader with
        | None => inl (reply 401 (Message "Invalid authorization format"))
        | Some token =>
            if is_empty token
            then inl (reply 401 (Message "Invalid authorization format"))
            else
              match JWT_SECRET env with
              | None => inl (reply 500 (Message "Server configuration error"))
              | Some jwtSecret =>
                  if is_empty jwtSecret
                  then inl (reply 500 (Message "Server configuration error"))
                  else
                    match jwt_verify env token jwtSecret with
                    | Some decoded => inr decoded
                    | None =>
                        match supabase_getUser env with
                        | Some getUser =>
                            match getUser token with
                            | Resolved (Some (id, email)) =>
                                inr {| user_id := id;
                                       user_email := match email with
                                                     | Some e => e
                                                     | None => ""
                                                     end |}
                            | Resolved None => inl invalid_token
                            | Rejected _ => inl invalid_token
                            end
                        | None => inl invalid_token
                        end
                    end
              end
        end
  end.

(** A route behind [router.use(authenticate)]: the handler runs only when
    the middleware calls [next()]. *)
Definition behind_authenticate (env : auth_env) (authorization : option string)
  (id : uuid) (body : value)
  (handler : request -> store -> response * store) (s : store) : response * store :=
  match authenticate env authorization with
  | inl refused => (refused, s)
  | inr user => handler {| req_user := Some user; req_id := id; req_body := body |} s
  end.

End AuthMiddleware.

(* ================================================================== *)
(** ** The notions the properties are stated with *)
(* ================================================================== *)

Import Js Env Db Http.

(** A run-time value that is a finite number: a number, not NaN, not an
    infinity. *)
Definition finite_number (v : value) : Prop :=
  exists x, v = Num x /\ x <> S754_nan /\ forall sign, x <> S754_infinity sign.

(** A double that is neither NaN nor an infinity. *)
Definition finite_float (x : spec_float) : Prop :=
  x <> S754_nan /\ forall sign, x <> S754_infinity sign.

(** What the provider must answer for [generateEmbedding] to return: an
    array of exactly 1536 finite numbers. *)
Definition well_formed_embedding (embedding : value) : Prop :=
  exists items, embedding = Arr items /\ List.length items = 1536 /\
                Forall finite_number items.

(** The row [createLink] inserts for [url], owned by [user], with the
    embedding [vec], into the store [s]. *)
Definition ingested_row (w : world) (url : string) (user : uuid) (vec : vector)
  (s : store) : link :=
  let metadata := UrlUtils.extractUrlMetadata w url in
  let content := UrlUtils.extractUrlContent w url in
  {| link_id := uuid_generate_v4 s;
     link_url := url;
     link_title := md_title metadata;
     link_image := md_image metadata;
     link_domain := Some (md_domain metadata);
     link_summary := Some (OpenAiUtils.generateSummary w content);
     link_embedding := Some vec;
     link_created_at := now w;
     link_updated_at := now w;
     link_user_id := user |}.

(** The Records of [user] saved from [url]. *)
Definition records_of (url : string) (user : uuid) (s : store) : list link :=
  filter (fun l => String.eqb (link_url l) url && (link_user_id l =? user)) (links s).

(** The embedding service fails on [text]: the provider call errors, or it
    answers no vector at all, or the first vector it answers is not an
    array of 1536 finite numbers. *)
Definition embedding_service_fails (w : world) (text : string) : Prop :=
  forall embedding rest,
    embeddings_create w (OpenAiUtils.truncateText text) = Resolved (embedding :: rest) ->
    ~ well_formed_embedding embedding.


(** The rows are in non-increasing order of similarity as the store
    orders [float8] values (NaN above every number): no row has a smaller
    similarity than a row that comes after it. *)
Definition non_increasing (rows : list match_row) : Prop :=
  StronglySorted (fun a b => Float8.ge (m_similarity a) (m_similarity b) = true) rows.

(** [x] is greater than [threshold] as the store compares [float8]
    values: a number numerically greater than the threshold, or NaN, which
    the store puts above every number. *)
Definition above (threshold x : spec_float) : Prop :=
  (x = S754_nan /\ threshold <> S754_nan) \/ SFltb threshold x = true.

(** The rows are numbers in non-increasing numeric order. *)
Definition numbers_non_increasing (rows : list match_row) : Prop :=
  Forall (fun r => m_similarity r <> S754_nan) rows /\
  StronglySorted (fun a b => SFleb (m_similarity b) (m_similarity a) = true) rows.

(** The Records of [user]. *)
Definition owned_by (user : uuid) (s : store) : list link :=
  filter (fun l => link_user_id l =? user) (links s).

(** [createdAt] replaced, row by row, by any other value. *)
Definition set_created_at (f : link -> Z) (l : link) : link :=
  {| link_id := link_id l;
     link_url := link_url l;
     link_title := link_title l;
     link_image := link_image l;
     link_domain := link_domain l;
     link_summary := link_summary l;
     link_embedding := link_embedding l;
     link_created_at := f l;
     link_updated_at := link_updated_at l;
     link_user_id := link_user_id l |}.

(** The [createdAt] of the Record with key [id]. *)
Definition created_at_of (s : store) (id : uuid) : Z :=
  match find (fun l => link_id l =? id) (links s) with
  | Some l => link_created_at l
  | None => 0
  end.

(** The reading of "ties broken by most-recent createdAt": of two returned
    rows of equal similarity, the one whose Record was created later comes
    first. *)
Definition ties_most_recent_first (s : store) (rows : list match_row) : Prop :=
  forall before r1 between r2 after,
    rows = before ++ r1 :: between ++ r2 :: after ->
    m_similarity r1 = m_similarity r2 ->
    (created_at_of s (m_id r2) <= created_at_of s (m_id r1))%Z.

(** The fields of a Record that no update may touch. *)
Definition immutable_fields (l : link)
  : uuid * string * option string * option string * option vector * uuid * Z :=
  (link_id l, link_url l, link_image l, link_domain l, link_embedding l,
   link_user_id l, link_created_at l).

(** The rows of [link_to_tag] that belong to other Records than [id]. *)
Definition tag_links_of_others (id : uuid) (s : store) : list (uuid * uuid) :=
  filter (fun p => negb (fst p =? id)) (link_to_tag s).

(** The rows of [tags] that carry [name]. *)
Definition tag_rows (name : string) (s : store) : list tag :=
  filter (fun t => String.eqb (tag_name t) name) (tags s).

(** The rows of [link_to_tag] for the pair [(linkId, tagId)]. *)
Definition link_rows (linkId tagId : uuid) (s : store) : list (uuid * uuid) :=
  filter (fun p => (fst p =? linkId) && (snd p =? tagId)) (link_to_tag s).

(** How many statements a caller has at most still to run. *)
Definition weight (c : Interleaving.caller) : nat :=
  match c with
  | Interleaving.Upserting _ tagNames => 3 * List.length tagNames
  | Interleaving.Creating _ _ rest => 3 * List.length rest + 2
  | Interleaving.Linking _ _ rest => 3 * List.length rest + 1
  | Interleaving.Thrown => 0
  end.

(** A caller that can go on when the client sends each upsert as one
    statement: its link is in the table, and so is the tag it is about to
    link; it never stands between the read and the write of an upsert. *)
Definition sound (s : store) (c : Interleaving.caller) : Prop :=
  match c with
  | Interleaving.Upserting linkId _ => link_exists linkId s = true
  | Interleaving.Creating _ _ _ => False
  | Interleaving.Linking linkId t _ => link_exists linkId s = true /\ In t (tags s)
  | Interleaving.Thrown => False
  end.

(** Every name of [tagNames] is still to be upserted or has its row. *)
Definition upserted (tagNames : list string) (c : Interleaving.caller) (s : store) : Prop :=
  forall name, In name tagNames ->
    In name (Interleaving.pending c) \/ In name (map tag_name (tags s)).

(** What every configuration two sound callers can reach satisfies. *)
Definition invariant (namesA namesB : list string)
  (c : store * Interleaving.caller * Interleaving.caller) : Prop :=
  match c with
  | (s, a, b) =>
      NoDup (map tag_name (tags s)) /\ sound s a /\ sound s b /\
      upserted namesA a s /\ upserted namesB b s
  end.

(** The statements the two callers of a configuration have still to run. *)
Definition remaining (c : store * Interleaving.caller * Interleaving.caller) : nat :=
  match c with
  | (_, a, b) => weight a + weight b
  end.

(** Every Record has at most five tags, all of the vocabulary. *)
Definition tags_within_vocabulary (s : store) : Prop :=
  forall id,
    incl (LinkController.tag_names_of id s) OpenAiUtils.AVAILABLE_TAGS /\
    List.length (LinkController.tag_names_of id s) <= 5.

(** A link update whose body passes validation and carries a [tags] array. *)
Definition supplies_tags (op : LinkController.operation) : bool :=
  match op with
  | LinkController.UpdateLink _ req =>
      match LinkController.validate_updateLink (req_body req) with
      | Some data =>
          match LinkController.upd_tags data with
          | Some _ => true
          | None => false
          end
      | None => false
      end
  | _ => false
  end.

(** The store's clock runs forward: each ingestion happens after every
    Record in the store was created. *)
Fixpoint timely (ops : list LinkController.operation) (s : store) : Prop :=
  match ops with
  | [] => True
  | op :: rest =>
      match op with
      | LinkController.CreateLink w _ =>
          forall l, In l (links s) -> (link_created_at l < now w)%Z
      | _ => True
      end /\
      timely rest (snd (LinkController.serve op s))
  end.

(** White space inside a text is single spaces only: every white-space
    character is a space, and no space follows a space ([after_space]
    tells whether the character before was one). *)
Fixpoint single_spaced (after_space : bool) (s : string) : bool :=
  match s with
  | EmptyString => true
  | String c r =>
      if is_space c
      then (nat_of_ascii c =? 32) && negb after_space && single_spaced true r
      else single_spaced false r
  end.

(** The user a write request is served for. *)
Definition actor (op : LinkController.operation) : option uuid :=
  match op with
  | LinkController.CreateLink _ req
  | LinkController.UpdateLink _ req
  | LinkController.DeleteLink _ req => option_map user_id (req_user req)
  end.


(** A store of two users. *)
Module Cases.

Definition bob : auth_user := {| user_id := 7; user_email := "bob@example.com" |}.

Definition saved_by (user id : uuid) (url : string) (created : Z) : link :=
  {| link_id := id;
     link_url := url;
     link_title := Some "A page";
     link_image := None;
     link_domain := Some "example.com";
     link_summary := Some "About a page.";
     link_embedding := None;
     link_created_at := created;
     link_updated_at := created;
     link_user_id := user |}.

(** Record 2 of user 1 and Record 3 of user 7, both tagged "Blog"; Record
    5 of user 1, the latest, tagged "News". *)
Definition two_users : store :=
  {| users := [1; 7];
     links := [ saved_by 1 2 "https://example.com/a" 10;
                saved_by 7 3 "https://example.com/b" 20;
                saved_by 1 5 "https://example.com/c" 30 ];
     tags := [ {| tag_id := 4; tag_name := "Blog" |}; {| tag_id := 6; tag_name := "News" |} ];
     link_to_tag := [ (2, 4); (3, 4); (5, 6) ] |}.

(** A request of [user] about the Record [id]. *)
Definition request_of (user : auth_user) (id : uuid) (body : value) : request :=
  {| req_user := Some user; req_id := id; req_body := body |}.

(** A world whose embedding provider answers the zero vector. *)
Definition zero_vector : world :=
  Sample.embedding_answers [Arr (Sample.as_values (repeat Float8.zero 1536))] Sample.offline.

(** One URL saved with the zero vector as its embedding (Record 2), then
    another with the unit vector along the first axis (Record 5). *)
Definition with_zero_vector : store :=
  LinkController.serve_all
    [ LinkController.CreateLink (Sample.at_time 10 zero_vector)
        (Sample.save_request "https://example.com/z");
      LinkController.CreateLink (Sample.at_time 20 Sample.online)
        (Sample.save_request "https://example.com/a") ]
    Sample.fresh_store.



(** An environment of the middleware with a secret, in which the token
    "abc" is a valid JWT of [Sample.alice], and no Supabase client. *)
Definition with_jwt : AuthMiddleware.auth_env :=
  {| AuthMiddleware.JWT_SECRET := Some "secret";
     AuthMiddleware.jwt_verify :=
       fun token secret =>
         if String.eqb token "abc" && String.eqb secret "secret"
         then Some Sample.alice else None;
     AuthMiddleware.supabase_getUser := None |}.

End Cases.

(** The text [s] holds the character [c]. *)
Fixpoint has_char (c : ascii) (s : string) : bool :=
  match s with
  | EmptyString => false
  | String d r => Ascii.eqb d c || has_char c r
  end.

(** A row of [match_links] that shows a Record of [user], field by field,
    with a similarity the store puts above 0: a number greater than 0, or
    NaN. *)
Definition shows_record_of (user : uuid) (s : store) (r : match_row) : Prop :=
  exists l,
    In l (links s) /\ link_user_id l = user /\
    m_id r = link_id l /\ m_url r = link_url l /\ m_title r = link_title l /\
    m_domain r = link_domain l /\ m_summary r = link_summary l /\
    above Float8.zero (m_similarity r).

(* ================================================================== *)
(** * Properties *)
(* ================================================================== *)


(** ** The order on float8 *)

Ltac case_eqb :=
  match goal with
  | |- context [if Nat.eqb ?a ?b then _ else _] => destruct (Nat.eqb_spec a b)
  end.

Ltac decide_order :=
  split; split; intro; try discriminate; try reflexivity; try lia.

Lemma cmp_finite_rank sa ma ea sb mb eb :
  (Float8.cmp (S754_finite sa ma ea) (S754_finite sb mb eb) = Lt <->
     Float8.lex_lt (Float8.rank (S754_finite sa ma ea)) (Float8.rank (S754_finite sb mb eb))) /\
  (Float8.cmp (S754_finite sa ma ea) (S754_finite sb mb eb) = Gt <->
     Float8.lex_lt (Float8.rank (S754_finite sb mb eb)) (Float8.rank (S754_finite sa ma ea))).
Proof.
  destruct sa, sb; cbn -[Z.compare Z.lt Z.opp];
    change (PosDef.Pos.compare_cont Eq ma mb) with (Pos.compare ma mb);
    destruct (Z.compare_spec ea eb); destruct (Pos.compare_spec ma mb); cbn;
    decide_order.
Qed.

Lemma cmp_rank (a b : spec_float) :
  (Float8.cmp a b = Lt <-> Float8.lex_lt (Float8.rank a) (Float8.rank b)) /\
  (Float8.cmp a b = Gt <-> Float8.lex_lt (Float8.rank b) (Float8.rank a)).
Proof.
  destruct a as [sa|sa| |sa ma ea], b as [sb|sb| |sb mb eb];
    try apply cmp_finite_rank;
    try destruct sa; try destruct sb; cbn; decide_order.
Qed.

Lemma lt_rank a b : Float8.lt a b = true <-> Float8.lex_lt (Float8.rank a) (Float8.rank b).
Proof.
  unfold Float8.lt. destruct (cmp_rank a b) as [H _]. rewrite <- H.
  destruct (Float8.cmp a b); split; intro; try discriminate; reflexivity.
Qed.

Lemma gt_is_lt a b : Float8.gt a b = Float8.lt b a.
Proof.
  apply eq_true_iff_eq. rewrite lt_rank. unfold Float8.gt.
  destruct (cmp_rank a b) as [_ H]. rewrite <- H.
  destruct (Float8.cmp a b); split; intro; try discriminate; reflexivity.
Qed.

Lemma lt_asym a b : Float8.lt a b = true -> Float8.lt b a = false.
Proof.
  intro H. apply lt_rank in H. apply not_true_is_false. intro H'.
  apply lt_rank in H'.
  destruct (Float8.rank a) as [[? ?] ?], (Float8.rank b) as [[? ?] ?].
  cbn in *. lia.
Qed.

Lemma lt_negtrans a b c :
  Float8.lt a b = false -> Float8.lt b c = false -> Float8.lt a c = false.
Proof.
  intros H1 H2. apply not_true_is_false. intro H.
  apply lt_rank in H.
  assert (N1 : ~ Float8.lex_lt (Float8.rank a) (Float8.rank b))
    by (rewrite <- lt_rank; congruence).
  assert (N2 : ~ Float8.lex_lt (Float8.rank b) (Float8.rank c))
    by (rewrite <- lt_rank; congruence).
  destruct (Float8.rank a) as [[? ?] ?], (Float8.rank b) as [[? ?] ?],
    (Float8.rank c) as [[? ?] ?].
  cbn in *. lia.
Qed.

Lemma ge_trans a b c :
  Float8.ge a b = true -> Float8.ge b c = true -> Float8.ge a c = true.
Proof.
  unfold Float8.ge. intros H1 H2.
  apply negb_true_iff in H1. apply negb_true_iff in H2. apply negb_true_iff.
  (* a >= b and b >= c, that is: not (a < b), not (b < c) *)
  destruct (Float8.lt a c) eqn:E; [ | reflexivity ].
  destruct (Float8.lt b c) eqn:E2; [ discriminate | ].
  exfalso. apply lt_rank in E.
  assert (N1 : ~ Float8.lex_lt (Float8.rank a) (Float8.rank b))
    by (rewrite <- lt_rank; congruence).
  assert (N2 : ~ Float8.lex_lt (Float8.rank b) (Float8.rank c))
    by (rewrite <- lt_rank; congruence).
  destruct (Float8.rank a) as [[? ?] ?], (Float8.rank b) as [[? ?] ?],
    (Float8.rank c) as [[? ?] ?].
  cbn in *. lia.
Qed.

Lemma gt_ge a b : Float8.gt a b = true -> Float8.ge a b = true.
Proof.
  rewrite gt_is_lt. intro H. unfold Float8.ge. now rewrite (lt_asym _ _ H).
Qed.

Lemma SFcompare_antisym (a b : spec_float) (c : comparison) :
  SFcompare a b = Some c -> SFcompare b a = Some (CompOpp c).
Proof.
  destruct a as [sa|sa| |sa ma ea], b as [sb|sb| |sb mb eb]; cbn;
    try discriminate;
    try (destruct sa; intro H; injection H as <-; reflexivity);
    try (destruct sb; intro H; injection H as <-; reflexivity);
    try (destruct sa, sb; intro H; injection H as <-; reflexivity).
  intro H. injection H as <-. f_equal.
  destruct sa, sb; try reflexivity;
    rewrite (Z.compare_antisym ea eb); destruct (ea ?= eb)%Z; cbn; try reflexivity.
  - f_equal. symmetry. exact (Pos.compare_cont_antisym ma mb Eq).
  - symmetry. exact (Pos.compare_cont_antisym ma mb Eq).
Qed.

Lemma SFcompare_number (a b : spec_float) :
  a <> S754_nan -> b <> S754_nan -> exists c, SFcompare a b = Some c /\ Float8.cmp a b = c.
Proof.
  intros Ha Hb.
  destruct a as [sa|sa| |sa ma ea], b as [sb|sb| |sb mb eb]; try contradiction;
    cbn; eauto.
Qed.

(** What the store's [>] says in numeric terms. *)
Lemma gt_above (x threshold : spec_float) :
  Float8.gt x threshold = true <-> above threshold x.
Proof.
  unfold above, Float8.gt, SFltb. split.
  - destruct x as [sx|sx| |sx mx ex], threshold as [st|st| |st mt et];
      try (intro H; left; split; [ reflexivity | discriminate ]);
      try (cbn; discriminate);
      intro H; right;
      match goal with
      | |- match SFcompare ?t ?x with _ => _ end = true =>
          destruct (SFcompare_number x t ltac:(discriminate) ltac:(discriminate))
            as (c & Ec & Hc);
          rewrite (SFcompare_antisym _ _ _ Ec);
          rewrite Hc in H; destruct c; try discriminate H; reflexivity
      end.
  - intros [[-> Ht]|H].
    + destruct threshold; try reflexivity. contradiction.
    + destruct (SFcompare threshold x) as [[| |]|] eqn:E; try discriminate.
      assert (Ht : threshold <> S754_nan) by (intros ->; discriminate).
      assert (Hx : x <> S754_nan) by (intros ->; destruct threshold; discriminate).
      destruct (SFcompare_number x threshold Hx Ht) as (c & Ec & ->).
      rewrite (SFcompare_antisym _ _ _ E) in Ec. injection Ec as <-. reflexivity.
Qed.

(** The store's [>=] on two numbers is the numeric one. *)
Lemma ge_numeric (a b : spec_float) :
  a <> S754_nan -> b <> S754_nan -> Float8.ge a b = true -> SFleb b a = true.
Proof.
  intros Ha Hb. unfold Float8.ge, Float8.lt, SFleb.
  destruct (SFcompare_number a b Ha Hb) as (c & Ec & ->).
  rewrite (SFcompare_antisym _ _ _ Ec). now destruct c.
Qed.

Lemma ge_nan_right (a : spec_float) :
  a <> S754_nan -> Float8.ge a S754_nan = false.
Proof.
  destruct a; try reflexivity. contradiction.
Qed.

(** ** Strings *)

Lemma length_append (a b : string) :
  String.length (a +++ b) = String.length a + String.length b.
Proof.
  induction a as [|c a IH]; cbn; [ reflexivity | now rewrite IH ].
Qed.

Lemma length_substring_le (m : nat) (s : string) :
  String.length (substring 0 m s) <= m.
Proof.
  revert s. induction m as [|m IH]; intros [|c s]; cbn; try lia.
  specialize (IH s). lia.
Qed.

Lemma is_empty_true (s : string) : is_empty s = true <-> s = "".
Proof.
  destruct s; cbn; split; intro H; try reflexivity; discriminate.
Qed.

Lemma or_else_nonempty (a b : string) : b <> "" -> or_else a b <> "".
Proof.
  intros Hb. unfold or_else. destruct a; cbn; [ exact Hb | discriminate ].
Qed.

Lemma or_else_left (a b : string) : a <> "" -> or_else a b = a.
Proof.
  intros Ha. unfold or_else. destruct a; cbn; [ now elim Ha | reflexivity ].
Qed.

(** ** The content extractor *)

Section ContentExtractor.
Import UrlUtils.

Lemma limit_short (content : string) :
  String.length content <= maxLength -> limit content = content.
Proof.
  intro H. unfold limit.
  destruct (Nat.ltb_spec maxLength (String.length content)); [ lia | reflexivity ].
Qed.

Lemma limit_long (content : string) :
  maxLength < String.length content ->
  limit content = substring 0 maxLength content +++ "...".
Proof.
  intro H. unfold limit.
  destruct (Nat.ltb_spec maxLength (String.length content)); [ reflexivity | lia ].
Qed.

Lemma limit_bounded (content : string) :
  String.length (limit content) <= maxLength + 3.
Proof.
  unfold limit.
  destruct (Nat.ltb_spec maxLength (String.length content)) as [H|H].
  - rewrite length_append. pose proof (length_substring_le maxLength content).
    cbn [String.length]. lia.
  - lia.
Qed.

(** C7.  [extractUrlContent] returns a non-empty string for every URL and
    never throws.  When the fetch or the extraction throws, the result is
    the marker "Failed to extract content from <url>. Error: <message>".
    When a page was fetched and its cleaned text [t] is not empty, the
    result is [t] itself if [t] has at most [maxLength] = 8000 characters,
    and otherwise the first 8000 characters of [t] followed by "...", so
    it never exceeds 8003 characters; when the cleaned text is empty the
    result is the marker "Could not extract meaningful content from <url>". *)
Theorem extractUrlContent_nonempty_bounded (w : world) (url : string) :
  extractUrlContent w url <> "" /\
  (forall error, fetch_page w (formatUrl url) = Rejected error ->
     extractUrlContent w url =
       "Failed to extract content from " +++ url +++ ". Error: " +++ message_of error) /\
  (forall p, fetch_page w (formatUrl url) = Resolved p ->
     let t := clean (main_content p) in
     (t = "" ->
        extractUrlContent w url = "Could not extract meaningful content from " +++ url) /\
     (t <> "" ->
        extractUrlContent w url = limit t /\
        String.length (extractUrlContent w url) <= maxLength + 3 /\
        (String.length t <= maxLength -> extractUrlContent w url = t) /\
        (maxLength < String.length t ->
           extractUrlContent w url = substring 0 maxLength t +++ "..."))).
Proof.
  unfold extractUrlContent. split; [ | split ].
  - destruct (fetch_page w (formatUrl url)) as [p|error].
    + apply or_else_nonempty. discriminate.
    + discriminate.
  - intros error ->. reflexivity.
  - intros p Hp. rewrite Hp. cbv zeta.
    set (t := clean (main_content p)). split.
    + intro Ht. rewrite Ht.
      rewrite limit_short by (cbn; lia). reflexivity.
    + intro Ht.
      assert (Hl : limit t <> "").
      { unfold limit. destruct (maxLength <? String.length t).
        - intro H. apply (f_equal String.length) in H.
          rewrite length_append in H. cbn in H. lia.
        - exact Ht. }
      rewrite (or_else_left _ _ Hl).
      repeat split.
      * apply limit_bounded.
      * apply limit_short.
      * apply limit_long.
Qed.

End ContentExtractor.

(** ** The embedding generator *)

Section EmbeddingGenerator.
Import OpenAiUtils LinkController.

Lemma finite_number_iff (v : value) :
  finite_number v <-> Number_isNaN v || negb (Number_isFinite v) = false.
Proof.
  split.
  - intros (x & -> & Hn & Hi). destruct x as [s|s| |s m e]; cbn; try reflexivity.
    + now elim (Hi s).
    + now elim Hn.
  - intro H. destruct v as [| | b | x | s | items | fields]; try discriminate.
    destruct x as [s|s| |s m e]; try discriminate;
      (eexists; split; [ reflexivity | split; [ discriminate | intros ?; discriminate ] ]).
Qed.

Lemma all_finite_iff (items : list value) :
  Forall finite_number items <->
  existsb (fun val => Number_isNaN val || negb (Number_isFinite val)) items = false.
Proof.
  induction items as [|v items IH]; cbn.
  - split; [ reflexivity | constructor ].
  - rewrite orb_false_iff, <- IH, <- finite_number_iff. split.
    + intro H. inversion H; subst. now split.
    + intros [Hv Hr]. now constructor.
Qed.

Lemma check_embedding_spec (embedding : value) :
  (forall items, check_embedding embedding = Resolved items ->
     embedding = Arr items /\ List.length items = 1536 /\ Forall finite_number items) /\
  (well_formed_embedding embedding -> exists items, check_embedding embedding = Resolved items) /\
  (~ well_formed_embedding embedding -> exists e, check_embedding embedding = Rejected e).
Proof.
  assert (Hres : forall items, check_embedding embedding = Resolved items ->
     embedding = Arr items /\ List.length items = 1536 /\ Forall finite_number items).
  { intros items H. unfold check_embedding in H.
    destruct embedding as [| | b | x | s | l | fields]; try discriminate.
    destruct (Nat.eqb_spec (List.length l) EMBEDDING_DIMENSIONS) as [Hlen|Hlen];
      cbn in H; [ | discriminate ].
    destruct (existsb _ l) eqn:Hex; [ discriminate | ].
    injection H as <-. repeat split; [ exact Hlen | now apply all_finite_iff ]. }
  split; [ exact Hres | ].
  assert (Hwf : well_formed_embedding embedding ->
                exists items, check_embedding embedding = Resolved items).
  { intros (items & -> & Hlen & Hfin). exists items. unfold check_embedding.
    unfold EMBEDDING_DIMENSIONS. rewrite Hlen, Nat.eqb_refl. cbn.
    apply all_finite_iff in Hfin. now rewrite Hfin. }
  split; [ exact Hwf | ].
  intro Hbad. destruct (check_embedding embedding) as [items|e] eqn:E.
  - elim Hbad. destruct (Hres items eq_refl) as (-> & Hlen & Hfin).
    now exists items.
  - now exists e.
Qed.

Lemma generateEmbedding_resolved (w : world) (text : string) (v : list value) :
  generateEmbedding w text = Resolved v ->
  (exists rest, embeddings_create w (truncateText text) = Resolved (Arr v :: rest)) /\
  List.length v = 1536 /\ Forall finite_number v.
Proof.
  unfold generateEmbedding. intro H.
  destruct (embeddings_create w (truncateText text)) as [[|embedding rest]|e];
    try discriminate.
  destruct (check_embedding embedding) as [items|e] eqn:E; [ | discriminate ].
  injection H as <-.
  destruct (proj1 (check_embedding_spec embedding) items E) as (-> & Hlen & Hfin).
  split; [ now exists rest | now split ].
Qed.

Lemma vector_in_some (items : list value) (v : vector) :
  vector_in items = Some v -> List.length v = 1536 /\ Forall finite_float v.
Proof.
  unfold vector_in. destruct (Nat.eqb_spec (List.length items) 1536) as [Hlen|]; [ | discriminate ].
  rewrite <- Hlen. clear Hlen. revert v.
  induction items as [|x items IH]; cbn; intros v H.
  - injection H as <-. split; [ reflexivity | constructor ].
  - destruct (as_float x) as [f|] eqn:Ef; [ | discriminate ].
    destruct (floats_of items) as [fs|]; [ | discriminate ].
    injection H as <-. destruct (IH fs eq_refl) as [Hl Hf].
    split; [ cbn; now rewrite Hl | ].
    constructor; [ | exact Hf ].
    destruct x as [| | b | y | s | l | fields]; try discriminate.
    unfold as_float in Ef.
    destruct (float4 y) as [s|s| |s m e]; try discriminate; injection Ef as <-;
      (split; [ discriminate | intros ?; discriminate ]).
Qed.

End EmbeddingGenerator.

(** ** Store statements: what they leave alone *)

Section StoreFrames.
Import LinkController.

Lemma existsb_eqb_In (x : uuid) (l : list uuid) :
  existsb (Nat.eqb x) l = true <-> In x l.
Proof.
  rewrite existsb_exists. split.
  - intros (y & Hy & E). apply Nat.eqb_eq in E. now subst.
  - intro H. exists x. split; [ exact H | apply Nat.eqb_refl ].
Qed.

Lemma link_exists_In (id : uuid) (s : store) :
  link_exists id s = true <-> In id (map link_id (links s)).
Proof.
  unfold link_exists. rewrite existsb_exists, in_map_iff. split.
  - intros (l & Hl & E). apply Nat.eqb_eq in E. now exists l.
  - intros (l & E & Hl). exists l. split; [ exact Hl | now apply Nat.eqb_eq ].
Qed.

Lemma tag_exists_In (id : uuid) (s : store) :
  tag_exists id s = true <-> In id (map tag_id (tags s)).
Proof.
  unfold tag_exists. rewrite existsb_exists, in_map_iff. split.
  - intros (t & Ht & E). apply Nat.eqb_eq in E. now exists t.
  - intros (t & E & Ht). exists t. split; [ exact Ht | now apply Nat.eqb_eq ].
Qed.

Lemma find_none_existsb {A : Type} (f : A -> bool) (l : list A) :
  find f l = None -> existsb f l = false.
Proof.
  induction l as [|x l IH]; cbn; [ reflexivity | ].
  destruct (f x); [ discriminate | exact IH ].
Qed.

(** The read and the write of an upsert run together. *)
Lemma upsert_tag_unfold (name : string) (s : store) :
  upsert_tag name s =
  match find (fun t => String.eqb (tag_name t) name) (tags s) with
  | Some t => (Resolved t, s)
  | None =>
      let t := {| tag_id := uuid_generate_v4 s; tag_name := name |} in
      (Resolved t, with_tags (tags s ++ [t]) s)
  end.
Proof.
  unfold upsert_tag, bind, select_tag, insert_tag, ret.
  destruct (find (fun t => String.eqb (tag_name t) name) (tags s)) as [t|] eqn:E;
    [ reflexivity | ].
  now rewrite (find_none_existsb _ _ E).
Qed.

(** [upsert_tag] never throws, returns a row of the table that carries the
    name, and can only append that row to [tags]. *)
Lemma upsert_tag_spec (name : string) (s : store) :
  exists t s', upsert_tag name s = (Resolved t, s') /\
    users s' = users s /\ links s' = links s /\ link_to_tag s' = link_to_tag s /\
    In t (tags s') /\ tag_name t = name /\
    ((In name (map tag_name (tags s)) /\ s' = s) \/
     (~ In name (map tag_name (tags s)) /\ tag_id t = uuid_generate_v4 s /\
      tags s' = tags s ++ [t])).
Proof.
  rewrite upsert_tag_unfold.
  destruct (find (fun t => String.eqb (tag_name t) name) (tags s)) as [t|] eqn:E.
  - apply find_some in E. destruct E as [Hin Hname]. apply String.eqb_eq in Hname.
    exists t, s. repeat split; try assumption.
    left. split; [ | reflexivity ]. apply in_map_iff. now exists t.
  - eexists. eexists. split; [ reflexivity | ]. cbn.
    repeat split; try reflexivity.
    + apply in_or_app. right. now left.
    + right. split; [ | split; reflexivity ].
      intro Hin. apply in_map_iff in Hin. destruct Hin as (t & Hn & Hin).
      pose proof (find_none _ _ E t Hin) as Hf. cbn in Hf.
      rewrite Hn, String.eqb_refl in Hf. discriminate.
Qed.

(** [insert_link_to_tag] writes to [link_to_tag] only, and succeeds when
    both rows it refers to exist. *)
Lemma insert_link_to_tag_frame (linkId tagId : uuid) (s : store) :
  let s' := snd (insert_link_to_tag linkId tagId s) in
  users s' = users s /\ links s' = links s /\ tags s' = tags s.
Proof.
  unfold insert_link_to_tag.
  destruct (existsb (fun p => (fst p =? linkId) && (snd p =? tagId)) (link_to_tag s));
    [ now cbn | ].
  destruct (link_exists linkId s && tag_exists tagId s); now cbn.
Qed.

Lemma insert_link_to_tag_ok (linkId tagId : uuid) (s : store) :
  link_exists linkId s = true -> tag_exists tagId s = true ->
  exists s', insert_link_to_tag linkId tagId s = (Resolved tt, s') /\
    In (linkId, tagId) (link_to_tag s') /\
    ((In (linkId, tagId) (link_to_tag s) /\ s' = s) \/
     (~ In (linkId, tagId) (link_to_tag s) /\
      s' = with_link_to_tag (link_to_tag s ++ [(linkId, tagId)]) s)).
Proof.
  intros Hl Ht. unfold insert_link_to_tag.
  destruct (existsb (fun p => (fst p =? linkId) && (snd p =? tagId)) (link_to_tag s)) eqn:E.
  - apply existsb_exists in E. destruct E as ([a b] & Hin & Hab). cbn in Hab.
    apply andb_true_iff in Hab. destruct Hab as [Ha Hb].
    apply Nat.eqb_eq in Ha. apply Nat.eqb_eq in Hb. subst.
    exists s. split; [ reflexivity | split; [ exact Hin | now left ] ].
  - rewrite Hl, Ht. cbn. eexists. split; [ reflexivity | ].
    split; [ apply in_or_app; right; now left | ].
    right. split; [ | reflexivity ].
    intro Hin. assert (F : existsb (fun p => (fst p =? linkId) && (snd p =? tagId))
                             (link_to_tag s) = true).
    { apply existsb_exists. exists (linkId, tagId). cbn.
      now rewrite !Nat.eqb_refl. }
    congruence.
Qed.

Lemma link_each_tag_cons (linkId : uuid) (name : string) (rest : list string) (s : store) :
  link_each_tag linkId (name :: rest) s =
  match upsert_tag name s with
  | (Resolved t, s1) =>
      match insert_link_to_tag linkId (tag_id t) s1 with
      | (Resolved _, s2) => link_each_tag linkId rest s2
      | (Rejected e, s2) => (Rejected e, s2)
      end
  | (Rejected e, s1) => (Rejected e, s1)
  end.
Proof. reflexivity. Qed.

(** The loop of [createTagsForLink] never writes to [users] or [links],
    whether it returns or throws. *)
Lemma link_each_tag_frame (linkId : uuid) (tagNames : list string) (s : store) :
  users (snd (link_each_tag linkId tagNames s)) = users s /\
  links (snd (link_each_tag linkId tagNames s)) = links s.
Proof.
  revert s. induction tagNames as [|name rest IH]; intro s.
  - now split.
  - rewrite link_each_tag_cons.
    destruct (upsert_tag_spec name s) as (t & s1 & -> & Hu & Hl & _).
    pose proof (insert_link_to_tag_frame linkId (tag_id t) s1) as Hf. cbn in Hf.
    destruct (insert_link_to_tag linkId (tag_id t) s1) as [[u|e] s2]; cbn in Hf.
    + destruct (IH s2) as [IHu IHl]. destruct Hf as (Hu2 & Hl2 & _).
      split; congruence.
    + cbn. destruct Hf as (Hu2 & Hl2 & _). split; congruence.
Qed.

Lemma createTagsForLink_frame (linkId : uuid) (tagNames : list string) (s : store) :
  users (snd (createTagsForLink linkId tagNames s)) = users s /\
  links (snd (createTagsForLink linkId tagNames s)) = links s.
Proof.
  pose proof (link_each_tag_frame linkId tagNames s) as H.
  unfold createTagsForLink. now destruct (link_each_tag linkId tagNames s) as [[u|e] s'].
Qed.

(** With the link in the table the loop runs to its end without throwing. *)
Lemma link_each_tag_returns (linkId : uuid) (tagNames : list string) (s : store) :
  link_exists linkId s = true ->
  exists s', link_each_tag linkId tagNames s = (Resolved tt, s').
Proof.
  revert s. induction tagNames as [|name rest IH]; intros s Hl.
  - now exists s.
  - rewrite link_each_tag_cons.
    destruct (upsert_tag_spec name s) as (t & s1 & -> & Hu & Hls & _ & Hin & _).
    assert (Hl1 : link_exists linkId s1 = true)
      by (unfold link_exists in *; now rewrite Hls).
    assert (Ht1 : tag_exists (tag_id t) s1 = true)
      by (apply tag_exists_In; now apply in_map).
    destruct (insert_link_to_tag_ok linkId (tag_id t) s1 Hl1 Ht1) as (s2 & -> & _ & Hs2).
    apply IH. destruct Hs2 as [[_ ->]|[_ ->]]; [ exact Hl1 | exact Hl1 ].
Qed.

Lemma createTagsForLink_returns (linkId : uuid) (tagNames : list string) (s : store) :
  link_exists linkId s = true ->
  exists s', createTagsForLink linkId tagNames s = (Resolved tt, s').
Proof.
  intro Hl. destruct (link_each_tag_returns linkId tagNames s Hl) as (s' & E).
  exists s'. unfold createTagsForLink. now rewrite E.
Qed.

End StoreFrames.

(** ** Ingestion *)

Section Ingestion.
Import OpenAiUtils LinkController.

Lemma newest_In (candidates : list link) (l : link) :
  newest candidates = Some l -> In l candidates.
Proof.
  revert l. induction candidates as [|c rest IH]; cbn; intros l H; [ discriminate | ].
  destruct (newest rest) as [m|].
  - destruct (link_created_at c <? link_created_at m)%Z; injection H as <-.
    + right. now apply IH.
    + now left.
  - injection H as <-. now left.
Qed.

Lemma newest_nonempty (candidates : list link) :
  candidates <> [] -> exists l, newest candidates = Some l.
Proof.
  destruct candidates as [|c rest]; [ now intros [] | intros _; cbn ].
  destruct (newest rest) as [m|]; [ | now exists c ].
  destruct (link_created_at c <? link_created_at m)%Z; eauto.
Qed.

(** Every run of [createLink] either leaves the store as it was and
    answers with an error status, or answers 201 after appending exactly
    one row to [links], the one built from a validated embedding. *)
Lemma createLink_cases (w : world) (req : request) (s : store) :
  (snd (createLink w req s) = s /\ status (fst (createLink w req s)) <> 201 /\
   forall user url v,
     req_user req = Some user -> validate_createLink w (req_body req) = Some url ->
     generateEmbedding w (UrlUtils.extractUrlContent w url) = Resolved v ->
     vector_in v = None \/ user_exists (user_id user) s = false) \/
  (exists user url v vec,
     req_user req = Some user /\ validate_createLink w (req_body req) = Some url /\
     generateEmbedding w (UrlUtils.extractUrlContent w url) = Resolved v /\
     vector_in v = Some vec /\ user_exists (user_id user) s = true /\
     status (fst (createLink w req s)) = 201 /\
     users (snd (createLink w req s)) = users s /\
     links (snd (createLink w req s)) =
       links s ++ [ingested_row w url (user_id user) vec s]).
Proof.
  unfold createLink.
  destruct (req_user req) as [user|]; [ | left; repeat split; discriminate ].
  destruct (validate_createLink w (req_body req)) as [url|];
    [ | left; repeat split; discriminate ].
  destruct (generateEmbedding w (UrlUtils.extractUrlContent w url)) as [v|e] eqn:Eg.
  2:{ left. repeat split; try discriminate.
      intros user' url' v' _ Hv Hg. injection Hv as <-. congruence. }
  destruct (generateEmbedding_resolved _ _ _ Eg) as (_ & Hlen & Hfin).
  rewrite Hlen. cbn [Nat.eqb negb].
  change (negb (1536 =? 1536)) with false. cbv iota.
  unfold insert_link.
  destruct (vector_in v) as [vec|] eqn:Ev.
  2:{ left. repeat split; try discriminate.
      intros user' url' v' _ Hv Hg. injection Hv as <-. left. congruence. }
  destruct (user_exists (user_id user) s) eqn:Eu.
  2:{ left. repeat split; try discriminate.
      intros user' url' v' Hu Hv Hg. injection Hu as <-. now right. }
  right. exists user, url, v, vec.
  repeat (split; [ first [ reflexivity | assumption ] | ]).
  set (row := {| link_id := uuid_generate_v4 s; link_url := url |}).
  set (s1 := with_links (links s ++ [row]) s).
  unfold findFirst.
  assert (Hne : filter (fun l => String.eqb (link_url l) url && (link_user_id l =? user_id user))
                  (links s1) <> []).
  { cbn. rewrite filter_app. cbn. rewrite String.eqb_refl, Nat.eqb_refl. cbn.
    intro H. apply app_eq_nil in H. destruct H as [_ H]. discriminate. }
  destruct (newest_nonempty _ Hne) as (newLink & En). rewrite En.
  apply newest_In in En. apply filter_In in En. destruct En as [Hin _].
  assert (Hex : link_exists (link_id newLink) s1 = true)
    by (apply link_exists_In; now apply in_map).
  destruct (createTagsForLink_returns (link_id newLink) (generateTags w (UrlUtils.extractUrlContent w url)) s1 Hex)
    as (s3 & E3).
  pose proof (createTagsForLink_frame (link_id newLink)
                (generateTags w (UrlUtils.extractUrlContent w url)) s1) as Hf.
  rewrite E3 in Hf |- *. cbn in Hf |- *. destruct Hf as [Hu Hl].
  repeat split; [ exact Hu | exact Hl ].
Qed.

End Ingestion.

Section EmbeddingClaims.
Import OpenAiUtils LinkController.

Lemma service_failure_rejects (w : world) (text : string) :
  embedding_service_fails w text -> exists e, generateEmbedding w text = Rejected e.
Proof.
  intro Hfail. destruct (generateEmbedding w text) as [v|e] eqn:E; [ | now exists e ].
  destruct (generateEmbedding_resolved _ _ _ E) as ((rest & Hr) & Hlen & Hfin).
  elim (Hfail _ _ Hr). now exists v.
Qed.

(** C2.  Every vector [generateEmbedding] returns has length exactly 1536
    and only finite numbers as components, and it is the provider's
    vector; when the provider call errors, answers no vector, or answers
    one that is not an array of 1536 finite numbers, [generateEmbedding]
    throws instead of returning; an answer of 1536 finite numbers is
    returned as it is.  Hence the embedding stored with every Record that
    [createLink] reports as created (status 201) has dimension 1536 and
    finite components. *)
Theorem generateEmbedding_vector_valid (w : world) (text : string) :
  (forall v, generateEmbedding w text = Resolved v ->
     List.length v = 1536 /\ Forall finite_number v) /\
  (embedding_service_fails w text -> exists e, generateEmbedding w text = Rejected e) /\
  (forall items rest,
     embeddings_create w (truncateText text) = Resolved (Arr items :: rest) ->
     List.length items = 1536 -> Forall finite_number items ->
     generateEmbedding w text = Resolved items) /\
  (forall req s, status (fst (createLink w req s)) = 201 ->
     exists l vec,
       links (snd (createLink w req s)) = links s ++ [l] /\
       link_embedding l = Some vec /\
       List.length vec = 1536 /\ Forall finite_float vec).
Proof.
  split; [ | split; [ | split ] ].
  - intros v H. now destruct (generateEmbedding_resolved _ _ _ H) as (_ & Hlen & Hfin).
  - apply service_failure_rejects.
  - intros items rest Hr Hlen Hfin. unfold generateEmbedding. rewrite Hr.
    destruct (proj1 (proj2 (check_embedding_spec (Arr items)))) as (items' & E).
    { now exists items. }
    rewrite E.
    destruct (proj1 (check_embedding_spec (Arr items)) items' E) as (Heq & _).
    now injection Heq as <-.
  - intros req s H201.
    destruct (createLink_cases w req s) as [(_ & Hne & _)|
      (user & url & v & vec & _ & _ & _ & Hvec & _ & _ & _ & Hlinks)].
    + now elim Hne.
    + exists (ingested_row w url (user_id user) vec s), vec.
      destruct (vector_in_some _ _ Hvec) as [Hlen Hfin].
      repeat split; assumption.
Qed.


End EmbeddingClaims.



(** ** The answer generator and the chat endpoint *)

Section Chat.
Import OpenAiUtils ChatController.

Lemma content_or_nonempty (content : option string) (fallback : string) :
  fallback <> "" -> content_or content fallback <> "".
Proof.
  intro H. destruct content as [text|]; cbn; [ now apply or_else_nonempty | exact H ].
Qed.

Lemma generateChatResponse_nonempty (w : world) (query : string)
  (relevantLinks : list context_link) :
  generateChatResponse w query relevantLinks <> "".
Proof.
  unfold generateChatResponse.
  destruct (chat_completions_create w (chat_request_for query relevantLinks))
    as [[|choice rest]|e]; cbn; try discriminate.
  apply content_or_nonempty. discriminate.
Qed.

(** C8.  [generateChatResponse] always returns a non-empty string and
    never throws: when the generation call errors (or answers no choice)
    it returns the fixed apology, and an empty or null answer is replaced
    by a fixed sentence.  When the vector search returns no row for an
    authenticated, valid chat query whose embedding was generated, the
    chat endpoint answers 200 with that non-empty answer, computed from
    an empty context, and an empty list of ranked records. *)
Theorem chat_without_matches_still_answers (w : world) :
  (forall query relevantLinks, generateChatResponse w query relevantLinks <> "") /\
  (forall query relevantLinks e,
     chat_completions_create w (chat_request_for query relevantLinks) = Rejected e ->
     generateChatResponse w query relevantLinks =
       "Sorry, I encountered an error while generating a response. Please try again later.") /\
  (forall req s user query queryEmbedding,
     req_user req = Some user ->
     validate_chatQuery (req_body req) = Some query ->
     generateEmbedding w ("This is about: " +++ query) = Resolved queryEmbedding ->
     rpc_match_links w queryEmbedding chat_match_threshold chat_match_count
       (user_id user) s = Resolved [] ->
     chatWithLinks w req s =
       reply 200 (ChatPayload (generateChatResponse w query []) []) /\
     generateChatResponse w query [] <> "").
Proof.
  split; [ | split ].
  - apply generateChatResponse_nonempty.
  - intros query relevantLinks e H. unfold generateChatResponse. now rewrite H.
  - intros req s user query qe Hu Hq Hg Hr. split.
    + unfold chatWithLinks. now rewrite Hu, Hq, Hg, Hr.
    + apply generateChatResponse_nonempty.
Qed.

End Chat.

(** ** The tag classifier *)

Section TagClassifier.
Import OpenAiUtils.

Lemma In_firstn {A : Type} (n : nat) (l : list A) (x : A) :
  In x (firstn n l) -> In x l.
Proof.
  intro H. rewrite <- (firstn_skipn n l). apply in_or_app. now left.
Qed.

Lemma correctCase_available (tag : string) :
  is_available tag = true -> In (correctCase tag) AVAILABLE_TAGS.
Proof.
  unfold is_available, correctCase. intro H.
  destruct (find (same_tag tag) AVAILABLE_TAGS) as [validTag|] eqn:E.
  - apply find_some in E. destruct E as [Hin _].
    assert (Hne : validTag <> "").
    { intro Hempty. subst. cbn in Hin.
      repeat (destruct Hin as [Hin|Hin]; [ discriminate Hin | ]). exact Hin. }
    now rewrite (or_else_left _ _ Hne).
  - apply existsb_exists in H. destruct H as (validTag & Hin & Hs).
    pose proof (find_none _ _ E validTag Hin). congruence.
Qed.

Lemma validTags_within_vocabulary (parsedTags : value) (tags : list string) :
  validTags parsedTags = Resolved tags ->
  incl tags AVAILABLE_TAGS /\ List.length tags <= 5.
Proof.
  unfold validTags. intro H.
  destruct parsedTags as [| | b | x | str | items | fields]; try discriminate.
  destruct (as_strings items) as [strings|]; [ | discriminate ].
  injection H as <-. split.
  - intros tag Hin.
    apply (In_firstn 5 (map correctCase (filter is_available strings))) in Hin.
    apply in_map_iff in Hin.
    destruct Hin as (raw & <- & Hraw). apply filter_In in Hraw.
    apply correctCase_available. tauto.
  - apply (firstn_le_length 5 (map correctCase (filter is_available strings))).
Qed.

(** Whatever the generation call and [JSON.parse] answer, [generateTags]
    returns between one and five names of the vocabulary. *)
Lemma generateTags_within_vocabulary (w : world) (content : string) :
  incl (generateTags w content) AVAILABLE_TAGS /\
  1 <= List.length (generateTags w content) <= 5.
Proof.
  assert (Hd : incl default_tags AVAILABLE_TAGS /\ 1 <= List.length default_tags <= 5).
  { split; [ | cbn; lia ].
    intros tag [<-|[<-|[]]]; cbn; tauto. }
  unfold generateTags.
  destruct (chat_completions_create w (tags_request content)) as [choices|e];
    [ | exact Hd ].
  destruct (first_content choices) as [message|e]; [ | exact Hd ].
  destruct (validTags (parse_tags w (content_or message "[]"))) as [tags|e] eqn:E;
    [ | exact Hd ].
  destruct tags as [|tag tags]; [ exact Hd | ].
  destruct (validTags_within_vocabulary _ _ E) as [Hi Hl].
  split; [ exact Hi | cbn in *; lia ].
Qed.

(** The default pair stands in when the generation call errors, when
    using its answer throws, and when no valid tag survives the filter. *)
Lemma generateTags_default (w : world) (content : string) :
  (forall e, chat_completions_create w (tags_request content) = Rejected e ->
     generateTags w content = ["Article"; "Blog"]) /\
  (forall choices,
     chat_completions_create w (tags_request content) = Resolved choices ->
     match first_content choices with
     | Rejected _ => generateTags w content = ["Article"; "Blog"]
     | Resolved message =>
         match validTags (parse_tags w (content_or message "[]")) with
         | Resolved [] => generateTags w content = ["Article"; "Blog"]
         | Resolved tags => generateTags w content = tags
         | Rejected _ => generateTags w content = ["Article"; "Blog"]
         end
     end).
Proof.
  unfold generateTags. split.
  - intros e ->. reflexivity.
  - intros choices ->. destruct (first_content choices) as [message|e]; [ | reflexivity ].
    destruct (validTags (parse_tags w (content_or message "[]"))) as [[|tag tags]|e];
      reflexivity.
Qed.

End TagClassifier.

(** ** The retrieval ranker *)

Section Ranker.

Variable w : world.
Variable query_embedding : vector.
Variable match_threshold : spec_float.
Variable user : uuid.

Let selected := select_where w query_embedding match_threshold user.

(** What a link contributes to the result, read backwards. *)
Lemma matching_some (l : link) (r : match_row) :
  matching w query_embedding match_threshold user l = Some r ->
  link_user_id l = user /\
  exists embedding,
    link_embedding l = Some embedding /\
    m_id r = link_id l /\
    m_similarity r = similarity w embedding query_embedding /\
    Float8.gt (m_similarity r) match_threshold = true.
Proof.
  unfold matching. intro H.
  destruct (Nat.eqb_spec (link_user_id l) user) as [Hu|]; [ | discriminate ].
  destruct (link_embedding l) as [embedding|]; [ | discriminate ].
  destruct (Float8.gt (similarity w embedding query_embedding) match_threshold) eqn:Hgt;
    [ | discriminate ].
  injection H as <-. split; [ exact Hu | ].
  exists embedding. cbn. repeat split. exact Hgt.
Qed.

Lemma select_where_In (rows : list link) (r : match_row) :
  In r (selected rows) <->
  exists l, In l rows /\ matching w query_embedding match_threshold user l = Some r.
Proof.
  unfold selected. induction rows as [|l rows IH]; cbn.
  - split; [ intros [] | intros (l & [] & _) ].
  - destruct (matching w query_embedding match_threshold user l) as [r'|] eqn:E; cbn.
    + rewrite IH. split.
      * intros [<-|(l' & Hin & Hm)]; [ exists l; auto | exists l'; auto ].
      * intros (l' & [<-|Hin] & Hm); [ left; congruence | right; exists l'; auto ].
    + rewrite IH. split.
      * intros (l' & Hin & Hm). exists l'; auto.
      * intros (l' & [<-|Hin] & Hm); [ congruence | exists l'; auto ].
Qed.

Lemma select_where_length (rows : list link) :
  List.length (selected rows) <=
  List.length (filter (fun l => link_user_id l =? user) rows).
Proof.
  unfold selected. induction rows as [|l rows IH]; cbn; [ lia | ].
  destruct (matching w query_embedding match_threshold user l) as [r|] eqn:E.
  - apply matching_some in E. destruct E as [Hu _].
    apply Nat.eqb_eq in Hu. rewrite Hu. cbn. lia.
  - destruct (link_user_id l =? user); cbn; lia.
Qed.

Lemma insert_desc_perm (r : match_row) (sorted : list match_row) :
  Permutation (r :: sorted) (insert_desc r sorted).
Proof.
  induction sorted as [|r' rest IH]; cbn; [ reflexivity | ].
  destruct (Float8.lt (m_similarity r) (m_similarity r')); [ | reflexivity ].
  rewrite perm_swap. now apply perm_skip.
Qed.

Lemma order_by_perm (rows : list match_row) :
  Permutation rows (order_by_similarity_desc rows).
Proof.
  induction rows as [|r rows IH]; cbn; [ reflexivity | ].
  rewrite <- insert_desc_perm. now apply perm_skip.
Qed.

Lemma insert_desc_sorted (r : match_row) (sorted : list match_row) :
  non_increasing sorted -> non_increasing (insert_desc r sorted).
Proof.
  unfold non_increasing. induction 1 as [|r' rest Hs IH Hall]; cbn.
  - repeat constructor.
  - destruct (Float8.lt (m_similarity r) (m_similarity r')) eqn:E.
    + constructor; [ exact IH | ].
      apply (Permutation_Forall (insert_desc_perm r rest)).
      constructor; [ | exact Hall ].
      unfold Float8.ge. now rewrite (lt_asym _ _ E).
    + constructor; [ now constructor | ].
      assert (Hge : Float8.ge (m_similarity r) (m_similarity r') = true)
        by (unfold Float8.ge; now rewrite E).
      constructor; [ exact Hge | ].
      apply (Forall_impl _ (fun b Hb => ge_trans _ _ _ Hge Hb) Hall).
Qed.

Lemma order_by_sorted (rows : list match_row) :
  non_increasing (order_by_similarity_desc rows).
Proof.
  induction rows as [|r rows IH]; cbn; [ constructor | now apply insert_desc_sorted ].
Qed.

Lemma firstn_sorted (n : nat) (rows : list match_row) :
  non_increasing rows -> non_increasing (firstn n rows).
Proof.
  unfold non_increasing. intro H. revert n.
  induction H as [|r rest Hs IH Hall]; intros [|n]; cbn; try constructor.
  - apply IH.
  - rewrite Forall_forall in *. intros x Hx. apply Hall. now apply In_firstn in Hx.
Qed.

End Ranker.

Section RankerClaims.

Lemma nan_or_number (x : spec_float) : x = S754_nan \/ x <> S754_nan.
Proof.
  destruct x; [ right | right | left | right ]; try discriminate; reflexivity.
Qed.

(** The rows of undefined similarity come first in the store's order. *)
Lemma non_increasing_split (rows : list match_row) :
  non_increasing rows ->
  exists undefined numbers,
    rows = undefined ++ numbers /\
    Forall (fun r => m_similarity r = S754_nan) undefined /\
    numbers_non_increasing numbers.
Proof.
  unfold non_increasing, numbers_non_increasing.
  induction 1 as [|r rows Hs IH Hall].
  - exists [], []. repeat split; constructor.
  - destruct IH as (undefined & numbers & -> & Hu & Hn & Hsorted).
    destruct (nan_or_number (m_similarity r)) as [Er|Hr].
    + exists (r :: undefined), numbers.
      split; [ reflexivity | split; [ now constructor | now split ] ].
    + assert (Hnum : forall b, In b (undefined ++ numbers) -> m_similarity b <> S754_nan).
      { intros b Hb Eb. pose proof (proj1 (Forall_forall _ _) Hall b Hb) as Hge.
        cbv beta in Hge. rewrite Eb in Hge. rewrite (ge_nan_right _ Hr) in Hge.
        discriminate. }
      assert (undefined = []).
      { destruct undefined as [|u undefined]; [ reflexivity | ].
        apply Forall_inv in Hu. elim (Hnum u (or_introl eq_refl)). exact Hu. }
      subst undefined. cbn [app] in *.
      exists [], (r :: numbers).
      split; [ reflexivity | split; [ constructor | split ] ].
      * now constructor.
      * constructor; [ exact Hsorted | ].
        apply Forall_forall. intros b Hb. apply ge_numeric.
        -- exact Hr.
        -- now apply Hnum.
        -- exact (proj1 (Forall_forall _ _) Hall b Hb).
Qed.

(** C3 (amended).  For every owner, query embedding, result count K and
    floor tau, [match_links] either returns a list of rows or, exactly
    when K is negative, fails.  The rows it returns are in the store's
    descending order of [float8], in which NaN stands above every number:
    first the rows whose similarity is NaN (an embedding or a query that
    is the zero vector), then the rows whose similarity is a number, in
    non-increasing numeric order.  Each similarity is greater than tau in
    that order: NaN, or a number strictly greater than tau.  There are at
    most K rows, and each row is a Record of that owner whose embedding
    is not null, its similarity being the one of that embedding to the
    query. *)
Theorem match_links_ranked (w : world) (query_embedding : vector)
  (match_threshold : spec_float) (match_count : Z) (user : uuid) (s : store) :
  match match_links w query_embedding match_threshold match_count user s with
  | Resolved rows =>
      (0 <= match_count)%Z /\
      non_increasing rows /\
      (exists undefined numbers,
         rows = undefined ++ numbers /\
         Forall (fun r => m_similarity r = S754_nan) undefined /\
         numbers_non_increasing numbers /\
         Forall (fun r => SFltb match_threshold (m_similarity r) = true) numbers) /\
      Forall (fun r => above match_threshold (m_similarity r)) rows /\
      (Z.of_nat (List.length rows) <= match_count)%Z /\
      Forall (fun r => exists l embedding,
                In l (links s) /\ link_id l = m_id r /\ link_user_id l = user /\
                link_embedding l = Some embedding /\
                m_similarity r = similarity w embedding query_embedding) rows
  | Rejected _ => (match_count < 0)%Z
  end.
Proof.
  unfold match_links. destruct (Z.ltb_spec match_count 0) as [Hneg|Hpos]; [ exact Hneg | ].
  set (selected := select_where w query_embedding match_threshold user (links s)).
  set (rows := firstn (Z.to_nat match_count) (order_by_similarity_desc selected)).
  assert (Hsel : forall r, In r rows ->
            exists l, In l (links s) /\
                      matching w query_embedding match_threshold user l = Some r).
  { intros r Hin. apply In_firstn in Hin.
    apply (Permutation_in _ (Permutation_sym (order_by_perm selected))) in Hin.
    now apply select_where_In in Hin. }
  assert (Hsorted : non_increasing rows) by apply firstn_sorted, order_by_sorted.
  assert (Habove : Forall (fun r => above match_threshold (m_similarity r)) rows).
  { apply Forall_forall. intros r Hin. destruct (Hsel r Hin) as (l & _ & Hm).
    apply matching_some in Hm. destruct Hm as (_ & e & _ & _ & _ & Hgt).
    now apply gt_above. }
  split; [ exact Hpos | split; [ exact Hsorted | split; [ | split; [ exact Habove | split ] ] ] ].
  - destruct (non_increasing_split rows Hsorted) as (undefined & numbers & E & Hu & Hn).
    exists undefined, numbers. split; [ exact E | split; [ exact Hu | split; [ exact Hn | ] ] ].
    apply Forall_forall. intros r Hr.
    assert (Hin : In r rows) by (rewrite E; apply in_or_app; now right).
    destruct (proj1 (Forall_forall _ _) Habove r Hin) as [[Hnan _]|Hlt]; [ | exact Hlt ].
    destruct Hn as [Hnum _]. now elim (proj1 (Forall_forall _ _) Hnum r Hr).
  - pose proof (firstn_le_length (Z.to_nat match_count) (order_by_similarity_desc selected)).
    unfold rows. lia.
  - apply Forall_forall. intros r Hin. destruct (Hsel r Hin) as (l & Hl & Hm).
    apply matching_some in Hm. destruct Hm as (Hu & e & He & Hid & Hsim & _).
    exists l, e. repeat split; auto.
Qed.

(** C3 as the specification states it fails on the code: a Record saved
    with the zero vector as its embedding has no cosine similarity to any
    query (NaN); with the floor 0 [match_links] returns it, and first,
    before a Record of similarity 1.  Its similarity is not at least 0,
    and the list is not in non-increasing numeric order. *)
Lemma undefined_similarity_ranked_first :
  exists r1 r2,
    match_links Sample.online (Sample.axis 0) Float8.zero 5 1 Cases.with_zero_vector
      = Resolved [r1; r2] /\
    m_id r1 = 2 /\ m_similarity r1 = S754_nan /\ m_similarity r2 = Float8.one /\
    SFleb Float8.zero (m_similarity r1) = false /\
    SFleb (m_similarity r2) (m_similarity r1) = false.
Proof.
  eexists. eexists. split; [ vm_compute; reflexivity | ].
  repeat split; vm_compute; reflexivity.
Qed.

(** The ranked records of a chat answer are the rows [match_links] returns
    for the authenticated user with K = 5 and floor 0, in that order. *)
Lemma chatWithLinks_serves_match_links (w : world) (req : request) (s : store)
  (answer : string) (ranked : list FormattedLink) :
  ChatController.chatWithLinks w req s = reply 200 (ChatPayload answer ranked) ->
  exists user query_embedding rows,
    req_user req = Some user /\
    match_links w query_embedding Float8.zero 5 (user_id user) s = Resolved rows /\
    ranked = map (ChatController.format_link w) rows /\
    List.length ranked <= 5.
Proof.
  unfold ChatController.chatWithLinks. intro H.
  destruct (req_user req) as [user|]; [ | discriminate ].
  destruct (ChatController.validate_chatQuery (req_body req)) as [query|]; [ | discriminate ].
  destruct (OpenAiUtils.generateEmbedding w ("This is about: " +++ query)) as [qe|e];
    [ | discriminate ].
  unfold ChatController.rpc_match_links in H.
  destruct (vector_in qe) as [q|]; [ | discriminate ].
  destruct (match_links w q ChatController.chat_match_threshold
              ChatController.chat_match_count (user_id user) s) as [rows|e] eqn:E;
    [ | discriminate ].
  assert (Hlen : List.length rows <= 5).
  { unfold match_links in E. cbn in E. injection E as <-.
    apply (firstn_le_length 5). }
  exists user, q, rows. split; [ reflexivity | split; [ exact E | ] ].
  destruct rows as [|r rows]; injection H as _ <-.
  - split; [ reflexivity | cbn; lia ].
  - split; [ reflexivity | ].
    cbn [List.length] in *. rewrite length_map. exact Hlen.
Qed.

Lemma select_where_ignores_createdAt (w : world) (q : vector) (t : spec_float)
  (user : uuid) (f : link -> Z) (rows : list link) :
  select_where w q t user (map (set_created_at f) rows) = select_where w q t user rows.
Proof.
  induction rows as [|l rows IH]; cbn; [ reflexivity | ].
  change (matching w q t user (set_created_at f l)) with (matching w q t user l).
  now rewrite IH.
Qed.

(** C4, as the code has it.  [match_links] orders by similarity alone:
    whatever the [createdAt] of the Records, the rows returned and their
    order are the same, so [createdAt] breaks no tie. *)
Theorem match_links_ignores_createdAt (w : world) (query_embedding : vector)
  (match_threshold : spec_float) (match_count : Z) (user : uuid) (s : store)
  (f : link -> Z) :
  match_links w query_embedding match_threshold match_count user
    (with_links (map (set_created_at f) (links s)) s) =
  match_links w query_embedding match_threshold match_count user s.
Proof.
  unfold match_links. cbn [links with_links].
  now rewrite select_where_ignores_createdAt.
Qed.

(** C4 fails on the code: the same URL saved at time 10 and again at time
    20 gives two Records (ids 2 and 5) with the same embedding, hence the
    same similarity to any query; [match_links] returns the older one
    first. *)
Lemma ties_not_broken_by_recency :
  map (fun l => (link_id l, link_created_at l)) (links Sample.saved_twice) = [(2, 10%Z); (5, 20%Z)] /\
  (exists r1 r2,
     match_links Sample.online (Sample.axis 0) Float8.zero 5 1 Sample.saved_twice
       = Resolved [r1; r2] /\
     m_id r1 = 2 /\ m_id r2 = 5 /\ m_similarity r1 = m_similarity r2) /\
  ~ (forall rows,
       match_links Sample.online (Sample.axis 0) Float8.zero 5 1 Sample.saved_twice = Resolved rows ->
       ties_most_recent_first Sample.saved_twice rows).
Proof.
  assert (E : exists r1 r2,
     match_links Sample.online (Sample.axis 0) Float8.zero 5 1 Sample.saved_twice
       = Resolved [r1; r2] /\
     m_id r1 = 2 /\ m_id r2 = 5 /\ m_similarity r1 = m_similarity r2).
  { eexists. eexists. split; [ vm_compute; reflexivity | ]. now vm_compute. }
  split; [ now vm_compute | split; [ exact E | ] ].
  intro H. destruct E as (r1 & r2 & Hm & H1 & H2 & Hs).
  specialize (H _ Hm [] r1 [] r2 [] eq_refl Hs).
  rewrite H1, H2 in H. vm_compute in H. now apply H.
Qed.

(** C5, as the code has it.  When the owner has fewer than K Records,
    [match_links] does not fail and cuts nothing off: it returns, in some
    order, exactly the rows of the owner's Records that have an embedding
    and a similarity greater than the floor (0 for the chat endpoint) as
    the store compares [float8] values, one row for each such Record.
    Greater means a number numerically greater than the floor, or NaN
    (the similarity of a zero vector), which the store puts above every
    number.  A Record without an embedding, or whose similarity is a
    number not greater than the floor, has no row. *)
Theorem match_links_returns_every_match (w : world) (query_embedding : vector)
  (match_threshold : spec_float) (match_count : Z) (user : uuid) (s : store) :
  (Z.of_nat (List.length (owned_by user s)) < match_count)%Z ->
  exists rows,
    match_links w query_embedding match_threshold match_count user s = Resolved rows /\
    Permutation rows (select_where w query_embedding match_threshold user (links s)) /\
    (forall l embedding,
       In l (links s) -> link_user_id l = user -> link_embedding l = Some embedding ->
       above match_threshold (similarity w embedding query_embedding) ->
       exists r, In r rows /\ m_id r = link_id l /\
                 m_similarity r = similarity w embedding query_embedding) /\
    (forall r, In r rows ->
       exists l embedding,
         In l (links s) /\ link_user_id l = user /\ link_embedding l = Some embedding /\
         m_id r = link_id l /\
         m_similarity r = similarity w embedding query_embedding /\
         above match_threshold (similarity w embedding query_embedding)) /\
    (forall l, link_embedding l = None ->
       matching w query_embedding match_threshold user l = None) /\
    (forall l embedding,
       In l (links s) -> link_embedding l = Some embedding ->
       similarity w embedding query_embedding <> S754_nan ->
       SFltb match_threshold (similarity w embedding query_embedding) = false ->
       matching w query_embedding match_threshold user l = None).
Proof.
  intro Hfew. unfold match_links.
  destruct (Z.ltb_spec match_count 0) as [Hneg|Hpos]; [ lia | ].
  set (selected := select_where w query_embedding match_threshold user (links s)).
  assert (Hall : firstn (Z.to_nat match_count) (order_by_similarity_desc selected)
                 = order_by_similarity_desc selected).
  { apply firstn_all2.
    rewrite <- (Permutation_length (order_by_perm selected)).
    pose proof (select_where_length w query_embedding match_threshold user (links s)).
    unfold owned_by in Hfew. fold selected in H. lia. }
  rewrite Hall. eexists. split; [ reflexivity | split; [ | split; [ | split; [ | split ] ] ] ].
  - apply Permutation_sym, order_by_perm.
  - intros l e Hl Hu He Hgt. apply gt_above in Hgt.
    set (row := {| m_id := link_id l; m_url := link_url l; m_title := link_title l;
                   m_image := link_image l; m_domain := link_domain l;
                   m_summary := link_summary l;
                   m_similarity := similarity w e query_embedding |}).
    assert (Hm : matching w query_embedding match_threshold user l = Some row).
    { unfold matching. rewrite Hu, Nat.eqb_refl, He, Hgt. reflexivity. }
    exists row. split; [ | split; reflexivity ].
    apply (Permutation_in _ (order_by_perm selected)).
    apply select_where_In. exists l. split; [ exact Hl | exact Hm ].
  - intros r Hr.
    apply (Permutation_in _ (Permutation_sym (order_by_perm selected))) in Hr.
    apply select_where_In in Hr. destruct Hr as (l & Hl & Hm).
    destruct (matching_some _ _ _ _ _ _ Hm) as (Hu & e & He & Hid & Hsim & Hgt).
    exists l, e. rewrite <- Hsim.
    repeat (split; [ first [ assumption | reflexivity ] | ]). now apply gt_above.
  - intros l Hnone. unfold matching. rewrite Hnone.
    now destruct (link_user_id l =? user).
  - intros l e Hl He Hnum Hlow. unfold matching. rewrite He.
    destruct (link_user_id l =? user); [ | reflexivity ].
    destruct (Float8.gt (similarity w e query_embedding) match_threshold) eqn:Hgt;
      [ | reflexivity ].
    apply gt_above in Hgt. destruct Hgt as [[Hnan _]|Hlt]; [ contradiction | congruence ].
Qed.

(** The two Records of one URL are both returned for K = 5. *)
Lemma match_links_returns_every_match_sample :
  exists rows,
    match_links Sample.online (Sample.axis 0) Float8.zero 5 1 Sample.saved_twice = Resolved rows /\
    List.length rows = 2.
Proof.
  destruct (match_links_returns_every_match Sample.online (Sample.axis 0) Float8.zero 5 1
              Sample.saved_twice) as (rows & Hm & Hp & _).
  - vm_compute. reflexivity.
  - exists rows. split; [ exact Hm | ].
    rewrite (Permutation_length Hp). vm_compute. reflexivity.
Defined.

(** C5 fails on the code: user 1 has two Records, fewer than K = 5, one
    without an embedding and one orthogonal to the query (similarity 0,
    which is not greater than the floor 0); with the floor 0 [match_links]
    returns neither. *)
Lemma fewer_than_K_not_all_returned :
  List.length (owned_by 1 Sample.sparse_store) = 2 /\
  match_links Sample.online (Sample.axis 0) Float8.zero 5 1 Sample.sparse_store = Resolved [].
Proof.
  split; vm_compute; reflexivity.
Qed.

End RankerClaims.

(** ** Link update: what it leaves alone *)

Section UpdateFrame.
Import LinkController.

Lemma filter_idem {A : Type} (f : A -> bool) (l : list A) :
  filter f (filter f l) = filter f l.
Proof.
  induction l as [|a l IH]; [ reflexivity | ].
  cbn [filter]. destruct (f a) eqn:E; [ | exact IH ].
  cbn [filter]. now rewrite E, IH.
Qed.

Lemma insert_link_to_tag_others (linkId tagId : uuid) (s : store) :
  tag_links_of_others linkId (snd (insert_link_to_tag linkId tagId s)) =
  tag_links_of_others linkId s.
Proof.
  unfold insert_link_to_tag, tag_links_of_others.
  destruct (existsb (fun p => (fst p =? linkId) && (snd p =? tagId)) (link_to_tag s));
    [ reflexivity | ].
  destruct (link_exists linkId s && tag_exists tagId s); [ | reflexivity ].
  cbn. rewrite filter_app. cbn. rewrite Nat.eqb_refl. cbn. apply app_nil_r.
Qed.

Lemma link_each_tag_others (linkId : uuid) (tagNames : list string) (s : store) :
  tag_links_of_others linkId (snd (link_each_tag linkId tagNames s)) =
  tag_links_of_others linkId s.
Proof.
  revert s. induction tagNames as [|name rest IH]; intro s; [ reflexivity | ].
  rewrite link_each_tag_cons.
  destruct (upsert_tag_spec name s) as (t & s1 & -> & _ & _ & Hp & _).
  pose proof (insert_link_to_tag_others linkId (tag_id t) s1) as Hi.
  destruct (insert_link_to_tag linkId (tag_id t) s1) as [[u|e] s2]; cbn in Hi.
  - rewrite IH, Hi. unfold tag_links_of_others. now rewrite Hp.
  - cbn. rewrite Hi. unfold tag_links_of_others. now rewrite Hp.
Qed.

Lemma createTagsForLink_others (linkId : uuid) (tagNames : list string) (s : store) :
  tag_links_of_others linkId (snd (createTagsForLink linkId tagNames s)) =
  tag_links_of_others linkId s.
Proof.
  pose proof (link_each_tag_others linkId tagNames s) as H.
  unfold createTagsForLink. now destruct (link_each_tag linkId tagNames s) as [[u|e] s'].
Qed.

Lemma deleteTagsForLink_frame (linkId : uuid) (s : store) :
  exists s', deleteTagsForLink linkId s = (Resolved tt, s') /\
    users s' = users s /\ links s' = links s /\ tags s' = tags s /\
    tag_links_of_others linkId s' = tag_links_of_others linkId s.
Proof.
  eexists. split; [ reflexivity | ]. cbn. repeat split.
  unfold tag_links_of_others. cbn. apply filter_idem.
Qed.

Lemma set_title_summary_immutable (title summary : option string) (updated : Z) (l : link) :
  immutable_fields (set_title_summary title summary updated l) = immutable_fields l.
Proof. reflexivity. Qed.

Lemma update_link_frame (id : uuid) (title summary : option string) (updated : Z) (s : store) :
  let s' := snd (update_link id title summary updated s) in
  users s' = users s /\ tags s' = tags s /\ link_to_tag s' = link_to_tag s /\
  map immutable_fields (links s') = map immutable_fields (links s) /\
  Forall2 (fun l l' => link_id l <> id -> l' = l) (links s) (links s').
Proof.
  unfold update_link.
  destruct (find (fun l => link_id l =? id) (links s)) as [l|]; cbn.
  - repeat split.
    + rewrite map_map. apply map_ext. intro r.
      destruct (link_id r =? id); reflexivity.
    + induction (links s) as [|r rs IH]; cbn; constructor; [ | exact IH ].
      intro Hne. apply Nat.eqb_neq in Hne. now rewrite Hne.
  - repeat split. induction (links s) as [|r rs IH]; constructor; auto.
Qed.

Lemma apply_update_frame (w : world) (id : uuid) (data : update_data) (s : store) :
  let s' := snd (apply_update w id data s) in
  users s' = users s /\
  map immutable_fields (links s') = map immutable_fields (links s) /\
  Forall2 (fun l l' => link_id l <> id -> l' = l) (links s) (links s') /\
  tag_links_of_others id s' = tag_links_of_others id s.
Proof.
  unfold apply_update, bind.
  pose proof (update_link_frame id (upd_title data) (upd_summary data) (now w) s) as Hu.
  destruct (update_link id (upd_title data) (upd_summary data) (now w) s) as [[l|e] s1];
    cbn in Hu; destruct Hu as (Hu1 & Hu2 & Hu3 & Hu4 & Hu5).
  2:{ cbn. repeat split; auto. unfold tag_links_of_others. now rewrite Hu3. }
  assert (Ho1 : tag_links_of_others id s1 = tag_links_of_others id s)
    by (unfold tag_links_of_others; now rewrite Hu3).
  destruct (upd_tags data) as [tagNames|].
  - destruct (deleteTagsForLink_frame id s1) as (s2 & -> & Hd1 & Hd2 & _ & Hd4).
    pose proof (createTagsForLink_frame id tagNames s2) as [Hc1 Hc2].
    pose proof (createTagsForLink_others id tagNames s2) as Hc3.
    destruct (createTagsForLink id tagNames s2) as [[u|e] s3]; cbn in *;
      (repeat split; [ congruence | congruence | congruence | congruence ]).
  - cbn. repeat split; auto.
Qed.

(** C10.  Whatever a call of [updateLink] answers, every Record keeps its
    id, url, image, domain, embedding, owner and createdAt (the embedding
    is never regenerated: the stored vector stays the one of ingestion),
    no Record other than the addressed one changes at all, no user row
    changes, and the tag links of the other Records are what they were:
    only the title, the summary, updatedAt and the tag links of the
    addressed Record may differ. *)
Theorem updateLink_changes_only_title_summary_tags (w : world) (req : request) (s : store) :
  users (snd (updateLink w req s)) = users s /\
  map immutable_fields (links (snd (updateLink w req s))) = map immutable_fields (links s) /\
  Forall2 (fun l l' => link_id l <> req_id req -> l' = l)
    (links s) (links (snd (updateLink w req s))) /\
  tag_links_of_others (req_id req) (snd (updateLink w req s)) =
    tag_links_of_others (req_id req) s.
Proof.
  assert (Hsame : users s = users s /\
                  map immutable_fields (links s) = map immutable_fields (links s) /\
                  Forall2 (fun l l' => link_id l <> req_id req -> l' = l) (links s) (links s) /\
                  tag_links_of_others (req_id req) s = tag_links_of_others (req_id req) s).
  { repeat split. induction (links s); constructor; auto. }
  unfold updateLink.
  destruct (req_user req) as [user|]; [ | exact Hsame ].
  destruct (validate_updateLink (req_body req)) as [data|]; [ | exact Hsame ].
  unfold findUnique.
  destruct (find _ (links s)) as [existingLink|]; [ | exact Hsame ].
  pose proof (apply_update_frame w (req_id req) data s) as H. cbn in H.
  destruct (apply_update w (req_id req) data s) as [[r|e] s']; exact H.
Qed.

End UpdateFrame.

(** ** Store statements on a consistent store *)

Section Consistency.
Import LinkController.

Lemma le_list_max (x : nat) (l : list nat) : In x l -> x <= list_max l.
Proof.
  intro H. pose proof (proj1 (list_max_le l (list_max l)) (Nat.le_refl _)) as Hall.
  rewrite Forall_forall in Hall. now apply Hall.
Qed.

Lemma fresh_link_id (s : store) : ~ In (uuid_generate_v4 s) (map link_id (links s)).
Proof.
  unfold uuid_generate_v4. intro H.
  assert (Hin : In (S (list_max (users s ++ map link_id (links s) ++ map tag_id (tags s))))
                  (users s ++ map link_id (links s) ++ map tag_id (tags s))).
  { apply in_or_app. right. apply in_or_app. now left. }
  apply le_list_max in Hin. lia.
Qed.

Lemma fresh_tag_id (s : store) : ~ In (uuid_generate_v4 s) (map tag_id (tags s)).
Proof.
  unfold uuid_generate_v4. intro H.
  assert (Hin : In (S (list_max (users s ++ map link_id (links s) ++ map tag_id (tags s))))
                  (users s ++ map link_id (links s) ++ map tag_id (tags s))).
  { apply in_or_app. right. apply in_or_app. now right. }
  apply le_list_max in Hin. lia.
Qed.

Lemma NoDup_snoc {A : Type} (l : list A) (x : A) :
  NoDup l -> ~ In x l -> NoDup (l ++ [x]).
Proof.
  intros Hl Hx. apply NoDup_app; [ exact Hl | repeat constructor; intros [] | ].
  intros a Ha [<-|[]]. now apply Hx.
Qed.

Lemma NoDup_map_injective {A B : Type} (f : A -> B) (l : list A) (x y : A) :
  NoDup (map f l) -> In x l -> In y l -> f x = f y -> x = y.
Proof.
  induction l as [|a l IH]; cbn; intros Hnd Hx Hy Hf; [ now elim Hx | ].
  inversion Hnd as [|? ? Hnotin Hnd']; subst.
  destruct Hx as [<-|Hx], Hy as [<-|Hy]; auto.
  - elim Hnotin. rewrite Hf. now apply in_map.
  - elim Hnotin. rewrite <- Hf. now apply in_map.
Qed.

Lemma NoDup_map_filter {A B : Type} (f : A -> B) (g : A -> bool) (l : list A) :
  NoDup (map f l) -> NoDup (map f (filter g l)).
Proof.
  induction l as [|a l IH]; cbn; intro H; [ constructor | ].
  inversion H as [|? ? Hnotin Hnd]; subst.
  destruct (g a); cbn; [ constructor | ]; auto.
  intro Hin. apply Hnotin. apply in_map_iff in Hin. destruct Hin as (x & E & Hx).
  apply filter_In in Hx. apply in_map_iff. exists x. tauto.
Qed.

Lemma flat_map_ext_In {A B : Type} (f g : A -> list B) (l : list A) :
  (forall a, In a l -> f a = g a) -> flat_map f l = flat_map g l.
Proof.
  induction l as [|a l IH]; cbn; intro H; [ reflexivity | ].
  rewrite (H a (or_introl eq_refl)), IH; auto.
Qed.

(** With unique keys, the rows of [tags] with the key of a row of [tags]
    are that row alone. *)
Lemma filter_tag_unique (ts : list tag) (t : tag) :
  NoDup (map tag_id ts) -> In t ts ->
  filter (fun t' => tag_id t' =? tag_id t) ts = [t].
Proof.
  induction ts as [|a ts IH]; cbn; intros Hnd Hin; [ now elim Hin | ].
  inversion Hnd as [|? ? Hnotin Hnd']; subst.
  destruct Hin as [->|Hin].
  - rewrite Nat.eqb_refl. f_equal.
    assert (Hall : Forall (fun t' => (tag_id t' =? tag_id t) = false) ts).
    { apply Forall_forall. intros x Hx. apply Nat.eqb_neq. intro E.
      apply Hnotin. rewrite <- E. now apply in_map. }
    clear -Hall. induction Hall as [|x l Hx _ IH]; cbn; [ reflexivity | ].
    now rewrite Hx.
  - destruct (Nat.eqb_spec (tag_id a) (tag_id t)) as [E|_]; [ | now apply IH ].
    elim Hnotin. rewrite E. now apply in_map.
Qed.

Lemma tags_of_link_snoc (id linkId tagId : uuid) (s : store) :
  tags_of_link id (with_link_to_tag (link_to_tag s ++ [(linkId, tagId)]) s) =
  tags_of_link id s ++
    (if linkId =? id then filter (fun t => tag_id t =? tagId) (tags s) else []).
Proof.
  unfold tags_of_link. cbn [link_to_tag tags with_link_to_tag].
  rewrite flat_map_app. cbn. now rewrite app_nil_r.
Qed.

(** [upsert_tag] keeps a consistent store consistent and changes the tags
    of no Record. *)
Lemma upsert_tag_consistent (name : string) (s s1 : store) (t : tag) :
  consistent s -> upsert_tag name s = (Resolved t, s1) ->
  consistent s1 /\ (forall id, tags_of_link id s1 = tags_of_link id s) /\
  incl (tags s) (tags s1).
Proof.
  intros Hc Hu.
  destruct (upsert_tag_spec name s) as (t' & s1' & E & Husers & Hlinks & Hpairs & Hin & Hname & Hcase).
  rewrite Hu in E. injection E as <- <-.
  destruct Hcase as [[_ ->]|(Hnew & Hid & Htags)].
  - split; [ exact Hc | split; [ reflexivity | apply incl_refl ] ].
  - destruct Hc as [C1 C2 C3 C4 C5 C6]. split; [ | split ].
    + constructor.
      * now rewrite Hlinks.
      * rewrite Htags, map_app. cbn. apply NoDup_snoc; [ exact C2 | ].
        rewrite Hid. apply fresh_tag_id.
      * rewrite Htags, map_app. cbn. apply NoDup_snoc; [ exact C3 | ].
        now rewrite Hname.
      * now rewrite Hpairs.
      * rewrite Hlinks, Husers. exact C5.
      * rewrite Hpairs, Hlinks, Htags. intros p Hp. destruct (C6 p Hp) as [Ha Hb].
        split; [ exact Ha | ]. rewrite map_app. apply in_or_app. now left.
    + intro id. unfold tags_of_link. rewrite Hpairs, Htags.
      apply flat_map_ext_In. intros p Hp.
      destruct (fst p =? id); [ | reflexivity ].
      rewrite filter_app. cbn.
      destruct (Nat.eqb_spec (tag_id t) (snd p)) as [E|_]; [ | apply app_nil_r ].
      exfalso. apply (fresh_tag_id s). rewrite <- Hid, E. apply (C6 p Hp).
    + rewrite Htags. apply incl_appl, incl_refl.
Qed.

(** [insert_link_to_tag] for a tag of the table keeps a consistent store
    consistent and gives the link that tag, if it did not have it. *)
Lemma insert_link_to_tag_consistent (linkId : uuid) (t : tag) (s : store) :
  consistent s -> link_exists linkId s = true -> In t (tags s) ->
  exists s2, insert_link_to_tag linkId (tag_id t) s = (Resolved tt, s2) /\
    consistent s2 /\ users s2 = users s /\ links s2 = links s /\ tags s2 = tags s /\
    incl (link_to_tag s) (link_to_tag s2) /\ In (linkId, tag_id t) (link_to_tag s2) /\
    (forall id, id <> linkId -> tags_of_link id s2 = tags_of_link id s) /\
    (tags_of_link linkId s2 = tags_of_link linkId s \/
     tags_of_link linkId s2 = tags_of_link linkId s ++ [t]).
Proof.
  intros Hc Hl Ht.
  assert (Hte : tag_exists (tag_id t) s = true) by (apply tag_exists_In; now apply in_map).
  destruct (insert_link_to_tag_ok linkId (tag_id t) s Hl Hte) as (s2 & E & Hin & Hcase).
  exists s2. split; [ exact E | ].
  destruct Hcase as [[Hold ->]|[Hnew ->]].
  - split; [ exact Hc | ].
    split; [ reflexivity | split; [ reflexivity | split; [ reflexivity | ] ] ].
    split; [ apply incl_refl | split; [ exact Hold | split; [ reflexivity | now left ] ] ].
  - destruct Hc as [C1 C2 C3 C4 C5 C6].
    split; [ | split; [ reflexivity | split; [ reflexivity | split; [ reflexivity | ] ] ] ].
    2: split; [ | split; [ | split ] ].
    + constructor; cbn; auto.
      * now apply NoDup_snoc.
      * intros p Hp. apply in_app_or in Hp. destruct Hp as [Hp|[<-|[]]]; [ now apply C6 | ].
        cbn. split; [ now apply link_exists_In | now apply in_map ].
    + cbn. apply incl_appl, incl_refl.
    + exact Hin.
    + intros id Hne. rewrite tags_of_link_snoc.
      destruct (Nat.eqb_spec linkId id) as [E'|_]; [ now elim Hne | apply app_nil_r ].
    + right. rewrite tags_of_link_snoc, Nat.eqb_refl.
      now rewrite (filter_tag_unique _ _ C2 Ht).
Qed.

(** The loop of [createTagsForLink] on a consistent store that holds the
    link: it returns, the store stays consistent, the tags of the other
    Records are untouched, and the link gains tags whose names are among
    [tagNames], at most one for each; afterwards every name has its row
    in [tags], linked to the link. *)
Lemma link_each_tag_consistent (linkId : uuid) (tagNames : list string) (s : store) :
  consistent s -> link_exists linkId s = true ->
  exists s' gained,
    link_each_tag linkId tagNames s = (Resolved tt, s') /\
    consistent s' /\ users s' = users s /\ links s' = links s /\
    incl (tags s) (tags s') /\ incl (link_to_tag s) (link_to_tag s') /\
    (forall id, id <> linkId -> tags_of_link id s' = tags_of_link id s) /\
    tags_of_link linkId s' = tags_of_link linkId s ++ gained /\
    incl (map tag_name gained) tagNames /\
    List.length gained <= List.length tagNames /\
    (forall name, In name tagNames ->
       exists t, In t (tags s') /\ tag_name t = name /\
                 In (linkId, tag_id t) (link_to_tag s')).
Proof.
  revert s. induction tagNames as [|name rest IH]; intros s Hc Hl.
  - exists s, [].
    split; [ reflexivity | split; [ exact Hc | ] ].
    split; [ reflexivity | split; [ reflexivity | ] ].
    split; [ apply incl_refl | split; [ apply incl_refl | ] ].
    split; [ reflexivity | split; [ symmetry; apply app_nil_r | ] ].
    split; [ intros x [] | split; [ cbn; lia | intros name [] ] ].
  - rewrite link_each_tag_cons.
    destruct (upsert_tag_spec name s) as (t & s1 & Eu & Hu1 & Hl1 & Hp1 & Hin1 & Hname & _).
    rewrite Eu.
    destruct (upsert_tag_consistent name s s1 t Hc Eu) as (Hc1 & Hsame1 & Hincl1).
    assert (Hl1' : link_exists linkId s1 = true)
      by (unfold link_exists in *; now rewrite Hl1).
    destruct (insert_link_to_tag_consistent linkId t s1 Hc1 Hl1' Hin1)
      as (s2 & Ei & Hc2 & Hu2 & Hl2 & Ht2 & Hincl2 & Hpair & Hother2 & Hself2).
    rewrite Ei.
    assert (Hl2' : link_exists linkId s2 = true)
      by (unfold link_exists in *; now rewrite Hl2).
    destruct (IH s2 Hc2 Hl2')
      as (s' & gained & E & Hc' & Hu' & Hl' & Hti & Hpi & Hother & Hself & Hnames & Hlen & Hall).
    exists s', ((if List.length (tags_of_link linkId s2) =? List.length (tags_of_link linkId s)
                 then [] else [t]) ++ gained).
    split; [ exact E | ].
    split; [ exact Hc' | ].
    split; [ congruence | ].
    split; [ congruence | ].
    split; [ intros x Hx; apply Hti; rewrite Ht2; now apply Hincl1 | ].
    split; [ intros x Hx; apply Hpi, Hincl2; now rewrite Hp1 | ].
    split; [ intros id Hne; now rewrite Hother, Hother2, Hsame1 | ].
    assert (Hgain : tags_of_link linkId s2 =
                    tags_of_link linkId s ++
                    (if List.length (tags_of_link linkId s2) =? List.length (tags_of_link linkId s)
                     then [] else [t])).
    { destruct Hself2 as [Hs|Hs]; rewrite Hs, Hsame1.
      - rewrite Nat.eqb_refl. now rewrite app_nil_r.
      - rewrite length_app. cbn.
        destruct (Nat.eqb_spec (List.length (tags_of_link linkId s) + 1)
                    (List.length (tags_of_link linkId s))); [ lia | reflexivity ]. }
    split; [ rewrite Hself, Hgain at 1; now rewrite <- app_assoc | ].
    split; [ | split ].
    + rewrite map_app. apply incl_app.
      * destruct (_ =? _); cbn; [ intros x [] | ].
        intros x [<-|[]]. left. now symmetry.
      * apply incl_tl. exact Hnames.
    + rewrite length_app. destruct (_ =? _); cbn; lia.
    + intros n [<-|Hn]; [ | now apply Hall ].
      exists t. split; [ apply Hti; now rewrite Ht2 | split; [ exact Hname | now apply Hpi ] ].
Qed.

End Consistency.

(** ** Tag upsert-and-link: idempotence, and two callers at once *)

Section TagUpsert.
Import LinkController Interleaving.

Lemma filter_unique {A B : Type} (f : A -> B) (eqb : B -> B -> bool) (l : list A) (x : A) :
  (forall a b, eqb a b = true <-> a = b) ->
  NoDup (map f l) -> In x l ->
  filter (fun y => eqb (f y) (f x)) l = [x].
Proof.
  intros Heqb. induction l as [|a l IH]; cbn; intros Hnd Hin; [ now elim Hin | ].
  inversion Hnd as [|? ? Hnotin Hnd']; subst.
  assert (Hrefl : forall b, eqb b b = true) by (intro b; now apply Heqb).
  destruct Hin as [->|Hin].
  - rewrite Hrefl. f_equal.
    assert (Hall : Forall (fun y => eqb (f y) (f x) = false) l).
    { apply Forall_forall. intros y Hy. apply not_true_is_false. intro E.
      apply Heqb in E. apply Hnotin. rewrite <- E. now apply in_map. }
    clear -Hall. induction Hall as [|y l Hy _ IH]; cbn; [ reflexivity | ].
    now rewrite Hy.
  - destruct (eqb (f a) (f x)) eqn:E; [ | now apply IH ].
    apply Heqb in E. elim Hnotin. rewrite E. now apply in_map.
Qed.

Lemma tag_rows_unique (s : store) (t : tag) :
  NoDup (map tag_name (tags s)) -> In t (tags s) ->
  tag_rows (tag_name t) s = [t].
Proof.
  intros Hnd Hin. unfold tag_rows.
  apply (filter_unique tag_name String.eqb (tags s) t String.eqb_eq Hnd Hin).
Qed.

Lemma link_rows_unique (s : store) (linkId tagId : uuid) :
  NoDup (link_to_tag s) -> In (linkId, tagId) (link_to_tag s) ->
  link_rows linkId tagId s = [(linkId, tagId)].
Proof.
  intros Hnd Hin. unfold link_rows.
  apply (filter_unique (fun p => p)
           (fun p q : uuid * uuid => (fst p =? fst q) && (snd p =? snd q))
           (link_to_tag s) (linkId, tagId)).
  - intros [a b] [c d]. cbn. rewrite andb_true_iff, !Nat.eqb_eq. split.
    + intros [-> ->]. reflexivity.
    + intro E. injection E as -> ->. now split.
  - now rewrite map_id.
  - exact Hin.
Qed.

Lemma insert_link_to_tag_existing (linkId tagId : uuid) (s : store) :
  In (linkId, tagId) (link_to_tag s) ->
  insert_link_to_tag linkId tagId s = (Resolved tt, s).
Proof.
  intro Hin. unfold insert_link_to_tag.
  assert (E : existsb (fun p => (fst p =? linkId) && (snd p =? tagId)) (link_to_tag s) = true).
  { apply existsb_exists. exists (linkId, tagId). cbn. now rewrite !Nat.eqb_refl. }
  now rewrite E.
Qed.

(** Upserting a name that has its row is a no-op that returns the row. *)
Lemma upsert_tag_existing (name : string) (s : store) :
  In name (map tag_name (tags s)) ->
  exists t, upsert_tag name s = (Resolved t, s) /\ In t (tags s) /\ tag_name t = name.
Proof.
  intro Hin.
  destruct (upsert_tag_spec name s) as (t & s1 & E & _ & _ & _ & Ht & Hname & Hcase).
  destruct Hcase as [[_ ->]|[Hnew _]]; [ | now elim Hnew ].
  now exists t.
Qed.

(** Once every name has its row and its link, the loop writes nothing. *)
Lemma link_each_tag_again (linkId : uuid) (tagNames : list string) (s : store) :
  NoDup (map tag_name (tags s)) ->
  (forall name, In name tagNames ->
     exists t, In t (tags s) /\ tag_name t = name /\
               In (linkId, tag_id t) (link_to_tag s)) ->
  link_each_tag linkId tagNames s = (Resolved tt, s).
Proof.
  intros Hnd. induction tagNames as [|name rest IH]; intro Hall; [ reflexivity | ].
  rewrite link_each_tag_cons.
  destruct (Hall name (or_introl eq_refl)) as (t & Ht & Hname & Hpair).
  destruct (upsert_tag_existing name s) as (t' & -> & Ht' & Hname').
  { apply in_map_iff. now exists t. }
  assert (t' = t) by (apply (NoDup_map_injective tag_name (tags s)); congruence).
  subst t'. rewrite (insert_link_to_tag_existing _ _ _ Hpair).
  apply IH. intros n Hn. apply Hall. now right.
Qed.

(** *** Interleaved callers *)

Lemma sound_mono (s s' : store) (c : caller) :
  links s' = links s -> incl (tags s) (tags s') -> sound s c -> sound s' c.
Proof.
  intros Hl Ht. unfold sound, link_exists. rewrite Hl.
  destruct c as [linkId names|linkId name rest|linkId t rest|]; auto.
  intros [H1 H2]. split; [ exact H1 | now apply Ht ].
Qed.

Lemma upserted_mono (tagNames : list string) (s s' : store) (c : caller) :
  incl (tags s) (tags s') -> upserted tagNames c s -> upserted tagNames c s'.
Proof.
  intros Ht H name Hn. destruct (H name Hn) as [Hp|Hin]; [ now left | right ].
  apply in_map_iff in Hin. destruct Hin as (t & E & Hin).
  apply in_map_iff. exists t. split; [ exact E | now apply Ht ].
Qed.

(** One statement of a sound caller, when the client sends the upsert as
    one statement: it does not throw, keeps tag names unique and never
    removes a row. *)
Lemma advance_sound (c c' : caller) (s s' : store) (tagNames : list string) :
  NoDup (map tag_name (tags s)) -> sound s c -> settled c = false ->
  advance OneStatement c s = (c', s') ->
  NoDup (map tag_name (tags s')) /\ sound s' c' /\
  links s' = links s /\ incl (tags s) (tags s') /\
  (upserted tagNames c s -> upserted tagNames c' s').
Proof.
  intros Hnd Hs Hset Ha.
  destruct c as [linkId [|name rest]|linkId name rest|linkId t rest|]; cbn in Hset;
    try discriminate; [ | now elim Hs | ].
  - cbn [advance] in Ha. cbn in Hs.
    destruct (upsert_tag_spec name s) as (t & s1 & E & _ & Hl & _ & Hin & Hname & Hcase).
    rewrite E in Ha. injection Ha as <- <-.
    assert (Hincl : incl (tags s) (tags s1)).
    { destruct Hcase as [[_ ->]|(_ & _ & ->)]; [ apply incl_refl | apply incl_appl, incl_refl ]. }
    split; [ | split; [ | split; [ exact Hl | split; [ exact Hincl | ] ] ] ].
    + destruct Hcase as [[_ ->]|(Hnew & _ & ->)]; [ exact Hnd | ].
      rewrite map_app. cbn. apply NoDup_app; [ exact Hnd | repeat constructor; intros [] | ].
      intros a Ha [<-|[]]. apply Hnew. now rewrite <- Hname.
    + cbn. split; [ unfold link_exists in *; now rewrite Hl | exact Hin ].
    + intros Hup n Hn. destruct (Hup n Hn) as [[<-|Hp]|Hp].
      * right. apply in_map_iff. now exists t.
      * now left.
      * right. apply in_map_iff in Hp. destruct Hp as (t0 & E0 & H0).
        apply in_map_iff. exists t0. split; [ exact E0 | now apply Hincl ].
  - cbn [advance] in Ha. cbn in Hs. destruct Hs as [Hl Ht].
    assert (Hte : tag_exists (tag_id t) s = true) by (apply tag_exists_In; now apply in_map).
    destruct (insert_link_to_tag_ok linkId (tag_id t) s Hl Hte) as (s2 & E & _ & Hcase).
    rewrite E in Ha. injection Ha as <- <-.
    assert (Hsame : links s2 = links s /\ tags s2 = tags s)
      by (destruct Hcase as [[_ ->]|[_ ->]]; now split).
    destruct Hsame as [Hls Hts]. rewrite Hts.
    split; [ exact Hnd | split; [ | split; [ exact Hls | split; [ apply incl_refl | ] ] ] ].
    + cbn. unfold link_exists in *. now rewrite Hls.
    + intros Hup n Hn. unfold upserted in Hup. cbn in *.
      destruct (Hup n Hn) as [Hp|Hp]; [ now left | right; now rewrite Hts ].
Qed.

Lemma step_invariant (namesA namesB : list string) (c c' : store * caller * caller) :
  invariant namesA namesB c -> step OneStatement c c' -> invariant namesA namesB c'.
Proof.
  intros Hinv Hstep. destruct Hstep as [s a b a' s' Hset Ha|s a b b' s' Hset Hb];
    destruct Hinv as (Hnd & Hsa & Hsb & Hua & Hub).
  - destruct (advance_sound a a' s s' namesA Hnd Hsa Hset Ha)
      as (Hnd' & Hsa' & Hl & Ht & Hup).
    repeat split; auto.
    + now apply (sound_mono s).
    + now apply (upserted_mono namesB s).
  - destruct (advance_sound b b' s s' namesB Hnd Hsb Hset Hb)
      as (Hnd' & Hsb' & Hl & Ht & Hup).
    repeat split; auto.
    + now apply (sound_mono s).
    + now apply (upserted_mono namesA s).
Qed.

Lemma steps_invariant (namesA namesB : list string) (c c' : store * caller * caller) :
  invariant namesA namesB c -> steps OneStatement c c' -> invariant namesA namesB c'.
Proof.
  intros Hinv Hsteps. induction Hsteps as [c|c1 c2 c3 Hstep _ IH]; [ exact Hinv | ].
  apply IH. now apply (step_invariant namesA namesB c1 c2).
Qed.

Lemma settled_sound_returned (s : store) (c : caller) :
  sound s c -> settled c = true -> exists linkId, c = Upserting linkId [].
Proof.
  destruct c as [linkId [|name rest]|linkId name rest|linkId t rest|]; cbn; intros Hs Hset;
    try discriminate; [ now exists linkId | now elim Hs ].
Qed.

(** However the client runs the upsert, a statement of a caller leaves
    the names of the tag table unique: the store refuses a second row. *)
Lemma advance_unique (mode : upsert_mode) (c c' : caller) (s s' : store) :
  NoDup (map tag_name (tags s)) -> advance mode c s = (c', s') ->
  NoDup (map tag_name (tags s')).
Proof.
  intros Hnd Ha.
  assert (Hinsert : forall name t s1, insert_tag name s = (Resolved t, s1) ->
            NoDup (map tag_name (tags s1))).
  { intros name t s1. unfold insert_tag.
    destruct (existsb (fun t0 => String.eqb (tag_name t0) name) (tags s)) eqn:E;
      [ discriminate | ].
    intro H. injection H as <- <-. cbn [tags with_tags]. rewrite map_app. cbn.
    apply NoDup_snoc; [ exact Hnd | ].
    intro Hin. apply in_map_iff in Hin. destruct Hin as (t0 & E0 & H0).
    assert (Ht : existsb (fun t1 => String.eqb (tag_name t1) name) (tags s) = true).
    { apply existsb_exists. exists t0. split; [ exact H0 | ]. now apply String.eqb_eq. }
    congruence. }
  assert (Hrefused : forall name e s1, insert_tag name s = (Rejected e, s1) -> s1 = s).
  { intros name e s1. unfold insert_tag.
    destruct (existsb _ (tags s)); intro H; [ now injection H as _ <- | discriminate ]. }
  destruct c as [linkId [|name rest]|linkId name rest|linkId t rest|]; cbn [advance] in Ha.
  - now injection Ha as _ <-.
  - destruct mode.
    + destruct (upsert_tag_spec name s) as (t & s1 & E & _ & _ & _ & _ & Hname & Hcase).
      rewrite E in Ha. injection Ha as _ <-.
      destruct Hcase as [[_ ->]|(Hnew & _ & ->)]; [ exact Hnd | ].
      rewrite map_app. cbn. apply NoDup_snoc; [ exact Hnd | now rewrite Hname ].
    + unfold select_tag in Ha. destruct (find _ (tags s)); now injection Ha as _ <-.
  - destruct (insert_tag name s) as [[t|e] s1] eqn:E; injection Ha as _ <-.
    + exact (Hinsert _ _ _ E).
    + now rewrite (Hrefused _ _ _ E).
  - pose proof (insert_link_to_tag_frame linkId (tag_id t) s) as Hf. cbn zeta in Hf.
    destruct Hf as (_ & _ & Ht).
    destruct (insert_link_to_tag linkId (tag_id t) s) as [[u|e] s1]; cbn [snd] in Ht;
      injection Ha as _ <-; now rewrite Ht.
  - now injection Ha as _ <-.
Qed.

Lemma steps_unique (mode : upsert_mode) (c c' : store * caller * caller) :
  NoDup (map tag_name (tags (fst (fst c)))) -> steps mode c c' ->
  NoDup (map tag_name (tags (fst (fst c')))).
Proof.
  intros Hnd Hsteps. induction Hsteps as [c|c1 c2 c3 Hstep _ IH]; [ exact Hnd | ].
  apply IH. destruct Hstep as [s a b a' s' _ Ha|s a b b' s' _ Hb]; cbn [fst] in *.
  - exact (advance_unique mode a a' s s' Hnd Ha).
  - exact (advance_unique mode b b' s s' Hnd Hb).
Qed.

(** Every statement brings a caller closer to its end. *)
Lemma advance_weight (mode : upsert_mode) (c : caller) (s : store) :
  settled c = false -> weight (fst (advance mode c s)) < weight c.
Proof.
  destruct c as [linkId [|name rest]|linkId name rest|linkId t rest|]; cbn [settled];
    try discriminate; intros _; cbn [advance].
  - destruct mode.
    + destruct (upsert_tag name s) as [[t|e] s1]; cbn; lia.
    + destruct (select_tag name s) as [[[t|]|e] s1]; cbn; lia.
  - destruct (insert_tag name s) as [[t|e] s1]; cbn; lia.
  - destruct (insert_link_to_tag linkId (tag_id t) s) as [[u|e] s1]; cbn; lia.
Qed.

Lemma step_remaining (mode : upsert_mode) (c c' : store * caller * caller) :
  step mode c c' -> remaining c' < remaining c.
Proof.
  intros [s a b a' s' Hset Ha|s a b b' s' Hset Hb]; cbn [remaining].
  - pose proof (advance_weight mode a s Hset) as H. rewrite Ha in H. cbn [fst] in H. lia.
  - pose proof (advance_weight mode b s Hset) as H. rewrite Hb in H. cbn [fst] in H. lia.
Qed.

End TagUpsert.

Section TagUpsertClaims.
Import LinkController Interleaving.

(** A caller run alone executes the loop of [createTagsForLink], however
    the client runs the upsert. *)
Lemma run_alone_is_loop (mode : upsert_mode) (linkId : uuid) (tagNames : list string)
  (s : store) (fuel : nat) :
  3 * List.length tagNames <= fuel ->
  run_alone mode fuel (Upserting linkId tagNames) s =
  match link_each_tag linkId tagNames s with
  | (Resolved _, s') => (Upserting linkId [], s')
  | (Rejected _, s') => (Thrown, s')
  end.
Proof.
  revert s fuel. induction tagNames as [|name rest IH]; intros s fuel Hfuel.
  - destruct fuel; reflexivity.
  - cbn [List.length] in Hfuel.
    destruct fuel as [|[|[|fuel]]]; try lia.
    rewrite link_each_tag_cons, upsert_tag_unfold.
    destruct (find (fun t => String.eqb (tag_name t) name) (tags s)) as [t|] eqn:E; cbv zeta.
    + assert (Hstep : advance mode (Upserting linkId (name :: rest)) s = (Linking linkId t rest, s)).
      { destruct mode; cbn [advance]; [ rewrite upsert_tag_unfold | unfold select_tag ];
          now rewrite E. }
      remember (S fuel) as f1 eqn:Ef.
      cbn [run_alone settled]. rewrite Hstep. cbn [run_alone settled advance].
      destruct (insert_link_to_tag linkId (tag_id t) s) as [[u|e] s2];
        [ apply IH; lia | subst f1; reflexivity ].
    + set (t := {| tag_id := uuid_generate_v4 s; tag_name := name |}).
      destruct mode.
      * assert (Hstep : advance OneStatement (Upserting linkId (name :: rest)) s =
                        (Linking linkId t rest, with_tags (tags s ++ [t]) s)).
        { cbn [advance]. rewrite upsert_tag_unfold. now rewrite E. }
        remember (S fuel) as f1 eqn:Ef.
        cbn [run_alone settled]. rewrite Hstep. cbn [run_alone settled advance].
        destruct (insert_link_to_tag linkId (tag_id t) _) as [[u|e] s2];
          [ apply IH; lia | subst f1; reflexivity ].
      * assert (Hread : advance ReadThenWrite (Upserting linkId (name :: rest)) s =
                        (Creating linkId name rest, s)).
        { cbn [advance]. unfold select_tag. now rewrite E. }
        assert (Hwrite : advance ReadThenWrite (Creating linkId name rest) s =
                         (Linking linkId t rest, with_tags (tags s ++ [t]) s)).
        { cbn [advance]. unfold insert_tag. now rewrite (find_none_existsb _ _ E). }
        cbn [run_alone settled]. rewrite Hread. cbn [run_alone settled]. rewrite Hwrite.
        cbn [run_alone settled advance].
        destruct (insert_link_to_tag linkId (tag_id t) _) as [[u|e] s2];
          [ apply IH; lia | destruct fuel; reflexivity ].
Qed.

(** C9 (amended).  On a consistent store that holds the links:
    - upserting a tag name that has its row returns that row and writes
      nothing;
    - [createTagsForLink] returns without throwing, and running it again
      with the same link and names returns without throwing and leaves
      the store exactly as the first run left it, with one row of [tags]
      for each name and one row of [link_to_tag] for each (link, tag);
    - when two invocations run at once, their statements interleaved in
      any order, no name ever has two rows of [tags], however the client
      runs the upsert; every interleaving ends, and a caller that has not
      returned or thrown can always go on;
    - when the client sends each upsert as one statement of the store,
      neither invocation throws, and once both have returned every name
      either of them was given has exactly one row of [tags]. *)
Theorem createTagsForLink_idempotent (s : store) (linkA linkB : uuid)
  (namesA namesB : list string) :
  consistent s -> link_exists linkA s = true -> link_exists linkB s = true ->
  (forall name, In name (map tag_name (tags s)) ->
     exists t, upsert_tag name s = (Resolved t, s) /\ tag_name t = name) /\
  (exists s1,
     createTagsForLink linkA namesA s = (Resolved tt, s1) /\
     createTagsForLink linkA namesA s1 = (Resolved tt, s1) /\
     consistent s1 /\
     forall name, In name namesA ->
       exists t, tag_rows name s1 = [t] /\ tag_name t = name /\
                 link_rows linkA (tag_id t) s1 = [(linkA, tag_id t)]) /\
  (forall mode final a b,
     steps mode (s, Upserting linkA namesA, Upserting linkB namesB) (final, a, b) ->
     NoDup (map tag_name (tags final)) /\
     (forall c', step mode (final, a, b) c' -> remaining c' < remaining (final, a, b)) /\
     (settled a && settled b = false -> exists c', step mode (final, a, b) c')) /\
  (forall final a b,
     steps OneStatement (s, Upserting linkA namesA, Upserting linkB namesB) (final, a, b) ->
     a <> Thrown /\ b <> Thrown /\
     (settled a = true -> settled b = true ->
      forall name, In name (namesA ++ namesB) ->
        exists t, tag_rows name final = [t] /\ tag_name t = name)).
Proof.
  intros Hc HlA HlB.
  assert (Hinit : invariant namesA namesB (s, Upserting linkA namesA, Upserting linkB namesB)).
  { split; [ apply (tag_names_unique s Hc) | ].
    split; [ exact HlA | split; [ exact HlB | ] ].
    split; intros name Hn; now left. }
  split; [ | split; [ | split ] ].
  - intros name Hin. destruct (upsert_tag_existing name s Hin) as (t & E & _ & Hname).
    now exists t.
  - destruct (link_each_tag_consistent linkA namesA s Hc HlA)
      as (s1 & gained & E & Hc1 & _ & _ & _ & _ & _ & _ & _ & _ & Hall).
    exists s1. unfold createTagsForLink. rewrite E.
    rewrite (link_each_tag_again linkA namesA s1 (tag_names_unique s1 Hc1) Hall).
    split; [ reflexivity | split; [ reflexivity | split; [ exact Hc1 | ] ] ].
    intros name Hn. destruct (Hall name Hn) as (t & Ht & Hname & Hpair).
    exists t. split; [ | split; [ exact Hname | ] ].
    + rewrite <- Hname. now apply tag_rows_unique; [ apply (tag_names_unique s1 Hc1) | ].
    + apply link_rows_unique; [ apply (link_to_tag_unique s1 Hc1) | exact Hpair ].
  - intros mode final a b Hsteps. split; [ | split ].
    + exact (steps_unique mode (s, Upserting linkA namesA, Upserting linkB namesB)
               (final, a, b) (tag_names_unique s Hc) Hsteps).
    + intros c'. apply step_remaining.
    + intro Hset. apply andb_false_iff in Hset. destruct Hset as [Hset|Hset].
      * destruct (advance mode a final) as [a' s'] eqn:E.
        exists (s', a', b). now apply step_first.
      * destruct (advance mode b final) as [b' s'] eqn:E.
        exists (s', a, b'). now apply step_second.
  - intros final a b Hsteps.
    pose proof (steps_invariant namesA namesB _ _ Hinit Hsteps) as (Hnd & Hsa & Hsb & Hua & Hub).
    split; [ intros ->; exact Hsa | split; [ intros ->; exact Hsb | ] ].
    intros Hseta Hsetb name Hn.
    destruct (settled_sound_returned final a Hsa Hseta) as (la & ->).
    destruct (settled_sound_returned final b Hsb Hsetb) as (lb & ->).
    assert (Hin : In name (map tag_name (tags final))).
    { apply in_app_or in Hn. destruct Hn as [Hn|Hn].
      - destruct (Hua name Hn) as [[]|H]; exact H.
      - destruct (Hub name Hn) as [[]|H]; exact H. }
    apply in_map_iff in Hin. destruct Hin as (t & Hname & Ht).
    exists t. split; [ | exact Hname ].
    rewrite <- Hname. now apply tag_rows_unique.
Qed.

Lemma sparse_store_consistent : consistent Sample.sparse_store.
Proof.
  constructor.
  - change (NoDup [2; 3]). repeat constructor; cbn; intuition discriminate.
  - constructor.
  - constructor.
  - constructor.
  - intros l [<-|[<-|[]]]; now left.
  - intros p [].
Qed.

(** Two callers that upsert and link the new name "Blog", one for each
    Record of the sample store: each run alone twice writes once. *)
Lemma createTagsForLink_idempotent_sample :
  exists s1,
    createTagsForLink 2 ["Blog"] Sample.sparse_store = (Resolved tt, s1) /\
    createTagsForLink 2 ["Blog"] s1 = (Resolved tt, s1).
Proof.
  destruct (createTagsForLink_idempotent Sample.sparse_store 2 3 ["Blog"] ["Blog"])
    as (_ & (s1 & H1 & H2 & _) & _).
  - exact sparse_store_consistent.
  - reflexivity.
  - reflexivity.
  - exists s1. split; [ exact H1 | exact H2 ].
Defined.

(** C9 as the specification states it fails when the client runs the
    upsert as a read followed by a write: two invocations given the new
    name "Blog", one for each Record of the sample store, both read that
    the name has no row; the first creates it, and the INSERT of the
    second is refused by the UNIQUE constraint, so the second invocation
    throws.  The name has one row. *)
Lemma upsert_race_throws :
  exists final t,
    steps ReadThenWrite
      (Sample.sparse_store, Upserting 2 ["Blog"], Upserting 3 ["Blog"])
      (final, Linking 2 t [], Thrown) /\
    tag_rows "Blog" final = [t].
Proof.
  eexists. eexists. split.
  - eapply steps_cons; [ apply step_first; [ reflexivity | vm_compute; reflexivity ] | ].
    eapply steps_cons; [ apply step_second; [ reflexivity | vm_compute; reflexivity ] | ].
    eapply steps_cons; [ apply step_first; [ reflexivity | vm_compute; reflexivity ] | ].
    eapply steps_cons; [ apply step_second; [ reflexivity | vm_compute; reflexivity ] | ].
    apply steps_refl.
  - vm_compute. reflexivity.
Qed.

End TagUpsertClaims.

(** ** Tags of a Record and the controlled vocabulary *)

Section Vocabulary.
Import OpenAiUtils LinkController.

Lemma newest_last (older : list link) (l : link) :
  (forall o, In o older -> (link_created_at o < link_created_at l)%Z) ->
  newest (older ++ [l]) = Some l.
Proof.
  induction older as [|o older IH]; intro H; [ reflexivity | ].
  cbn. rewrite IH by (intros x Hx; apply H; now right).
  destruct (Z.ltb_spec (link_created_at o) (link_created_at l)) as [_|Hge];
    [ reflexivity | ].
  specialize (H o (or_introl eq_refl)). lia.
Qed.

Lemma tags_of_link_unreferenced (id : uuid) (s : store) :
  (forall p, In p (link_to_tag s) -> fst p <> id) -> tags_of_link id s = [].
Proof.
  unfold tags_of_link. induction (link_to_tag s) as [|p ps IH]; intro H; [ reflexivity | ].
  cbn [flat_map].
  match goal with
  | |- context [if ?b then _ else _] =>
      replace b with false by (symmetry; apply Nat.eqb_neq, H; now left)
  end.
  apply IH. intros q Hq. apply H. now right.
Qed.

(** The store right after the INSERT of [createLink]. *)
Lemma ingested_consistent (w : world) (url : string) (user : uuid) (vec : vector) (s : store) :
  consistent s -> user_exists user s = true ->
  let s1 := with_links (links s ++ [ingested_row w url user vec s]) s in
  consistent s1 /\
  (forall id, tags_of_link id s1 = tags_of_link id s) /\
  tags_of_link (uuid_generate_v4 s) s1 = [] /\
  link_exists (uuid_generate_v4 s) s1 = true.
Proof.
  intros [C1 C2 C3 C4 C5 C6] Hu. cbn zeta.
  split; [ | split; [ | split ] ].
  - constructor; cbn [links tags users link_to_tag with_links]; auto.
    + rewrite map_app. cbn. apply NoDup_snoc; [ exact C1 | apply fresh_link_id ].
    + intros l Hl. apply in_app_or in Hl. destruct Hl as [Hl|[<-|[]]]; [ now apply C5 | ].
      cbn. now apply existsb_eqb_In.
    + intros p Hp. destruct (C6 p Hp) as [Ha Hb]. split; [ | exact Hb ].
      rewrite map_app. apply in_or_app. now left.
  - reflexivity.
  - apply tags_of_link_unreferenced. cbn [link_to_tag with_links].
    intros p Hp E. apply (fresh_link_id s). rewrite <- E. apply (C6 p Hp).
  - apply link_exists_In. cbn [links with_links]. rewrite map_app.
    apply in_or_app. right. now left.
Qed.

(** The store [createLink] leaves: the one it found, or the one the loop
    of [createTagsForLink] leaves after the INSERT, run for the newest
    Record of the URL. *)
Lemma createLink_store (w : world) (req : request) (s : store) :
  snd (createLink w req s) = s \/
  exists user url vec newLink,
    user_exists (user_id user) s = true /\
    newest (records_of url (user_id user)
              (with_links (links s ++ [ingested_row w url (user_id user) vec s]) s))
      = Some newLink /\
    snd (createLink w req s) =
      snd (link_each_tag (link_id newLink)
             (generateTags w (UrlUtils.extractUrlContent w url))
             (with_links (links s ++ [ingested_row w url (user_id user) vec s]) s)).
Proof.
  unfold createLink.
  destruct (req_user req) as [user|]; [ | now left ].
  destruct (validate_createLink w (req_body req)) as [url|]; [ | now left ].
  destruct (generateEmbedding w (UrlUtils.extractUrlContent w url)) as [v|e] eqn:Eg;
    [ | now left ].
  destruct (generateEmbedding_resolved _ _ _ Eg) as (_ & Hlen & Hfin).
  rewrite Hlen. change (negb (1536 =? 1536)) with false. cbv iota.
  unfold insert_link.
  destruct (vector_in v) as [vec|] eqn:Ev; [ | now left ].
  destruct (user_exists (user_id user) s) eqn:Eu; [ | now left ].
  right. exists user, url, vec.
  fold (ingested_row w url (user_id user) vec s).
  set (s1 := with_links (links s ++ [ingested_row w url (user_id user) vec s]) s).
  unfold findFirst. fold (records_of url (user_id user) s1).
  assert (Hne : records_of url (user_id user) s1 <> []).
  { unfold records_of. cbn. rewrite filter_app. cbn.
    rewrite String.eqb_refl, Nat.eqb_refl. cbn.
    intro H. apply app_eq_nil in H. destruct H as [_ H]. discriminate. }
  destruct (newest_nonempty _ Hne) as (newLink & En). rewrite En.
  exists newLink. split; [ exact Eu | split; [ reflexivity | ] ].
  unfold createTagsForLink.
  now destruct (link_each_tag (link_id newLink)
                  (generateTags w (UrlUtils.extractUrlContent w url)) s1) as [[u|e] s3].
Qed.

Lemma createLink_keeps_vocabulary (w : world) (req : request) (s : store) :
  consistent s -> tags_within_vocabulary s ->
  (forall l, In l (links s) -> (link_created_at l < now w)%Z) ->
  consistent (snd (createLink w req s)) /\
  tags_within_vocabulary (snd (createLink w req s)).
Proof.
  intros Hc Hv Hclock.
  destruct (createLink_store w req s) as [->|(user & url & vec & newLink & Hu & Hn & ->)];
    [ now split | ].
  set (row := ingested_row w url (user_id user) vec s) in *.
  set (s1 := with_links (links s ++ [row]) s) in *.
  destruct (ingested_consistent w url (user_id user) vec s Hc Hu)
    as (Hc1 & Hsame & Hnone & Hex).
  fold row in Hc1, Hsame, Hnone, Hex. fold s1 in Hc1, Hsame, Hnone, Hex.
  assert (Hnew : newLink = row).
  { unfold records_of in Hn. cbn [links with_links s1] in Hn. rewrite filter_app in Hn.
    cbn [filter] in Hn.
    replace (String.eqb (link_url row) url && (link_user_id row =? user_id user)) with true in Hn
      by (cbn; now rewrite String.eqb_refl, Nat.eqb_refl).
    rewrite newest_last in Hn; [ congruence | ].
    intros o Ho. apply filter_In in Ho. destruct Ho as [Ho _]. now apply Hclock. }
  subst newLink. change (link_id row) with (uuid_generate_v4 s).
  set (names := generateTags w (UrlUtils.extractUrlContent w url)).
  destruct (link_each_tag_consistent (uuid_generate_v4 s) names s1 Hc1 Hex)
    as (s' & gained & E & Hc' & _ & _ & _ & _ & Hother & Hself & Hnames & Hlen & _).
  rewrite E. cbn [snd]. split; [ exact Hc' | ].
  destruct (generateTags_within_vocabulary w (UrlUtils.extractUrlContent w url)) as [Hvoc Hsize].
  fold names in Hvoc, Hsize.
  intro id. unfold tag_names_of, getTagsForLink.
  destruct (Nat.eq_dec id (uuid_generate_v4 s)) as [->|Hne].
  - rewrite Hself, Hnone. cbn [app]. split.
    + intros x Hx. apply Hvoc. now apply Hnames.
    + rewrite length_map. lia.
  - rewrite (Hother id Hne), Hsame. apply (Hv id).
Qed.

Lemma tags_of_link_delete (id id' : uuid) (s : store) :
  tags_of_link id'
    {| users := users s;
       links := filter (fun l => negb (link_id l =? id)) (links s);
       tags := tags s;
       link_to_tag := filter (fun p => negb (fst p =? id)) (link_to_tag s) |} =
  if id' =? id then [] else tags_of_link id' s.
Proof.
  unfold tags_of_link. cbn [tags link_to_tag].
  induction (link_to_tag s) as [|p ps IH]; cbn [filter flat_map].
  - now destruct (id' =? id).
  - match goal with |- context [negb ?b] => destruct b eqn:Ep end; cbn [negb].
    + apply Nat.eqb_eq in Ep. rewrite IH.
      repeat case_eqb; unfold uuid in *; try congruence; reflexivity.
    + apply Nat.eqb_neq in Ep. cbn [flat_map]. rewrite IH.
      repeat case_eqb; unfold uuid in *; try congruence; reflexivity.
Qed.

Lemma deleteLink_keeps_vocabulary (w : world) (req : request) (s : store) :
  consistent s -> tags_within_vocabulary s ->
  consistent (snd (deleteLink w req s)) /\
  tags_within_vocabulary (snd (deleteLink w req s)).
Proof.
  intros Hc Hv. unfold deleteLink.
  destruct (req_user req) as [user|]; [ | now split ].
  unfold findUnique.
  destruct (find _ (links s)) as [l|]; [ | now split ].
  unfold delete_link. destruct (link_exists (req_id req) s); [ | now split ].
  cbn [snd]. split.
  - destruct Hc as [C1 C2 C3 C4 C5 C6]. constructor; cbn [users links tags link_to_tag]; auto.
    + now apply NoDup_map_filter.
    + now apply NoDup_filter.
    + intros x Hx. apply filter_In in Hx. now apply C5.
    + intros p Hp. apply filter_In in Hp. destruct Hp as [Hp Hne].
      destruct (C6 p Hp) as [Ha Hb]. split; [ | exact Hb ].
      apply in_map_iff in Ha. destruct Ha as (x & Ex & Hx).
      apply in_map_iff. exists x. split; [ exact Ex | ].
      apply filter_In. split; [ exact Hx | now rewrite Ex ].
  - intro id. unfold tag_names_of, getTagsForLink. rewrite tags_of_link_delete.
    destruct (id =? req_id req); [ split; [ intros x [] | cbn; lia ] | apply (Hv id) ].
Qed.

Lemma update_link_consistent (id : uuid) (title summary : option string) (updated : Z)
  (s : store) :
  consistent s -> consistent (snd (update_link id title summary updated s)).
Proof.
  intros Hc. unfold update_link.
  destruct (find (fun l => link_id l =? id) (links s)) as [l|]; [ | exact Hc ].
  cbn [snd]. destruct Hc as [C1 C2 C3 C4 C5 C6].
  assert (Hids : map link_id
                   (map (fun r => if link_id r =? id
                                  then set_title_summary title summary updated r else r)
                      (links s)) = map link_id (links s)).
  { rewrite map_map. apply map_ext. intro r. now destruct (link_id r =? id). }
  constructor; cbn [users links tags link_to_tag with_links]; auto.
  - now rewrite Hids.
  - intros x Hx. apply in_map_iff in Hx. destruct Hx as (r & <- & Hr).
    destruct (link_id r =? id); [ change (In (link_user_id r) (users s)) | ]; now apply C5.
  - intros p Hp. rewrite Hids. now apply C6.
Qed.

Lemma updateLink_without_tags_keeps_vocabulary (w : world) (req : request) (s : store) :
  supplies_tags (UpdateLink w req) = false ->
  consistent s -> tags_within_vocabulary s ->
  consistent (snd (updateLink w req s)) /\
  tags_within_vocabulary (snd (updateLink w req s)).
Proof.
  intros Hno Hc Hv. unfold updateLink. cbn in Hno.
  destruct (req_user req) as [user|]; [ | now split ].
  destruct (validate_updateLink (req_body req)) as [data|]; [ | now split ].
  unfold findUnique.
  destruct (find _ (links s)) as [l|]; [ | now split ].
  destruct (upd_tags data) as [tagNames|] eqn:Et; [ discriminate | ].
  unfold apply_update, bind. rewrite Et.
  pose proof (update_link_consistent (req_id req) (upd_title data) (upd_summary data) (now w) s Hc)
    as Hc1.
  pose proof (update_link_frame (req_id req) (upd_title data) (upd_summary data) (now w) s)
    as Hf. cbn zeta in Hf. destruct Hf as (_ & Ht & Hp & _).
  destruct (update_link (req_id req) (upd_title data) (upd_summary data) (now w) s)
    as [[updated|e] s1]; cbn [snd fst ret] in *.
  - split; [ exact Hc1 | ]. intro id. unfold tag_names_of, getTagsForLink, tags_of_link.
    rewrite Ht, Hp. apply (Hv id).
  - split; [ exact Hc1 | ]. intro id. unfold tag_names_of, getTagsForLink, tags_of_link.
    rewrite Ht, Hp. apply (Hv id).
Qed.

End Vocabulary.

Section VocabularyClaims.
Import OpenAiUtils LinkController.

Lemma serve_keeps_vocabulary (op : operation) (s : store) :
  supplies_tags op = false ->
  match op with
  | CreateLink w _ => forall l, In l (links s) -> (link_created_at l < now w)%Z
  | _ => True
  end ->
  consistent s -> tags_within_vocabulary s ->
  consistent (snd (serve op s)) /\ tags_within_vocabulary (snd (serve op s)).
Proof.
  intros Hno Hclock Hc Hv. destruct op as [w req|w req|w req]; cbn [serve].
  - now apply createLink_keeps_vocabulary.
  - now apply updateLink_without_tags_keeps_vocabulary.
  - now apply deleteLink_keeps_vocabulary.
Qed.

(** C6, as the code has it.  Starting from a consistent store in which
    every Record has at most five tags, all of the vocabulary, and serving
    any sequence of ingestions, deletions and link updates that carry no
    [tags] array, with the store's clock running forward, leaves a store
    in which every Record has at most five tags, all of the vocabulary.
    The tags ingestion attaches are those of [generateTags], which in
    every world returns between one and five names of the vocabulary: the
    default pair Article, Blog when the generation call errors, when its
    answer cannot be used, and when no valid tag survives the filter. *)
Theorem tags_stay_within_vocabulary (ops : list operation) (s : store) :
  consistent s -> tags_within_vocabulary s ->
  Forall (fun op => supplies_tags op = false) ops ->
  timely ops s ->
  (consistent (serve_all ops s) /\ tags_within_vocabulary (serve_all ops s)) /\
  (forall w content,
     incl (generateTags w content) AVAILABLE_TAGS /\
     1 <= List.length (generateTags w content) <= 5 /\
     (forall e, chat_completions_create w (tags_request content) = Rejected e ->
        generateTags w content = ["Article"; "Blog"]) /\
     (forall choices,
        chat_completions_create w (tags_request content) = Resolved choices ->
        match first_content choices with
        | Rejected _ => generateTags w content = ["Article"; "Blog"]
        | Resolved message =>
            match validTags (parse_tags w (content_or message "[]")) with
            | Resolved [] => generateTags w content = ["Article"; "Blog"]
            | Resolved tags => generateTags w content = tags
            | Rejected _ => generateTags w content = ["Article"; "Blog"]
            end
        end)).
Proof.
  intros Hc Hv Hops Htime. split.
  - revert s Hc Hv Htime. induction Hops as [|op ops Hop _ IH]; intros s Hc Hv Htime.
    + now split.
    + cbn [serve_all]. destruct Htime as [Hclock Hrest].
      destruct (serve_keeps_vocabulary op s Hop Hclock Hc Hv) as [Hc' Hv'].
      now apply IH.
  - intros w content.
    destruct (generateTags_within_vocabulary w content) as [Hi Hl].
    destruct (generateTags_default w content) as [Hd1 Hd2].
    split; [ exact Hi | split; [ exact Hl | split; [ exact Hd1 | exact Hd2 ] ] ].
Qed.

Lemma fresh_store_consistent : consistent Sample.fresh_store.
Proof.
  constructor.
  - change (NoDup (@nil uuid)). constructor.
  - constructor.
  - constructor.
  - constructor.
  - intros l [].
  - intros p [].
Qed.

(** The invariant on a sample: the same URL saved at times 10 and 20. *)
Lemma tags_stay_within_vocabulary_sample :
  consistent Sample.saved_twice /\ tags_within_vocabulary Sample.saved_twice.
Proof.
  apply (tags_stay_within_vocabulary
           [ CreateLink (Sample.at_time 10 Sample.online)
               (Sample.save_request "https://example.com/a");
             CreateLink (Sample.at_time 20 Sample.online)
               (Sample.save_request "https://example.com/a") ]
           Sample.fresh_store).
  - exact fresh_store_consistent.
  - intro id. split; [ intros x [] | cbn; lia ].
  - repeat constructor.
  - split; [ intros l [] | split; [ | exact I ] ].
    intros l Hl. vm_compute in Hl. destruct Hl as [<-|[]]. reflexivity.
Defined.

(** C6 fails on the code: after one ingestion, a link update that carries
    six tag names of the user's own leaves the Record with exactly those
    six tags, none of them in the vocabulary. *)
Lemma updateLink_stores_any_tags :
  tag_names_of 2 Sample.saved_then_retagged =
    ["todo"; "read later"; "work"; "home"; "ideas"; "misc"] /\
  ~ incl (tag_names_of 2 Sample.saved_then_retagged) AVAILABLE_TAGS /\
  5 < List.length (tag_names_of 2 Sample.saved_then_retagged) /\
  ~ tags_within_vocabulary Sample.saved_then_retagged.
Proof.
  assert (E : tag_names_of 2 Sample.saved_then_retagged =
              ["todo"; "read later"; "work"; "home"; "ideas"; "misc"])
    by (vm_compute; reflexivity).
  split; [ exact E | ]. rewrite E. split; [ | split ].
  - intro H. specialize (H "todo" (or_introl eq_refl)). cbn in H.
    repeat (destruct H as [H|H]; [ discriminate H | ]). exact H.
  - cbn. lia.
  - intro H. destruct (H 2) as [_ Hl]. rewrite E in Hl. cbn in Hl. lia.
Qed.

End VocabularyClaims.

(** ** Worked examples *)

Section Examples.
Import OpenAiUtils LinkController ChatController.

(** An unreachable page: the marker carries the URL and the error. *)
Example extractUrlContent_unreachable :
  UrlUtils.extractUrlContent Sample.offline "https://example.com/a" =
  "Failed to extract content from https://example.com/a. Error: connect ETIMEDOUT".
Proof. reflexivity. Qed.

(** The provider answers three numbers instead of 1536. *)
Example generateEmbedding_wrong_dimension :
  generateEmbedding
    (Sample.embedding_answers [Arr [Num Float8.one; Num Float8.zero; Num Float8.one]]
       Sample.offline) "some text" =
  Rejected (ErrorObj "Failed to generate embedding: Invalid embedding dimensions: 3").
Proof. reflexivity. Qed.

(** The provider answers 1536 numbers, one of them NaN. *)
Example generateEmbedding_not_finite :
  generateEmbedding
    (Sample.embedding_answers [Arr (Num S754_nan :: repeat (Num Float8.one) 1535)]
       Sample.offline) "some text" =
  Rejected (ErrorObj "Failed to generate embedding: Embedding contains NaN or non-finite values").
Proof. vm_compute. reflexivity. Qed.

(** An answer that is not JSON goes through the comma split; names outside
    the vocabulary are dropped and the casing is the vocabulary's. *)
Example generateTags_from_plain_text :
  generateTags (Sample.chat_answers "blog, NEWS, cooking" Sample.offline) "some text" =
  ["Blog"; "News"].
Proof. vm_compute. reflexivity. Qed.

(** No valid tag survives: the default pair. *)
Example generateTags_nothing_valid :
  generateTags (Sample.chat_answers "cooking, travel" Sample.offline) "some text" =
  ["Article"; "Blog"].
Proof. vm_compute. reflexivity. Qed.

(** More than five valid names: the first five. *)
Example generateTags_capped :
  generateTags
    (Sample.chat_answers "News, Blog, Tool, Forum, Video, Music, Image" Sample.offline)
    "some text" =
  ["News"; "Blog"; "Tool"; "Forum"; "Video"].
Proof. vm_compute. reflexivity. Qed.

(** A chat on an empty store with the text generation down: status 200,
    the apology, no ranked record. *)
Example chat_on_empty_store :
  chatWithLinks Sample.online (Sample.chat_request_of "what did I save?") Sample.fresh_store =
  reply 200
    (ChatPayload
       "Sorry, I encountered an error while generating a response. Please try again later."
       []).
Proof. vm_compute. reflexivity. Qed.

(** The Record of the first ingestion keeps its embedding and createdAt
    when retagged; its tags are the ones the user gave. *)
Example retagged_record :
  map immutable_fields (links Sample.saved_then_retagged) =
    [(2, "https://example.com/a", None, Some "example.com", Some (Sample.axis 0), 1, 10%Z)] /\
  tag_names_of 2 Sample.saved_then_retagged =
    ["todo"; "read later"; "work"; "home"; "ideas"; "misc"].
Proof. split; vm_compute; reflexivity. Qed.

End Examples.

(* ================================================================== *)
(** * Further properties of the code *)
(* ================================================================== *)

(** ** Texts: truncation, trimming, cleaning *)

Section Texts.
Import OpenAiUtils.

Lemma substring_all (n : nat) (s : string) :
  String.length s <= n -> substring 0 n s = s.
Proof.
  revert s. induction n as [|n IH]; intros [|c s] H; cbn in *; try reflexivity; try lia.
  f_equal. apply IH. lia.
Qed.

Lemma truncateText_fixed (text : string) :
  truncateText text = substring 0 8000 text.
Proof.
  unfold truncateText.
  destruct (Nat.ltb_spec 8000 (String.length text)) as [H|H]; [ reflexivity | ].
  symmetry. now apply substring_all.
Qed.

(** X1.  [generateEmbedding] reads at most the first 8000 characters of
    its text: the provider is sent a text of at most 8000 characters, and
    the outcome for a text is the outcome for its first 8000 characters. *)
Theorem generateEmbedding_reads_first_8000 (w : world) (text : string) :
  String.length (truncateText text) <= 8000 /\
  generateEmbedding w text = generateEmbedding w (substring 0 8000 text).
Proof.
  split.
  - rewrite truncateText_fixed. apply length_substring_le.
  - unfold generateEmbedding. rewrite !truncateText_fixed.
    rewrite (substring_all 8000 (substring 0 8000 text)); [ reflexivity | ].
    apply length_substring_le.
Qed.

Lemma trimStart_cases (s : string) :
  trimStart s = "" \/ exists c r, trimStart s = String c r /\ is_space c = false.
Proof.
  induction s as [|c s IH]; cbn; [ now left | ].
  destruct (is_space c) eqn:E; [ exact IH | right; now exists c, s ].
Qed.

Lemma trimEnd_idem (s : string) : trimEnd (trimEnd s) = trimEnd s.
Proof.
  induction s as [|c s IH]; cbn; [ reflexivity | ].
  destruct (trimEnd s) as [|d t] eqn:E.
  - destruct (is_space c) eqn:Ec; cbn; [ reflexivity | now rewrite Ec ].
  - cbn [trimEnd] in *. now rewrite IH.
Qed.

Lemma trimEnd_head (c : ascii) (r : string) :
  is_space c = false -> exists r', trimEnd (String c r) = String c r'.
Proof.
  intro H. cbn. destruct (trimEnd r) as [|d t]; [ rewrite H | ]; eauto.
Qed.

(** Trimming a trimmed text changes nothing. *)
Lemma trim_idem (s : string) : trim (trim s) = trim s.
Proof.
  unfold trim. destruct (trimStart_cases s) as [->|(c & r & -> & Hc)]; [ reflexivity | ].
  destruct (trimEnd_head c r Hc) as (r' & E). rewrite E.
  cbn [trimStart]. rewrite Hc. rewrite <- E. apply trimEnd_idem.
Qed.

Lemma trim_empty_iff (s : string) : trim s = "" <-> trimStart s = "".
Proof.
  unfold trim. split; [ | now intros -> ].
  destruct (trimStart_cases s) as [->|(c & r & -> & Hc)]; [ reflexivity | ].
  destruct (trimEnd_head c r Hc) as (r' & ->). discriminate.
Qed.

(** X2.  The summary [generateSummary] returns never has white space at
    either end (of the white space of JavaScript, the code units a string
    holds here are U+0009 to U+000D, U+0020 and the no-break space
    U+00A0).  It is the fixed placeholder when the generation call
    throws or answers no choice, and otherwise the trimmed answer, which
    is the empty string when the model answers null, nothing or only white
    space: a stored summary can be empty. *)
Theorem generateSummary_is_trimmed (w : world) (content : string) :
  trim (generateSummary w content) = generateSummary w content /\
  (forall e, chat_completions_create w (summary_request content) = Rejected e ->
     generateSummary w content = "No summary available due to processing error.") /\
  (chat_completions_create w (summary_request content) = Resolved [] ->
     generateSummary w content = "No summary available due to processing error.") /\
  (forall rest, chat_completions_create w (summary_request content) = Resolved (None :: rest) ->
     generateSummary w content = "") /\
  (forall text rest,
     chat_completions_create w (summary_request content) = Resolved (Some text :: rest) ->
     generateSummary w content = trim text /\
     (trimStart text = "" -> generateSummary w content = "")).
Proof.
  unfold generateSummary. split; [ | split; [ | split; [ | split ] ] ].
  - destruct (chat_completions_create w (summary_request content)) as [[|choice rest]|e];
      cbn [first_content]; try reflexivity.
    apply trim_idem.
  - intros e ->. reflexivity.
  - intros ->. reflexivity.
  - intros rest ->. reflexivity.
  - intros text rest ->. cbn [first_content content_or].
    assert (E : trim (or_else text "") = trim text) by (destruct text; reflexivity).
    split; [ exact E | ]. intro H. rewrite E. now apply trim_empty_iff.
Qed.

Lemma single_spaced_weaken (s : string) :
  single_spaced true s = true -> single_spaced false s = true.
Proof.
  destruct s as [|c r]; cbn; [ reflexivity | ].
  destruct (is_space c); [ | auto ].
  rewrite !andb_true_iff. intros [[_ H] _]. discriminate.
Qed.

Lemma squeeze_single_spaced (inside : bool) (s : string) :
  single_spaced inside (squeeze is_space (ascii_of_nat 32) inside s) = true.
Proof.
  revert inside. induction s as [|c r IH]; intro inside; cbn; [ reflexivity | ].
  destruct (is_space c) eqn:E.
  - destruct inside; [ apply IH | ].
    cbn. change (is_space (ascii_of_nat 32)) with true. cbn. apply IH.
  - cbn. rewrite E. apply IH.
Qed.

Lemma is_newline_space (c : ascii) : is_newline c = true -> is_space c = true.
Proof.
  unfold is_newline, is_space. intro H. apply Nat.eqb_eq in H. now rewrite H.
Qed.

(** A single-spaced text holds no line break, so the second replacement
    of [clean] finds nothing to replace. *)
Lemma squeeze_newline_nothing (after_space inside : bool) (s : string) :
  single_spaced after_space s = true ->
  squeeze is_newline (ascii_of_nat 10) inside s = s.
Proof.
  revert after_space inside. induction s as [|c r IH]; intros a i H; cbn in *; [ reflexivity | ].
  destruct (is_newline c) eqn:En.
  - rewrite (is_newline_space c En) in H.
    apply andb_true_iff in H. destruct H as [H _].
    apply andb_true_iff in H. destruct H as [H _].
    unfold is_newline in En. apply Nat.eqb_eq in En. apply Nat.eqb_eq in H. lia.
  - f_equal. destruct (is_space c).
    + apply andb_true_iff in H. destruct H as [_ H]. now apply (IH true).
    + now apply (IH false).
Qed.

Lemma trimStart_single_spaced (after_space : bool) (s : string) :
  single_spaced after_space s = true -> single_spaced false (trimStart s) = true.
Proof.
  revert after_space. induction s as [|c r IH]; intros a H; cbn in *; [ reflexivity | ].
  destruct (is_space c) eqn:E.
  - apply andb_true_iff in H. destruct H as [_ H]. now apply (IH true).
  - cbn. now rewrite E.
Qed.

Lemma trimEnd_single_spaced (after_space : bool) (s : string) :
  single_spaced after_space s = true -> single_spaced after_space (trimEnd s) = true.
Proof.
  revert after_space. induction s as [|c r IH]; intros a H; cbn in *; [ reflexivity | ].
  destruct (is_space c) eqn:E.
  - apply andb_true_iff in H. destruct H as [H1 H2].
    specialize (IH true H2).
    destruct (trimEnd r) as [|d t]; [ reflexivity | ].
    cbn [single_spaced]. rewrite E. now rewrite H1.
  - specialize (IH false H).
    destruct (trimEnd r) as [|d t]; cbn [single_spaced]; rewrite E; [ reflexivity | exact IH ].
Qed.

(** X3.  The text [clean] returns has no white space at either end, and
    inside it white space is single spaces only: no line break, tab or
    no-break space survives (the paragraph breaks the extractor joins
    with disappear), and no two spaces follow each other.  The
    replacement of runs of line breaks never finds one to replace.
    White space is what [\s] and [trim] take among the code units a
    string holds here: U+0009 to U+000D, U+0020 and U+00A0. *)
Theorem clean_is_single_spaced (content : string) :
  single_spaced false (UrlUtils.clean content) = true /\
  trim (UrlUtils.clean content) = UrlUtils.clean content /\
  UrlUtils.clean content = trim (squeeze is_space (ascii_of_nat 32) false content).
Proof.
  assert (E : UrlUtils.clean content = trim (squeeze is_space (ascii_of_nat 32) false content)).
  { unfold UrlUtils.clean.
    now rewrite (squeeze_newline_nothing false false _ (squeeze_single_spaced false content)). }
  split; [ | split; [ | exact E ] ].
  - rewrite E. unfold trim.
    apply trimEnd_single_spaced, (trimStart_single_spaced false), squeeze_single_spaced.
  - rewrite E. apply trim_idem.
Qed.

End Texts.

(** ** The tag classifier: matching against the vocabulary *)

Section TagMatching.
Import OpenAiUtils.

Lemma available_canonical (v : string) :
  In v AVAILABLE_TAGS -> is_available v = true /\ correctCase v = v.
Proof.
  intro H. unfold AVAILABLE_TAGS in H.
  repeat (destruct H as [<-|H]; [ split; vm_compute; reflexivity | ]).
  destruct H.
Qed.

Lemma as_strings_Str (l : list string) : as_strings (map Str l) = Some l.
Proof.
  induction l as [|x l IH]; [ reflexivity | ]. cbn. now rewrite IH.
Qed.

Lemma filter_all {A : Type} (f : A -> bool) (l : list A) :
  (forall x, In x l -> f x = true) -> filter f l = l.
Proof.
  induction l as [|x l IH]; intro H; [ reflexivity | ].
  cbn. rewrite (H x (or_introl eq_refl)). f_equal. apply IH. intros y Hy. apply H. now right.
Qed.

Lemma map_fixed {A : Type} (f : A -> A) (l : list A) :
  (forall x, In x l -> f x = x) -> map f l = l.
Proof.
  induction l as [|x l IH]; intro H; [ reflexivity | ].
  cbn. rewrite (H x (or_introl eq_refl)). f_equal. apply IH. intros y Hy. apply H. now right.
Qed.

Lemma validTags_fixed (tags : list string) :
  incl tags AVAILABLE_TAGS -> List.length tags <= 5 ->
  validTags (Arr (map Str tags)) = Resolved tags.
Proof.
  intros Hin Hlen. unfold validTags. rewrite as_strings_Str.
  rewrite filter_all by (intros x Hx; now apply available_canonical, Hin).
  rewrite map_fixed by (intros x Hx; now apply available_canonical, Hin).
  now rewrite firstn_all2.
Qed.

Lemma find_same_tag (tag v : string) :
  find (same_tag tag) AVAILABLE_TAGS = Some v ->
  In v AVAILABLE_TAGS /\ toLowerCase v = toLowerCase tag /\ v <> "".
Proof.
  intro H. pose proof (find_some _ _ H) as [Hin Hsame].
  split; [ exact Hin | split ].
  - now apply String.eqb_eq.
  - intros ->. revert Hin. unfold AVAILABLE_TAGS. cbn.
    intro Hin. repeat (destruct Hin as [Hin|Hin]; [ discriminate | ]). destruct Hin.
Qed.

Lemma same_case_canonical (tag v : string) :
  In v AVAILABLE_TAGS -> toLowerCase tag = toLowerCase v ->
  is_available tag = true /\ correctCase tag = v.
Proof.
  intros Hin Hlow. unfold is_available, correctCase, same_tag. rewrite Hlow.
  unfold AVAILABLE_TAGS in Hin.
  repeat (destruct Hin as [<-|Hin]; [ split; vm_compute; reflexivity | ]).
  destruct Hin.
Qed.

(** X4.  Validation of the classifier's tags only ever changes the case of
    a name.  A name that equals a vocabulary name up to the case of its
    ASCII letters is kept and comes out in the vocabulary's spelling; a
    name that is kept differs from what comes out in case only; and what
    [generateTags] returns passes the validation again unchanged. *)
Theorem tag_validation_changes_case_only (w : world) (content : string) :
  validTags (Arr (map Str (generateTags w content))) = Resolved (generateTags w content) /\
  (forall tag v, In v AVAILABLE_TAGS -> toLowerCase tag = toLowerCase v ->
     is_available tag = true /\ correctCase tag = v) /\
  (forall tag, is_available tag = true ->
     In (correctCase tag) AVAILABLE_TAGS /\
     toLowerCase (correctCase tag) = toLowerCase tag) /\
  (forall tag, is_available tag = false ->
     forall v, In v AVAILABLE_TAGS -> toLowerCase v <> toLowerCase tag).
Proof.
  split; [ | split; [ | split ] ].
  - destruct (generateTags_within_vocabulary w content) as [Hin Hlen].
    apply validTags_fixed; [ exact Hin | lia ].
  - exact same_case_canonical.
  - intros tag Ha. split; [ now apply correctCase_available | ].
    unfold correctCase. unfold is_available in Ha.
    destruct (find (same_tag tag) AVAILABLE_TAGS) as [v|] eqn:Ef; [ | reflexivity ].
    destruct (find_same_tag tag v Ef) as (_ & Hlow & Hne).
    now rewrite or_else_left.
  - intros tag Hno v Hin Hlow. unfold is_available in Hno.
    assert (H : existsb (same_tag tag) AVAILABLE_TAGS = true).
    { apply existsb_exists. exists v. split; [ exact Hin | ]. now apply String.eqb_eq. }
    congruence.
Qed.

End TagMatching.

(** ** ORDER BY *)

Section Sorting.
Import LinkReads.
Context {A : Type} (goes_first : A -> A -> bool).

Lemma insert_by_permutation (x : A) (l : list A) :
  Permutation (x :: l) (insert_by goes_first x l).
Proof.
  induction l as [|y l IH]; cbn; [ reflexivity | ].
  destruct (goes_first y x); [ | reflexivity ].
  eapply perm_trans; [ apply perm_swap | apply perm_skip, IH ].
Qed.

Lemma order_by_permutation (l : list A) : Permutation l (order_by goes_first l).
Proof.
  induction l as [|x l IH]; cbn; [ constructor | ].
  eapply perm_trans; [ apply perm_skip, IH | apply insert_by_permutation ].
Qed.

Hypothesis asym : forall a b, goes_first a b = true -> goes_first b a = false.
Hypothesis negtrans :
  forall a b c, goes_first a b = false -> goes_first b c = false -> goes_first a c = false.

Lemma insert_by_sorted (x : A) (l : list A) :
  StronglySorted (fun a b => goes_first b a = false) l ->
  StronglySorted (fun a b => goes_first b a = false) (insert_by goes_first x l).
Proof.
  induction 1 as [|y l Hs IH Hall]; cbn.
  - repeat constructor.
  - destruct (goes_first y x) eqn:E.
    + constructor; [ exact IH | ].
      apply Forall_forall. intros z Hz.
      apply (Permutation_in _ (Permutation_sym (insert_by_permutation x l))) in Hz.
      destruct Hz as [<-|Hz]; [ now apply asym | ].
      now apply (proj1 (Forall_forall _ _) Hall).
    + constructor; [ now constructor | ].
      constructor; [ exact E | ].
      apply Forall_forall. intros z Hz.
      apply (negtrans z y x); [ | exact E ].
      now apply (proj1 (Forall_forall _ _) Hall).
Qed.

Lemma order_by_is_sorted (l : list A) :
  StronglySorted (fun a b => goes_first b a = false) (order_by goes_first l).
Proof.
  induction l as [|x l IH]; cbn; [ constructor | now apply insert_by_sorted ].
Qed.

End Sorting.

Lemma StronglySorted_impl {A : Type} (R R' : A -> A -> Prop) (l : list A) :
  (forall a b, R a b -> R' a b) -> StronglySorted R l -> StronglySorted R' l.
Proof.
  intros H. induction 1 as [|x l Hs IH Hall]; constructor; [ exact IH | ].
  eapply Forall_impl; [ | exact Hall ]. intros b Hb. now apply H.
Qed.

Lemma StronglySorted_map {A B : Type} (f : A -> B) (R : B -> B -> Prop) (l : list A) :
  StronglySorted (fun a b => R (f a) (f b)) l -> StronglySorted R (map f l).
Proof.
  induction 1 as [|x l Hs IH Hall]; cbn; constructor; [ exact IH | ].
  apply Forall_forall. intros y Hy. apply in_map_iff in Hy. destruct Hy as (z & <- & Hz).
  now apply (proj1 (Forall_forall _ _) Hall).
Qed.

Lemma order_by_later_sorted (rows : list link) :
  StronglySorted (fun a b => (link_created_at b <= link_created_at a)%Z)
    (LinkReads.order_by LinkReads.later rows).
Proof.
  apply (StronglySorted_impl (fun a b => LinkReads.later b a = false)).
  - unfold LinkReads.later. intros a b H. apply Z.ltb_ge in H. exact H.
  - apply order_by_is_sorted; unfold LinkReads.later.
    + intros a b H. apply Z.ltb_lt in H. apply Z.ltb_ge. lia.
    + intros a b c H1 H2. apply Z.ltb_ge in H1, H2. apply Z.ltb_ge. lia.
Qed.

(** ** The read endpoints of the link controller *)

Section Reads.
Import LinkController LinkReads.

Lemma findMany_spec (user : uuid) (s : store) :
  Permutation (findMany user s) (owned_by user s) /\
  StronglySorted (fun a b => (link_created_at b <= link_created_at a)%Z) (findMany user s).
Proof.
  split; [ apply Permutation_sym, order_by_permutation | apply order_by_later_sorted ].
Qed.

Lemma find_unique_key {A : Type} (key : A -> uuid) (f : A -> bool) (ls : list A) (l : A) :
  NoDup (map key ls) -> In l ls -> f l = true ->
  (forall x, In x ls -> f x = true -> key x = key l) -> find f ls = Some l.
Proof.
  intros Hnd Hin Hf Hkey. destruct (find f ls) as [y|] eqn:E.
  - apply find_some in E. destruct E as [Hy Hfy]. f_equal.
    apply (NoDup_map_injective key ls y l Hnd Hy Hin). now apply Hkey.
  - pose proof (find_none _ _ E l Hin). congruence.
Qed.

Lemma find_by_id (s : store) (l : link) :
  NoDup (map link_id (links s)) -> In l (links s) ->
  find (fun r => link_id r =? link_id l) (links s) = Some l.
Proof.
  intros Hnd Hin. apply (find_unique_key link_id); auto.
  - apply Nat.eqb_refl.
  - intros x _ Hx. now apply Nat.eqb_eq.
Qed.

Lemma findUnique_own (s : store) (l : link) :
  NoDup (map link_id (links s)) -> In l (links s) ->
  findUnique (link_id l) (link_user_id l) s = (Resolved (Some l), s).
Proof.
  intros Hnd Hin. unfold findUnique. f_equal. f_equal.
  apply (find_unique_key link_id); auto.
  - now rewrite !Nat.eqb_refl.
  - intros x _ Hx. apply andb_true_iff in Hx. destruct Hx as [Hx _]. now apply Nat.eqb_eq.
Qed.

Lemma embedding_of_link_unique (s : store) (l : link) :
  NoDup (map link_id (links s)) -> In l (links s) ->
  embedding_of_link (link_id l) s = link_embedding l.
Proof.
  intros Hnd Hin. unfold embedding_of_link. now rewrite find_by_id.
Qed.

Lemma Map_get_absent (id : uuid) (entries : list (uuid * option vector)) :
  ~ In id (map fst entries) -> Map_get id entries = None.
Proof.
  induction entries as [|[k v] rest IH]; intro H; [ reflexivity | ].
  cbn in *. rewrite IH by tauto.
  destruct (Nat.eqb_spec k id); [ tauto | reflexivity ].
Qed.

Lemma Map_get_unique (g : link -> bool) (ls : list link) (l : link) :
  NoDup (map link_id ls) -> In l ls -> g l = true ->
  Map_get (link_id l) (map (fun r => (link_id r, link_embedding r)) (filter g ls)) =
  Some (link_embedding l).
Proof.
  induction ls as [|x ls IH]; intros Hnd Hin Hg; [ destruct Hin | ].
  cbn in Hnd. apply NoDup_cons_iff in Hnd. destruct Hnd as [Hx Hnd].
  cbn [filter]. destruct Hin as [->|Hin].
  - rewrite Hg. cbn [map Map_get]. rewrite Map_get_absent.
    + now rewrite Nat.eqb_refl.
    + intro H. apply Hx. rewrite map_map in H. cbn in H.
      apply in_map_iff in H. destruct H as (y & Ey & Hy).
      apply filter_In in Hy. destruct Hy as [Hy _].
      apply in_map_iff. now exists y.
  - destruct (g x); [ cbn [map Map_get] | ]; now rewrite IH.
Qed.

Lemma embedding_or_null_unique (ids : list uuid) (s : store) (l : link) :
  NoDup (map link_id (links s)) -> In l (links s) -> In (link_id l) ids ->
  embedding_or_null (link_id l) (select_embeddings ids s) = link_embedding l.
Proof.
  intros Hnd Hin Hid. unfold embedding_or_null, select_embeddings.
  rewrite (Map_get_unique _ (links s) l Hnd Hin).
  - now destruct (link_embedding l).
  - now apply existsb_eqb_In.
Qed.

(** X5.  [getLinks] answers 401 without a user and otherwise 200 with one
    entry for each Record of the requesting user and for no other Record,
    the most recently created first; in a store that satisfies the
    constraints of the schema each entry carries the stored fields, the
    stored embedding and the tags of its Record. *)
Theorem getLinks_lists_own_records_newest_first (req : request) (s : store) :
  match getLinks req s with
  | Answer code listed =>
      code = 200 /\
      exists user found,
        req_user req = Some user /\
        Permutation found (owned_by (user_id user) s) /\
        map r_id listed = map link_id found /\
        StronglySorted (fun a b => (r_createdAt b <= r_createdAt a)%Z) listed /\
        (consistent s ->
         listed = map (fun l => formatLinkResponse l (link_embedding l)
                                  (tags_of_link (link_id l) s)) found)
  | Refusal code _ => code = 401 /\ req_user req = None
  end.
Proof.
  unfold getLinks. destruct (req_user req) as [user|]; [ | now split ].
  split; [ reflexivity | ]. exists user, (findMany (user_id user) s).
  destruct (findMany_spec (user_id user) s) as [Hperm Hsorted].
  split; [ reflexivity | split; [ exact Hperm | split; [ | split ] ] ].
  - rewrite map_map. reflexivity.
  - apply StronglySorted_map. exact Hsorted.
  - intros Hc. apply map_ext_in. intros l Hl. unfold getTagsForLink.
    rewrite embedding_or_null_unique; [ reflexivity | apply Hc | | now apply in_map ].
    apply (Permutation_in _ Hperm) in Hl. unfold owned_by in Hl.
    now apply filter_In in Hl.
Qed.

(** X6.  [getLinkById] answers 200 only with a Record that carries the
    requested id and belongs to the requesting user.  Otherwise it
    answers 401 (no user) or 404, and 404 exactly when no Record of the
    user carries the id: a Record of somebody else is answered like one
    that does not exist. *)
Theorem getLinkById_answers_for_own_records_only (req : request) (s : store) :
  match getLinkById req s with
  | Answer code r =>
      code = 200 /\
      exists user l,
        req_user req = Some user /\ In l (links s) /\
        link_id l = req_id req /\ link_user_id l = user_id user /\
        r = formatLinkResponse l (embedding_of_link (req_id req) s)
              (tags_of_link (req_id req) s) /\
        (consistent s -> r_embedding r = link_embedding l)
  | Refusal code _ =>
      (code = 401 /\ req_user req = None) \/
      (code = 404 /\
       exists user, req_user req = Some user /\
         forall l, In l (links s) -> link_id l = req_id req ->
                   link_user_id l <> user_id user)
  end.
Proof.
  unfold getLinkById. destruct (req_user req) as [user|]; [ | left; now split ].
  unfold findUnique.
  destruct (find (fun l => (link_id l =? req_id req) && (link_user_id l =? user_id user))
              (links s)) as [l|] eqn:E.
  - apply find_some in E. destruct E as [Hin Hl].
    apply andb_true_iff in Hl. destruct Hl as [Hid Hu].
    apply Nat.eqb_eq in Hid. apply Nat.eqb_eq in Hu.
    split; [ reflexivity | ]. exists user, l.
    split; [ reflexivity | split; [ exact Hin | split; [ exact Hid | split; [ exact Hu | ] ] ] ].
    unfold getTagsForLink. rewrite Hid. split; [ reflexivity | ].
    intro Hc. cbn [r_embedding formatLinkResponse]. rewrite <- Hid.
    apply embedding_of_link_unique; [ apply Hc | exact Hin ].
  - right. split; [ reflexivity | ]. exists user. split; [ reflexivity | ].
    intros l Hin Hid Hu. pose proof (find_none _ _ E l Hin) as H. cbn in H.
    rewrite Hid, Hu, !Nat.eqb_refl in H. discriminate.
Qed.

End Reads.

(** ** Writing and reading back *)

Section WriteThenRead.
Import OpenAiUtils LinkController LinkReads.

Lemma two_users_consistent : consistent Cases.two_users.
Proof.
  constructor.
  - change (NoDup [2; 3; 5]). repeat constructor; cbn; intuition discriminate.
  - change (NoDup [4; 6]). repeat constructor; cbn; intuition discriminate.
  - change (NoDup ["Blog"; "News"]). repeat constructor; cbn; intuition discriminate.
  - change (NoDup [(2, 4); (3, 4); (5, 6)]). repeat constructor; cbn; intuition discriminate.
  - intros l [<-|[<-|[<-|[]]]]; cbn; auto.
  - intros p [<-|[<-|[<-|[]]]]; cbn; auto 6.
Qed.

(** What [createLink] does, case by case: it leaves the store alone and
    does not answer 201, or it ran to its end. *)
Lemma createLink_outcome (w : world) (req : request) (s : store) :
  (snd (createLink w req s) = s /\ status (fst (createLink w req s)) <> 201) \/
  (exists user url vec newLink s3,
     req_user req = Some user /\
     validate_createLink w (req_body req) = Some url /\
     user_exists (user_id user) s = true /\
     newest (records_of url (user_id user)
               (with_links (links s ++ [ingested_row w url (user_id user) vec s]) s))
       = Some newLink /\
     link_each_tag (link_id newLink) (generateTags w (UrlUtils.extractUrlContent w url))
       (with_links (links s ++ [ingested_row w url (user_id user) vec s]) s)
       = (Resolved tt, s3) /\
     createLink w req s =
       (reply 201
          (LinkPayload "Link created successfully"
             (formatLinkResponse newLink (embedding_of_link (link_id newLink) s3)
                (getTagsForLink (link_id newLink) s3))),
        s3)).
Proof.
  unfold createLink.
  destruct (req_user req) as [user|]; [ | left; split; [ reflexivity | discriminate ] ].
  destruct (validate_createLink w (req_body req)) as [url|];
    [ | left; split; [ reflexivity | discriminate ] ].
  destruct (generateEmbedding w (UrlUtils.extractUrlContent w url)) as [v|e] eqn:Eg;
    [ | left; split; [ reflexivity | discriminate ] ].
  destruct (generateEmbedding_resolved _ _ _ Eg) as (_ & Hlen & Hfin).
  rewrite Hlen. change (negb (1536 =? 1536)) with false. cbv iota.
  unfold insert_link.
  destruct (vector_in v) as [vec|] eqn:Ev;
    [ | left; split; [ reflexivity | discriminate ] ].
  destruct (user_exists (user_id user) s) eqn:Eu;
    [ | left; split; [ reflexivity | discriminate ] ].
  right. exists user, url, vec.
  fold (ingested_row w url (user_id user) vec s).
  set (s1 := with_links (links s ++ [ingested_row w url (user_id user) vec s]) s).
  unfold findFirst. fold (records_of url (user_id user) s1).
  assert (Hne : records_of url (user_id user) s1 <> []).
  { unfold records_of. cbn. rewrite filter_app. cbn.
    rewrite String.eqb_refl, Nat.eqb_refl. cbn.
    intro H. apply app_eq_nil in H. destruct H as [_ H]. discriminate. }
  destruct (newest_nonempty _ Hne) as (newLink & En). rewrite En.
  assert (Hex : link_exists (link_id newLink) s1 = true).
  { apply link_exists_In, in_map. apply newest_In in En. unfold records_of in En.
    now apply filter_In in En. }
  destruct (link_each_tag_returns (link_id newLink)
              (generateTags w (UrlUtils.extractUrlContent w url)) s1 Hex) as (s3 & E3).
  exists newLink, s3. unfold createTagsForLink. rewrite E3.
  split; [ reflexivity | split; [ reflexivity | split; [ exact Eu | ] ] ].
  split; [ reflexivity | split; reflexivity ].
Qed.

Lemma newest_of_records (url : string) (user : uuid) (s : store) (l : link) :
  newest (records_of url user s) = Some l ->
  In l (links s) /\ link_url l = url /\ link_user_id l = user.
Proof.
  intro H. apply newest_In in H. unfold records_of in H. apply filter_In in H.
  destruct H as [Hin H]. apply andb_true_iff in H. destruct H as [Hu Hn].
  apply String.eqb_eq in Hu. apply Nat.eqb_eq in Hn. auto.
Qed.

(** X7.  A Record that [createLink] reports as created can be read back:
    in a store that satisfies the constraints of the schema, after a 201
    answer [getLinkById] with the id of the answer returns to the same
    user exactly the link object of the answer, [getLinks] lists it, and
    the store still satisfies the constraints. *)
Theorem created_record_is_read_back (w : world) (req : request) (s : store)
  (message : string) (r : LinkResponse) :
  consistent s ->
  fst (createLink w req s) = reply 201 (LinkPayload message r) ->
  getLinkById {| req_user := req_user req; req_id := r_id r; req_body := Undefined |}
    (snd (createLink w req s)) = Answer 200 r /\
  (exists listed, getLinks req (snd (createLink w req s)) = Answer 200 listed /\ In r listed) /\
  consistent (snd (createLink w req s)).
Proof.
  intros Hc H.
  destruct (createLink_outcome w req s)
    as [[_ Hno]|(user & url & vec & newLink & s3 & Hu & Hv & Hex & Hn & E & Hall)].
  { rewrite H in Hno. now contradiction Hno. }
  rewrite Hall in H |- *. cbn [fst snd] in H |- *.
  injection H as _ <-.
  set (s1 := with_links (links s ++ [ingested_row w url (user_id user) vec s]) s) in *.
  destruct (ingested_consistent w url (user_id user) vec s Hc Hex) as (Hc1 & _).
  fold s1 in Hc1.
  destruct (newest_of_records _ _ _ _ Hn) as (Hin1 & _ & Howner).
  assert (Hex1 : link_exists (link_id newLink) s1 = true)
    by (now apply link_exists_In, in_map).
  destruct (link_each_tag_consistent (link_id newLink)
              (generateTags w (UrlUtils.extractUrlContent w url)) s1 Hc1 Hex1)
    as (s' & gained & E' & Hc3 & _ & Hlinks & _).
  rewrite E in E'. injection E' as <-.
  assert (Hin3 : In newLink (links s3)) by (now rewrite Hlinks).
  pose proof (link_ids_unique _ Hc3) as Hnd.
  split; [ | split; [ | exact Hc3 ] ].
  - unfold getLinkById. cbn [req_user req_id r_id formatLinkResponse]. rewrite Hu.
    rewrite <- Howner. rewrite (findUnique_own s3 newLink Hnd Hin3). reflexivity.
  - unfold getLinks. rewrite Hu. eexists. split; [ reflexivity | ].
    apply in_map_iff. exists newLink.
    assert (Hfound : In newLink (findMany (user_id user) s3)).
    { apply (Permutation_in _ (Permutation_sym (proj1 (findMany_spec (user_id user) s3)))).
      unfold owned_by. apply filter_In. split; [ exact Hin3 | ].
      rewrite Howner. apply Nat.eqb_refl. }
    split; [ | exact Hfound ].
    rewrite (embedding_or_null_unique _ s3 newLink Hnd Hin3) by (now apply in_map).
    now rewrite (embedding_of_link_unique s3 newLink Hnd Hin3).
Qed.

(** X7 on a sample: the first Record of a fresh store. *)
Lemma created_record_is_read_back_sample :
  exists r,
    fst (createLink Sample.online (Sample.save_request "https://example.com/a")
           Sample.fresh_store) = reply 201 (LinkPayload "Link created successfully" r) /\
    r_id r = 2 /\
    getLinkById {| req_user := Some Sample.alice; req_id := 2; req_body := Undefined |}
      (snd (createLink Sample.online (Sample.save_request "https://example.com/a")
              Sample.fresh_store)) = Answer 200 r.
Proof.
  eexists. split; [ vm_compute; reflexivity | ]. split; [ reflexivity | ].
  match goal with
  | |- getLinkById _ _ = Answer 200 ?r =>
      assert (H : fst (createLink Sample.online (Sample.save_request "https://example.com/a")
                         Sample.fresh_store) =
                  reply 201 (LinkPayload "Link created successfully" r))
        by (vm_compute; reflexivity);
      exact (proj1 (created_record_is_read_back Sample.online
                      (Sample.save_request "https://example.com/a") Sample.fresh_store
                      "Link created successfully" r fresh_store_consistent H))
  end.
Defined.

End WriteThenRead.

(** ** What the write endpoints change *)

Section Writes.
Import OpenAiUtils LinkController LinkReads.

Lemma filter_filter_neq (a b : uuid) (ps : list (uuid * uuid)) :
  a <> b ->
  filter (fun p => fst p =? a) (filter (fun p => negb (fst p =? b)) ps) =
  filter (fun p => fst p =? a) ps.
Proof.
  intro Hab. induction ps as [|p ps IH]; [ reflexivity | ].
  cbn [filter].
  match goal with
  | |- context [negb (?x =? b)] => destruct (Nat.eqb_spec x b) as [Eb|Eb]
  end; cbn [negb filter]; rewrite IH; [ | reflexivity ].
  match goal with
  | |- context [if ?x =? a then _ else _] => destruct (Nat.eqb_spec x a) as [Ea|Ea]
  end; [ | reflexivity ].
  exfalso. apply Hab. now rewrite <- Ea, <- Eb.
Qed.

Lemma pairs_of_other (a b : uuid) (s s' : store) :
  a <> b -> tag_links_of_others b s' = tag_links_of_others b s ->
  filter (fun p => fst p =? a) (link_to_tag s') = filter (fun p => fst p =? a) (link_to_tag s).
Proof.
  intros Hab H. unfold tag_links_of_others in H.
  rewrite <- (filter_filter_neq a b (link_to_tag s') Hab), H.
  now apply filter_filter_neq.
Qed.

Lemma tags_of_link_In (id : uuid) (s : store) (t : tag) :
  In t (tags s) -> In (id, tag_id t) (link_to_tag s) -> In t (tags_of_link id s).
Proof.
  intros Ht Hp. unfold tags_of_link. apply in_flat_map. exists (id, tag_id t).
  split; [ exact Hp | ]. cbn [fst snd]. rewrite Nat.eqb_refl.
  apply filter_In. split; [ exact Ht | apply Nat.eqb_refl ].
Qed.

Lemma tags_of_link_In_inv (id : uuid) (s : store) (t : tag) :
  In t (tags_of_link id s) -> In t (tags s) /\ In (id, tag_id t) (link_to_tag s).
Proof.
  unfold tags_of_link. intro H. apply in_flat_map in H. destruct H as ([a b] & Hp & H).
  cbn [fst snd] in H. destruct (Nat.eqb_spec a id) as [->|]; [ | destruct H ].
  apply filter_In in H. destruct H as [Ht Hb]. apply Nat.eqb_eq in Hb.
  split; [ exact Ht | ]. now rewrite Hb.
Qed.

(** No Record carries a tag name twice. *)
Lemma tag_names_NoDup (id : uuid) (s : store) :
  consistent s -> NoDup (tag_names_of id s).
Proof.
  intros [_ C2 C3 C4 _ _]. unfold tag_names_of, getTagsForLink.
  assert (Hinv : forall ps t,
             In t (flat_map (fun p => if fst p =? id
                                      then filter (fun t => tag_id t =? snd p) (tags s)
                                      else []) ps) ->
             In t (tags s) /\ In (id, tag_id t) ps).
  { intros ps t H. apply in_flat_map in H. destruct H as ([a b] & Hp & H).
    cbn [fst snd] in H. destruct (Nat.eqb_spec a id) as [->|]; [ | destruct H ].
    apply filter_In in H. destruct H as [Ht Hb]. apply Nat.eqb_eq in Hb.
    split; [ exact Ht | ]. now rewrite Hb. }
  unfold tags_of_link. revert C4.
  induction (link_to_tag s) as [|p ps IH]; intros Hnd; [ constructor | ].
  apply NoDup_cons_iff in Hnd. destruct Hnd as [Hp Hnd].
  cbn [flat_map]. rewrite map_app. apply NoDup_app.
  - match goal with
    | |- context [if ?b then _ else _] => destruct b
    end; [ now apply NoDup_map_filter | constructor ].
  - now apply IH.
  - intros name Ha Hb.
    apply in_map_iff in Ha. destruct Ha as (t & Et & Ht).
    apply in_map_iff in Hb. destruct Hb as (t' & Et' & Ht').
    match type of Ht with
    | context [if ?x =? id then _ else _] => destruct (Nat.eqb_spec x id) as [Ep|Ep]
    end; [ | destruct Ht ].
    apply filter_In in Ht. destruct Ht as [Ht Hid]. apply Nat.eqb_eq in Hid.
    destruct (Hinv ps t' Ht') as [Hin' Hpair].
    assert (t' = t).
    { apply (NoDup_map_injective tag_name (tags s) t' t C3 Hin' Ht). congruence. }
    subst t'. apply Hp. destruct p as [a b]. cbn [fst snd] in *. subst a.
    unfold uuid in *. now rewrite <- Hid.
Qed.

Lemma upsert_tag_appends (name : string) (s : store) :
  exists added, tags (snd (upsert_tag name s)) = tags s ++ added.
Proof.
  rewrite upsert_tag_unfold. destruct (find _ (tags s)) as [t|]; cbn.
  - exists []. now rewrite app_nil_r.
  - now eexists.
Qed.

Lemma link_each_tag_appends (id : uuid) (names : list string) (s : store) :
  exists added, tags (snd (link_each_tag id names s)) = tags s ++ added.
Proof.
  revert s. induction names as [|name names IH]; intro s.
  - exists []. cbn. now rewrite app_nil_r.
  - rewrite link_each_tag_cons.
    destruct (upsert_tag_appends name s) as (a1 & E1).
    destruct (upsert_tag name s) as [[t|e] s1]; cbn [snd] in E1.
    + pose proof (insert_link_to_tag_frame id (tag_id t) s1) as Hf. cbn zeta in Hf.
      destruct Hf as (_ & _ & Ht).
      destruct (insert_link_to_tag id (tag_id t) s1) as [[u|e] s2]; cbn [snd] in Ht |- *.
      * destruct (IH s2) as (a2 & E2). exists (a1 ++ a2).
        now rewrite E2, Ht, E1, app_assoc.
      * exists a1. now rewrite Ht.
    + now exists a1.
Qed.

Lemma createTagsForLink_appends (id : uuid) (names : list string) (s : store) :
  exists added, tags (snd (createTagsForLink id names s)) = tags s ++ added.
Proof.
  destruct (link_each_tag_appends id names s) as (added & E). exists added.
  unfold createTagsForLink. now destruct (link_each_tag id names s) as [[u|e] s'].
Qed.

Lemma apply_update_appends (w : world) (id : uuid) (data : update_data) (s : store) :
  exists added, tags (snd (apply_update w id data s)) = tags s ++ added.
Proof.
  unfold apply_update, bind.
  pose proof (update_link_frame id (upd_title data) (upd_summary data) (now w) s) as Hf.
  cbn zeta in Hf. destruct Hf as (_ & Ht & _).
  destruct (update_link id (upd_title data) (upd_summary data) (now w) s) as [[updated|e] s1];
    cbn [snd] in Ht |- *.
  2:{ exists []. now rewrite Ht, app_nil_r. }
  destruct (upd_tags data) as [names|].
  - destruct (deleteTagsForLink_frame id s1) as (s2 & E2 & _ & _ & Ht2 & _).
    rewrite E2.
    destruct (createTagsForLink_appends id names s2) as (added & Ea).
    exists added.
    destruct (createTagsForLink id names s2) as [[u|e] s3]; cbn [snd] in Ea |- *;
      now rewrite Ea, Ht2, Ht.
  - cbn. exists []. now rewrite Ht, app_nil_r.
Qed.

Lemma serve_appends (op : operation) (s : store) :
  users (snd (serve op s)) = users s /\
  exists added, tags (snd (serve op s)) = tags s ++ added.
Proof.
  destruct op as [w req|w req|w req]; cbn [serve].
  - destruct (createLink_outcome w req s)
      as [[-> _]|(user & url & vec & newLink & s3 & _ & _ & _ & _ & E & ->)].
    + split; [ reflexivity | exists []; now rewrite app_nil_r ].
    + cbn [snd].
      destruct (link_each_tag_frame (link_id newLink)
                  (generateTags w (UrlUtils.extractUrlContent w url))
                  (with_links (links s ++ [ingested_row w url (user_id user) vec s]) s))
        as [Hu _].
      destruct (link_each_tag_appends (link_id newLink)
                  (generateTags w (UrlUtils.extractUrlContent w url))
                  (with_links (links s ++ [ingested_row w url (user_id user) vec s]) s))
        as (added & Ha).
      rewrite E in Hu, Ha. cbn [snd] in Hu, Ha. split; [ exact Hu | now exists added ].
  - unfold updateLink.
    destruct (req_user req) as [user|];
      [ | split; [ reflexivity | exists []; now rewrite app_nil_r ] ].
    destruct (validate_updateLink (req_body req)) as [data|];
      [ | split; [ reflexivity | exists []; now rewrite app_nil_r ] ].
    unfold findUnique.
    destruct (find _ (links s)) as [l|];
      [ | split; [ reflexivity | exists []; now rewrite app_nil_r ] ].
    pose proof (apply_update_frame w (req_id req) data s) as Hf. cbn zeta in Hf.
    destruct Hf as (Hu & _).
    destruct (apply_update_appends w (req_id req) data s) as (added & Ha).
    destruct (apply_update w (req_id req) data s) as [[r|e] s2]; cbn [snd] in *;
      (split; [ exact Hu | now exists added ]).
  - unfold deleteLink.
    destruct (req_user req) as [user|];
      [ | split; [ reflexivity | exists []; now rewrite app_nil_r ] ].
    unfold findUnique.
    destruct (find _ (links s)) as [l|];
      [ | split; [ reflexivity | exists []; now rewrite app_nil_r ] ].
    unfold delete_link. destruct (link_exists (req_id req) s); cbn;
      (split; [ reflexivity | exists []; now rewrite app_nil_r ]).
Qed.

(** X8.  No sequence of link requests removes or changes a row of the
    tag table or touches the user table: the tags after the requests are
    the tags before them, in place, followed by the rows the requests
    added.  A tag that no Record carries any more stays in the table. *)
Theorem serve_all_only_adds_tags (ops : list operation) (s : store) :
  users (serve_all ops s) = users s /\
  exists added, tags (serve_all ops s) = tags s ++ added.
Proof.
  revert s. induction ops as [|op ops IH]; intro s; cbn [serve_all].
  - split; [ reflexivity | exists []; now rewrite app_nil_r ].
  - destruct (serve_appends op s) as (Hu & a1 & E1).
    destruct (IH (snd (serve op s))) as (Hu' & a2 & E2).
    split; [ now rewrite Hu', Hu | ].
    exists (a1 ++ a2). now rewrite E2, E1, app_assoc.
Qed.

End Writes.

Section OwnedWrites.
Import OpenAiUtils LinkController LinkReads.

Lemma without_links_consistent (f : uuid * uuid -> bool) (s : store) :
  consistent s -> consistent (with_link_to_tag (filter f (link_to_tag s)) s).
Proof.
  intros [C1 C2 C3 C4 C5 C6].
  constructor; cbn [users links tags link_to_tag with_link_to_tag]; auto.
  - now apply NoDup_filter.
  - intros p Hp. apply filter_In in Hp. now apply C6.
Qed.

Lemma tags_of_link_without (id id' : uuid) (s : store) :
  tags_of_link id'
    (with_link_to_tag (filter (fun p => negb (fst p =? id)) (link_to_tag s)) s) =
  if id' =? id then [] else tags_of_link id' s.
Proof.
  exact (tags_of_link_delete id id' s).
Qed.

Lemma updated_ids (id : uuid) (f : link -> link) (ls : list link) :
  (forall r, link_id (f r) = link_id r) ->
  map link_id (map (fun r => if link_id r =? id then f r else r) ls) = map link_id ls.
Proof.
  intro H. rewrite map_map. apply map_ext. intro r. destruct (link_id r =? id); auto.
Qed.

(** What the body of [updateLink] does to a store that satisfies the
    constraints of the schema and holds the row [l0] under the key. *)
Lemma apply_update_spec (w : world) (id : uuid) (data : update_data) (s : store) (l0 : link) :
  consistent s -> find (fun l => link_id l =? id) (links s) = Some l0 ->
  exists s',
    apply_update w id data s =
      (Resolved
         (reply 200
            (LinkPayload "Link updated successfully"
               (formatLinkResponse
                  (set_title_summary (upd_title data) (upd_summary data) (now w) l0)
                  (embedding_of_link id s') (getTagsForLink id s')))),
       s') /\
    consistent s' /\
    links s' = map (fun r => if link_id r =? id
                             then set_title_summary (upd_title data) (upd_summary data) (now w) r
                             else r) (links s) /\
    (forall id', id' <> id -> tags_of_link id' s' = tags_of_link id' s) /\
    match upd_tags data with
    | Some names => forall name, In name (tag_names_of id s') <-> In name names
    | None => tags_of_link id s' = tags_of_link id s
    end.
Proof.
  intros Hc Hfind.
  pose proof (update_link_consistent id (upd_title data) (upd_summary data) (now w) s Hc) as Hc1.
  unfold apply_update, bind. unfold update_link in Hc1 |- *. rewrite Hfind in Hc1 |- *.
  cbn [snd] in Hc1.
  set (s1 := with_links
               (map (fun r => if link_id r =? id
                              then set_title_summary (upd_title data) (upd_summary data) (now w) r
                              else r) (links s)) s) in *.
  destruct (upd_tags data) as [names|].
  2:{ exists s1. cbn [ret]. split; [ reflexivity | split; [ exact Hc1 | ] ].
      split; [ reflexivity | split; reflexivity ]. }
  unfold deleteTagsForLink, delete_link_to_tag.
  set (s2 := with_link_to_tag (filter (fun p => negb (fst p =? id)) (link_to_tag s1)) s1).
  pose proof (without_links_consistent (fun p => negb (fst p =? id)) s1 Hc1) as Hc2.
  fold s2 in Hc2.
  assert (Hex2 : link_exists id s2 = true).
  { apply link_exists_In. cbn [links s2 s1 with_links with_link_to_tag].
    rewrite updated_ids by reflexivity.
    apply find_some in Hfind. destruct Hfind as [Hin Hid]. apply Nat.eqb_eq in Hid.
    rewrite <- Hid. now apply in_map. }
  destruct (link_each_tag_consistent id names s2 Hc2 Hex2)
    as (s' & gained & E & Hc' & _ & Hlinks & _ & _ & Hother & Hself & Hnames & _ & Hall).
  unfold createTagsForLink. rewrite E. exists s'.
  split; [ reflexivity | split; [ exact Hc' | split; [ exact Hlinks | split ] ] ].
  - intros id' Hne. rewrite (Hother id' Hne). unfold s2. rewrite tags_of_link_without.
    apply Nat.eqb_neq in Hne. now rewrite Hne.
  - intro name. unfold tag_names_of, getTagsForLink. rewrite Hself.
    unfold s2 at 1. rewrite tags_of_link_without, Nat.eqb_refl. cbn [app].
    split; [ apply Hnames | ]. intro Hin.
    destruct (Hall name Hin) as (t & Ht & <- & Hp).
    apply in_map. rewrite <- (app_nil_l gained).
    replace (@nil tag) with (tags_of_link id s2)
      by (unfold s2; now rewrite tags_of_link_without, Nat.eqb_refl).
    rewrite <- Hself. now apply tags_of_link_In.
Qed.

Lemma findUnique_found (id user : uuid) (s : store) (l : link) :
  In l (links s) -> link_id l = id -> link_user_id l = user ->
  exists found, findUnique id user s = (Resolved (Some found), s) /\
    In found (links s) /\ link_id found = id /\ link_user_id found = user.
Proof.
  intros Hin Hid Hu. unfold findUnique.
  destruct (find (fun r => (link_id r =? id) && (link_user_id r =? user)) (links s))
    as [found|] eqn:E.
  - exists found. apply find_some in E. destruct E as [Hf H].
    apply andb_true_iff in H. destruct H as [H1 H2].
    apply Nat.eqb_eq in H1. apply Nat.eqb_eq in H2. auto.
  - pose proof (find_none _ _ E l Hin) as H. cbn in H.
    rewrite Hid, Hu, !Nat.eqb_refl in H. discriminate.
Qed.

(** X9.  An update of a Record of one's own succeeds and sets what the
    request carries.  In a store that satisfies the constraints of the
    schema, [updateLink] for a Record of the requesting user and a valid
    body answers 200; the link object it returns has the new title and
    summary where the body gives one and the stored ones where it does
    not; its tags are those of the Record after the update, none twice;
    with a [tags] array the Record's tags become exactly the names of the
    array, whatever they are, and without one they stay as they were. *)
Theorem updateLink_sets_title_summary_tags (w : world) (req : request) (s : store)
  (user : auth_user) (data : update_data) (l : link) :
  consistent s -> req_user req = Some user ->
  validate_updateLink (req_body req) = Some data ->
  In l (links s) -> link_id l = req_id req -> link_user_id l = user_id user ->
  exists r,
    fst (updateLink w req s) = reply 200 (LinkPayload "Link updated successfully" r) /\
    consistent (snd (updateLink w req s)) /\
    r_title r = match upd_title data with Some t => Some t | None => link_title l end /\
    r_summary r = match upd_summary data with Some t => Some t | None => link_summary l end /\
    r_tags r = tag_names_of (req_id req) (snd (updateLink w req s)) /\
    NoDup (r_tags r) /\
    match upd_tags data with
    | Some names => forall name, In name (r_tags r) <-> In name names
    | None => r_tags r = tag_names_of (req_id req) s
    end.
Proof.
  intros Hc Hu Hv Hin Hid Howner.
  pose proof (link_ids_unique _ Hc) as Hnd.
  assert (Hfind : find (fun r => link_id r =? req_id req) (links s) = Some l)
    by (rewrite <- Hid; now apply find_by_id).
  unfold updateLink. rewrite Hu, Hv.
  rewrite <- Hid, <- Howner, (findUnique_own s l Hnd Hin), Hid.
  destruct (apply_update_spec w (req_id req) data s l Hc Hfind)
    as (s' & E & Hc' & _ & _ & Htags).
  rewrite E. cbn [fst snd]. eexists. split; [ reflexivity | ].
  cbn [r_title r_summary r_tags formatLinkResponse set_title_summary link_title link_summary].
  split; [ exact Hc' | split; [ reflexivity | split; [ reflexivity | split; [ reflexivity | ] ] ] ].
  split; [ now apply tag_names_NoDup | ].
  destruct (upd_tags data) as [names|]; [ exact Htags | ].
  unfold tag_names_of, getTagsForLink. now rewrite Htags.
Qed.

(** X10.  [deleteLink] for a Record of the requesting user answers 200 and
    removes that Record and its tag links and nothing else: every other
    Record and tag link stays, no tag is removed, and afterwards the
    Record can no longer be read ([getLinkById] answers 404) and has no
    tags. *)
Theorem deleteLink_removes_own_record (w : world) (req : request) (s : store)
  (user : auth_user) (l : link) :
  req_user req = Some user ->
  In l (links s) -> link_id l = req_id req -> link_user_id l = user_id user ->
  fst (deleteLink w req s) = reply 200 (Message "Link deleted successfully") /\
  (forall r, In r (links (snd (deleteLink w req s))) <->
             In r (links s) /\ link_id r <> req_id req) /\
  (forall p, In p (link_to_tag (snd (deleteLink w req s))) <->
             In p (link_to_tag s) /\ fst p <> req_id req) /\
  tags (snd (deleteLink w req s)) = tags s /\
  users (snd (deleteLink w req s)) = users s /\
  getLinkById req (snd (deleteLink w req s)) = Refusal 404 "Link not found" /\
  tag_names_of (req_id req) (snd (deleteLink w req s)) = [].
Proof.
  intros Hu Hin Hid Howner. unfold deleteLink. rewrite Hu.
  destruct (findUnique_found (req_id req) (user_id user) s l Hin Hid Howner)
    as (found & -> & _).
  unfold delete_link.
  assert (Hex : link_exists (req_id req) s = true)
    by (apply link_exists_In; rewrite <- Hid; now apply in_map).
  rewrite Hex. cbn [fst snd links link_to_tag tags users].
  split; [ reflexivity | split; [ | split; [ | split; [ reflexivity | split; [ reflexivity | ] ] ] ] ].
  - intro r. rewrite filter_In, negb_true_iff, Nat.eqb_neq. reflexivity.
  - intro p. rewrite filter_In, negb_true_iff, Nat.eqb_neq. reflexivity.
  - split.
    + unfold getLinkById. rewrite Hu. unfold findUnique. cbn [links].
      destruct (find _ (filter _ (links s))) as [y|] eqn:E; [ | reflexivity ].
      apply find_some in E. destruct E as [Hy Hf].
      apply filter_In in Hy. destruct Hy as [_ Hy].
      apply andb_true_iff in Hf. destruct Hf as [Hf _].
      rewrite Hf in Hy. discriminate.
    + unfold tag_names_of, getTagsForLink. rewrite tags_of_link_delete.
      now rewrite Nat.eqb_refl.
Qed.

(** X11.  A write request leaves the Records of everybody else alone.  In
    a store that satisfies the constraints of the schema, whatever link
    request is served (an ingestion, an update or a deletion, succeeding
    or not), a Record that does not belong to the user the request is
    served for is still there afterwards, unchanged in every field, with
    the same tag links and the same tags. *)
Theorem writes_leave_records_of_others (op : operation) (s : store) (l : link) :
  consistent s -> In l (links s) -> actor op <> Some (link_user_id l) ->
  In l (links (snd (serve op s))) /\
  filter (fun p => fst p =? link_id l) (link_to_tag (snd (serve op s))) =
    filter (fun p => fst p =? link_id l) (link_to_tag s) /\
  tag_names_of (link_id l) (snd (serve op s)) = tag_names_of (link_id l) s.
Proof.
  intros Hc Hin Hactor. pose proof (link_ids_unique _ Hc) as Hnd.
  destruct op as [w req|w req|w req]; cbn [serve actor] in *.
  - destruct (createLink_outcome w req s)
      as [[-> _]|(user & url & vec & newLink & s3 & Hu & _ & Hex & Hn & E & ->)];
      [ now repeat split | ].
    cbn [snd]. rewrite Hu in Hactor. cbn in Hactor.
    set (s1 := with_links (links s ++ [ingested_row w url (user_id user) vec s]) s) in *.
    destruct (ingested_consistent w url (user_id user) vec s Hc Hex) as (Hc1 & Hsame & _).
    fold s1 in Hc1, Hsame.
    destruct (newest_of_records _ _ _ _ Hn) as (Hin1 & _ & Howner).
    assert (Hl1 : In l (links s1)) by (cbn; apply in_or_app; now left).
    assert (Hne : link_id l <> link_id newLink).
    { intro Heq. apply Hactor. f_equal.
      rewrite (NoDup_map_injective link_id (links s1) l newLink (link_ids_unique _ Hc1) Hl1 Hin1 Heq).
      now symmetry. }
    assert (Hex1 : link_exists (link_id newLink) s1 = true)
      by (now apply link_exists_In, in_map).
    destruct (link_each_tag_consistent (link_id newLink)
                (generateTags w (UrlUtils.extractUrlContent w url)) s1 Hc1 Hex1)
      as (s' & gained & E' & _ & _ & Hlinks & _ & _ & Hother & _).
    rewrite E in E'. injection E' as <-.
    pose proof (link_each_tag_others (link_id newLink)
                  (generateTags w (UrlUtils.extractUrlContent w url)) s1) as Ho.
    rewrite E in Ho. cbn [snd] in Ho.
    split; [ now rewrite Hlinks | split ].
    + now rewrite (pairs_of_other (link_id l) (link_id newLink) s1 s3 Hne Ho).
    + unfold tag_names_of, getTagsForLink. now rewrite (Hother _ Hne), Hsame.
  - unfold updateLink.
    destruct (req_user req) as [user|]; [ | now repeat split ].
    destruct (validate_updateLink (req_body req)) as [data|]; [ | now repeat split ].
    unfold findUnique.
    destruct (find (fun r => (link_id r =? req_id req) && (link_user_id r =? user_id user))
                (links s)) as [found|] eqn:Ef; [ | now repeat split ].
    apply find_some in Ef. destruct Ef as [Hf H].
    apply andb_true_iff in H. destruct H as [H1 H2].
    apply Nat.eqb_eq in H1. apply Nat.eqb_eq in H2.
    assert (Hne : link_id l <> req_id req).
    { intro Heq. apply Hactor. cbn. f_equal.
      rewrite (NoDup_map_injective link_id (links s) l found Hnd Hin Hf) by congruence.
      now symmetry. }
    assert (Hfind : find (fun r => link_id r =? req_id req) (links s) = Some found)
      by (rewrite <- H1; now apply find_by_id).
    destruct (apply_update_spec w (req_id req) data s found Hc Hfind)
      as (s' & E & _ & Hlinks & Hother & _).
    pose proof (apply_update_frame w (req_id req) data s) as Hframe. cbn zeta in Hframe.
    destruct Hframe as (_ & _ & _ & Ho).
    rewrite E in Ho |- *. cbn [fst snd] in Ho |- *.
    split; [ | split ].
    + rewrite Hlinks. apply in_map_iff. exists l. split; [ | exact Hin ].
      apply Nat.eqb_neq in Hne. now rewrite Hne.
    + now apply (pairs_of_other (link_id l) (req_id req)).
    + unfold tag_names_of, getTagsForLink. now rewrite (Hother _ Hne).
  - unfold deleteLink.
    destruct (req_user req) as [user|]; [ | now repeat split ].
    unfold findUnique.
    destruct (find (fun r => (link_id r =? req_id req) && (link_user_id r =? user_id user))
                (links s)) as [found|] eqn:Ef; [ | now repeat split ].
    apply find_some in Ef. destruct Ef as [Hf H].
    apply andb_true_iff in H. destruct H as [H1 H2].
    apply Nat.eqb_eq in H1. apply Nat.eqb_eq in H2.
    assert (Hne : link_id l <> req_id req).
    { intro Heq. apply Hactor. cbn. f_equal.
      rewrite (NoDup_map_injective link_id (links s) l found Hnd Hin Hf) by congruence.
      now symmetry. }
    unfold delete_link. destruct (link_exists (req_id req) s); [ | now repeat split ].
    cbn [fst snd links link_to_tag].
    split; [ | split ].
    + apply filter_In. split; [ exact Hin | ]. now apply negb_true_iff, Nat.eqb_neq.
    + now apply filter_filter_neq.
    + unfold tag_names_of, getTagsForLink. rewrite tags_of_link_delete.
      apply Nat.eqb_neq in Hne. now rewrite Hne.
Qed.

End OwnedWrites.

Section OwnedWritesSamples.
Import LinkController LinkReads.

(** X9 on a sample: the first user retitles Record 2 and gives it the
    name "Work" twice. *)
Lemma updateLink_sets_title_summary_tags_sample :
  exists r,
    fst (updateLink Sample.offline
           (Cases.request_of Sample.alice 2
              (Obj [("title", Str "Read me"); ("tags", Arr [Str "Work"; Str "Work"])]))
           Cases.two_users) = reply 200 (LinkPayload "Link updated successfully" r) /\
    r_title r = Some "Read me" /\
    r_summary r = Some "About a page." /\
    r_tags r = ["Work"].
Proof.
  destruct (updateLink_sets_title_summary_tags Sample.offline
              (Cases.request_of Sample.alice 2
                 (Obj [("title", Str "Read me"); ("tags", Arr [Str "Work"; Str "Work"])]))
              Cases.two_users Sample.alice
              {| upd_title := Some "Read me"; upd_summary := None;
                 upd_tags := Some ["Work"; "Work"] |}
              (Cases.saved_by 1 2 "https://example.com/a" 10))
    as (r & H1 & _ & H2 & H3 & _).
  - exact two_users_consistent.
  - reflexivity.
  - reflexivity.
  - now left.
  - reflexivity.
  - reflexivity.
  - pose proof H1 as H. vm_compute in H. injection H as <-.
    eexists. split; [ exact H1 | ]. split; [ exact H2 | split; [ exact H3 | reflexivity ] ].
Defined.

(** X10 on a sample: the first user deletes Record 2. *)
Lemma deleteLink_removes_own_record_sample :
  fst (deleteLink Sample.offline (Cases.request_of Sample.alice 2 Undefined) Cases.two_users)
    = reply 200 (Message "Link deleted successfully") /\
  map link_id (links (snd (deleteLink Sample.offline
                             (Cases.request_of Sample.alice 2 Undefined) Cases.two_users)))
    = [3; 5] /\
  getLinkById (Cases.request_of Sample.alice 2 Undefined)
    (snd (deleteLink Sample.offline (Cases.request_of Sample.alice 2 Undefined)
            Cases.two_users)) = Refusal 404 "Link not found".
Proof.
  destruct (deleteLink_removes_own_record Sample.offline
              (Cases.request_of Sample.alice 2 Undefined) Cases.two_users Sample.alice
              (Cases.saved_by 1 2 "https://example.com/a" 10))
    as (H1 & _ & _ & _ & _ & H2 & _).
  - reflexivity.
  - now left.
  - reflexivity.
  - reflexivity.
  - split; [ exact H1 | split; [ reflexivity | exact H2 ] ].
Defined.

(** X11 on a sample: the first user asks for the deletion of Record 3,
    which belongs to the second. *)
Lemma writes_leave_records_of_others_sample :
  In (Cases.saved_by 7 3 "https://example.com/b" 20)
    (links (snd (serve (DeleteLink Sample.offline (Cases.request_of Sample.alice 3 Undefined))
                   Cases.two_users))) /\
  tag_names_of 3
    (snd (serve (DeleteLink Sample.offline (Cases.request_of Sample.alice 3 Undefined))
            Cases.two_users)) = ["Blog"].
Proof.
  destruct (writes_leave_records_of_others
              (DeleteLink Sample.offline (Cases.request_of Sample.alice 3 Undefined))
              Cases.two_users (Cases.saved_by 7 3 "https://example.com/b" 20))
    as (H1 & _ & H3).
  - exact two_users_consistent.
  - right. now left.
  - intro H. discriminate H.
  - split; [ exact H1 | ]. exact (eq_trans H3 eq_refl).
Defined.

End OwnedWritesSamples.

(** ** The chat endpoint reads the requesting user's Records only *)

Section ChatScope.
Import OpenAiUtils ChatController.

Lemma matching_shows (w : world) (q : vector) (user : uuid) (s : store) (l : link)
  (r : match_row) :
  In l (links s) -> matching w q Float8.zero user l = Some r -> shows_record_of user s r.
Proof.
  intros Hin H. exists l. destruct (matching_some w q Float8.zero user l r H)
    as (Hu & e & _ & _ & _ & Hgt).
  apply gt_above in Hgt.
  unfold matching in H.
  destruct (link_user_id l =? user); [ | discriminate ].
  destruct (link_embedding l) as [embedding|]; [ | discriminate ].
  destruct (Float8.gt (similarity w embedding q) Float8.zero); [ | discriminate ].
  injection H as <-.
  split; [ exact Hin | split; [ exact Hu | ] ].
  repeat (split; [ reflexivity | ]). exact Hgt.
Qed.

Lemma rpc_match_links_shows (w : world) (queryEmbedding : list value) (user : uuid)
  (s : store) (rows : list match_row) :
  rpc_match_links w queryEmbedding chat_match_threshold chat_match_count user s
    = Resolved rows ->
  List.length rows <= 5 /\ Forall (shows_record_of user s) rows.
Proof.
  unfold rpc_match_links, match_links, chat_match_count, chat_match_threshold.
  destruct (vector_in queryEmbedding) as [q|]; [ | discriminate ].
  change (5 <? 0)%Z with false. cbv iota. intro H. injection H as <-.
  set (sorted := order_by_similarity_desc (select_where w q Float8.zero user (links s))).
  split; [ exact (firstn_le_length 5 sorted) | ].
  apply Forall_forall. intros r Hr. apply (In_firstn 5 sorted r) in Hr. unfold sorted in Hr.
  apply (Permutation_in _ (Permutation_sym (order_by_perm _))) in Hr.
  apply select_where_In in Hr. destruct Hr as (l & Hin & Hm).
  now apply (matching_shows w q user s l).
Qed.

(** X12.  Whatever the chat endpoint answers with status 200 comes from
    Records of the requesting user: the answer generator is handed, and
    the client is returned, at most five rows, each of which shows the
    id, URL, title, domain and summary of a Record of that user, with a
    similarity the store puts above 0 (a number greater than 0, or NaN,
    the similarity of a zero vector).  No Record of another user reaches
    the prompt or the response. *)
Theorem chatWithLinks_uses_own_records_only (w : world) (req : request) (s : store)
  (answer : string) (ranked : list FormattedLink) :
  chatWithLinks w req s = reply 200 (ChatPayload answer ranked) ->
  exists user query rows,
    req_user req = Some user /\
    validate_chatQuery (req_body req) = Some query /\
    answer = generateChatResponse w query (map as_context rows) /\
    ranked = map (format_link w) rows /\
    List.length rows <= 5 /\
    Forall (shows_record_of (user_id user) s) rows.
Proof.
  unfold chatWithLinks.
  destruct (req_user req) as [user|]; [ | discriminate ].
  destruct (validate_chatQuery (req_body req)) as [query|]; [ | discriminate ].
  destruct (generateEmbedding w ("This is about: " +++ query)) as [queryEmbedding|];
    [ | discriminate ].
  destruct (rpc_match_links w queryEmbedding chat_match_threshold chat_match_count
              (user_id user) s) as [rows|] eqn:E; [ | discriminate ].
  destruct (rpc_match_links_shows _ _ _ _ _ E) as [Hlen Hown].
  intro H. exists user, query, rows.
  split; [ reflexivity | split; [ reflexivity | ] ].
  destruct rows as [|r rows]; injection H as <- <-; repeat split; assumption.
Qed.

(** X12 on a sample: the user who saved one URL twice asks a question. *)
Lemma chatWithLinks_uses_own_records_only_sample :
  exists answer ranked,
    chatWithLinks Sample.online (Sample.chat_request_of "what did I save?")
      Sample.saved_twice = reply 200 (ChatPayload answer ranked) /\
    map f_id ranked = [2; 5] /\
    exists rows, ranked = map (format_link Sample.online) rows /\
                 Forall (shows_record_of 1 Sample.saved_twice) rows.
Proof.
  assert (E : exists answer ranked,
             chatWithLinks Sample.online (Sample.chat_request_of "what did I save?")
               Sample.saved_twice = reply 200 (ChatPayload answer ranked) /\
             map f_id ranked = [2; 5])
    by (eexists; eexists; split; vm_compute; reflexivity).
  destruct E as (answer & ranked & E & Hids).
  destruct (chatWithLinks_uses_own_records_only _ _ _ _ _ E)
    as (user & query & rows & Hu & _ & _ & Hr & _ & Hown).
  injection Hu as <-.
  exists answer, ranked. split; [ exact E | split; [ exact Hids | ] ].
  exists rows. split; [ exact Hr | exact Hown ].
Defined.

End ChatScope.

(** ** The preview shows what an ingestion stores *)

Section Preview.
Import OpenAiUtils LinkController LinkReads.

(** X13.  The preview of a URL shows what saving it stores, as long as
    the outside services answer both requests alike.  In a store that
    satisfies the constraints of the schema and whose Records are all
    older than the store's clock, when [createLink] answers 201 for a
    URL, the Record it added has the URL, title, image, domain and
    summary of the preview [previewLink] answers for that URL, and its
    tags are exactly the tags of the preview. *)
Theorem previewLink_shows_what_createLink_stores (w : world) (req : request) (s : store)
  (url : string) :
  consistent s ->
  (forall l, In l (links s) -> (link_created_at l < now w)%Z) ->
  validate_createLink w (req_body req) = Some url -> url <> "" ->
  status (fst (createLink w req s)) = 201 ->
  exists p row,
    previewLink w (Str url) = Answer 200 p /\
    links (snd (createLink w req s)) = links s ++ [row] /\
    link_url row = p_url p /\ link_title row = p_title p /\
    link_image row = p_image p /\ link_domain row = Some (p_domain p) /\
    link_summary row = Some (p_summary p) /\
    (forall name, In name (tag_names_of (link_id row) (snd (createLink w req s))) <->
                  In name (p_tags p)).
Proof.
  intros Hc Hclock Hv Hurl H201.
  destruct (createLink_outcome w req s)
    as [[_ Hno]|(user & url' & vec & newLink & s3 & Hu & Hv' & Hex & Hn & E & Hall)];
    [ contradiction | ].
  rewrite Hv in Hv'. injection Hv' as <-.
  rewrite Hall. cbn [fst snd].
  set (row := ingested_row w url (user_id user) vec s) in *.
  set (s1 := with_links (links s ++ [row]) s) in *.
  destruct (ingested_consistent w url (user_id user) vec s Hc Hex)
    as (Hc1 & _ & Hnone & Hex1).
  fold row in Hc1, Hnone, Hex1. fold s1 in Hc1, Hnone, Hex1.
  assert (Hnew : newLink = row).
  { unfold records_of in Hn. cbn [links with_links s1] in Hn. rewrite filter_app in Hn.
    cbn [filter] in Hn.
    replace (String.eqb (link_url row) url && (link_user_id row =? user_id user)) with true in Hn
      by (cbn; now rewrite String.eqb_refl, Nat.eqb_refl).
    rewrite newest_last in Hn; [ congruence | ].
    intros o Ho. apply filter_In in Ho. destruct Ho as [Ho _]. now apply Hclock. }
  subst newLink. change (link_id row) with (uuid_generate_v4 s) in *.
  destruct (link_each_tag_consistent (uuid_generate_v4 s)
              (generateTags w (UrlUtils.extractUrlContent w url)) s1 Hc1 Hex1)
    as (s' & gained & E' & _ & _ & Hlinks & _ & _ & _ & Hself & Hnames & _ & Hevery).
  rewrite E in E'. injection E' as <-.
  unfold previewLink. destruct url as [|c url]; [ contradiction | ]. cbn [is_empty].
  eexists. exists row.
  split; [ reflexivity | ].
  cbn [p_url p_title p_image p_domain p_summary p_tags].
  split; [ exact Hlinks | ].
  repeat (split; [ reflexivity | ]).
  intro name. unfold tag_names_of, getTagsForLink.
  change (link_id row) with (uuid_generate_v4 s). split.
  - rewrite Hself, Hnone. cbn [app]. apply Hnames.
  - intro Hin. destruct (Hevery name Hin) as (t & Ht & <- & Hp).
    apply in_map. now apply tags_of_link_In.
Qed.

(** X13 on a sample: the first URL saved into a fresh store. *)
Lemma previewLink_shows_what_createLink_stores_sample :
  exists p row,
    previewLink Sample.online (Str "https://example.com/a") = Answer 200 p /\
    links (snd (createLink Sample.online (Sample.save_request "https://example.com/a")
                  Sample.fresh_store)) = [row] /\
    link_summary row = Some (p_summary p) /\
    p_tags p = ["Article"; "Blog"].
Proof.
  destruct (previewLink_shows_what_createLink_stores Sample.online
              (Sample.save_request "https://example.com/a") Sample.fresh_store
              "https://example.com/a")
    as (p & row & H1 & H2 & _ & _ & _ & _ & H3 & _).
  - exact fresh_store_consistent.
  - intros l [].
  - reflexivity.
  - discriminate.
  - vm_compute. reflexivity.
  - exists p, row. split; [ exact H1 | split; [ exact H2 | split; [ exact H3 | ] ] ].
    vm_compute in H1. injection H1 as <-. reflexivity.
Defined.

End Preview.

(** ** The authentication middleware *)

Section Authentication.
Import AuthMiddleware.

Lemma bearer_token_nonempty (authHeader token : string) :
  bearer_token authHeader = Some token -> is_empty authHeader = false.
Proof.
  destruct authHeader; [ discriminate | reflexivity ].
Qed.

Lemma is_empty_false (s : string) : s <> "" -> is_empty s = false.
Proof.
  destruct s; [ contradiction | reflexivity ].
Qed.

Lemma is_empty_false_inv (s : string) : is_empty s = false -> s <> "".
Proof.
  destruct s; [ discriminate | discriminate ].
Qed.

(** X14.  The middleware lets a request through exactly when somebody
    vouches for its token.  [authenticate] calls [next()] with a user if
    and only if the header has a non-empty second field (the token), the
    JWT secret is set, and either [jwt.verify] accepts the token under
    the secret and decodes that user, or it does not and the Supabase
    client is there and resolves the token to that user.  Every other
    request is answered 401, or 500 when the secret is missing. *)
Theorem authenticate_passes_vouched_users_only (env : auth_env)
  (authorization : option string) :
  (forall user,
     authenticate env authorization = inr user <->
     exists authHeader token secret,
       authorization = Some authHeader /\ bearer_token authHeader = Some token /\
       token <> "" /\ JWT_SECRET env = Some secret /\ secret <> "" /\
       (jwt_verify env token secret = Some user \/
        (jwt_verify env token secret = None /\
         exists getUser id email,
           supabase_getUser env = Some getUser /\
           getUser token = Resolved (Some (id, email)) /\
           user = {| user_id := id;
                     user_email := match email with Some e => e | None => "" end |}))) /\
  (forall refused,
     authenticate env authorization = inl refused ->
     status refused = 401 \/
     (status refused = 500 /\ (JWT_SECRET env = None \/ JWT_SECRET env = Some ""))).
Proof.
  split.
  - intro user. split.
    + unfold authenticate.
      destruct authorization as [authHeader|]; [ | discriminate ].
      destruct (is_empty authHeader); [ discriminate | ].
      destruct (bearer_token authHeader) as [token|] eqn:Eb; [ | discriminate ].
      destruct (is_empty token) eqn:Et; [ discriminate | ].
      destruct (JWT_SECRET env) as [secret|] eqn:Es; [ | discriminate ].
      destruct (is_empty secret) eqn:Ee; [ discriminate | ].
      intro H. exists authHeader, token, secret.
      split; [ reflexivity | split; [ exact Eb | ] ].
      split; [ now apply is_empty_false_inv | split; [ reflexivity | ] ].
      split; [ now apply is_empty_false_inv | ].
      destruct (jwt_verify env token secret) as [decoded|] eqn:Ej; [ left; congruence | right ].
      split; [ reflexivity | ].
      destruct (supabase_getUser env) as [getUser|] eqn:Eg; [ | discriminate ].
      destruct (getUser token) as [[[id email]|]|] eqn:Et'; try discriminate.
      exists getUser, id, email. injection H as <-. auto.
    + intros (authHeader & token & secret & -> & Hb & Ht & Hs & Hsec & H).
      unfold authenticate.
      rewrite (bearer_token_nonempty _ _ Hb), Hb, (is_empty_false _ Ht), Hs,
        (is_empty_false _ Hsec).
      destruct H as [->|(-> & getUser & id & email & -> & -> & ->)]; reflexivity.
  - intro refused. unfold authenticate, invalid_token.
    destruct authorization as [authHeader|]; [ | intro H; injection H as <-; now left ].
    destruct (is_empty authHeader); [ intro H; injection H as <-; now left | ].
    destruct (bearer_token authHeader) as [token|]; [ | intro H; injection H as <-; now left ].
    destruct (is_empty token); [ intro H; injection H as <-; now left | ].
    destruct (JWT_SECRET env) as [secret|];
      [ | intro H; injection H as <-; right; split; [ reflexivity | now left ] ].
    destruct (is_empty secret) eqn:Ee.
    { intro H. injection H as <-. right. split; [ reflexivity | right ].
      apply is_empty_true in Ee. now rewrite Ee. }
    destruct (jwt_verify env token secret); [ discriminate | ].
    destruct (supabase_getUser env) as [getUser|]; [ | intro H; injection H as <-; now left ].
    destruct (getUser token) as [[[id email]|]|]; try discriminate;
      intro H; injection H as <-; now left.
Qed.

Lemma split_on_prefix (sep : ascii) (scheme rest : string) :
  has_char sep scheme = false ->
  split_on sep (scheme +++ String sep rest) = scheme :: split_on sep rest.
Proof.
  induction scheme as [|c scheme IH]; cbn; intro H.
  - now rewrite Ascii.eqb_refl.
  - apply orb_false_iff in H. destruct H as [Hc H]. rewrite Hc, (IH H). reflexivity.
Qed.

Lemma split_on_nonempty (sep : ascii) (s : string) : split_on sep s <> [].
Proof.
  destruct s as [|c s]; cbn; [ discriminate | ].
  destruct (Ascii.eqb c sep); [ discriminate | ].
  destruct (split_on sep s); discriminate.
Qed.

(** X15.  The middleware never looks at the scheme of the Authorization
    header.  Whatever word without a space stands before the first space
    ("Bearer", "Basic", nothing at all), the request is treated as if it
    stood "Bearer" there: the token is what follows the first space, up
    to the next one. *)
Theorem authenticate_ignores_scheme (env : auth_env) (scheme rest : string) :
  has_char (ascii_of_nat 32) scheme = false ->
  authenticate env (Some (scheme +++ " " +++ rest)) =
  authenticate env (Some ("Bearer " +++ rest)) /\
  bearer_token (scheme +++ " " +++ rest) = Some (hd "" (split_on (ascii_of_nat 32) rest)).
Proof.
  intro H.
  assert (Hb : forall word, has_char (ascii_of_nat 32) word = false ->
                 bearer_token (word +++ " " +++ rest) =
                 Some (hd "" (split_on (ascii_of_nat 32) rest))).
  { intros word Hw. unfold bearer_token.
    change (word +++ " " +++ rest) with (word +++ String (ascii_of_nat 32) rest).
    rewrite (split_on_prefix _ _ _ Hw).
    pose proof (split_on_nonempty (ascii_of_nat 32) rest) as Hne.
    destruct (split_on (ascii_of_nat 32) rest); [ contradiction | reflexivity ]. }
  split; [ | now apply Hb ].
  unfold authenticate.
  change ("Bearer " +++ rest) with ("Bearer" +++ " " +++ rest).
  rewrite (Hb scheme H), (Hb "Bearer" eq_refl).
  replace (is_empty (scheme +++ " " +++ rest)) with false by (now destruct scheme).
  reflexivity.
Qed.

(** X15 on a sample: a valid JWT sent under the scheme "Basic". *)
Lemma authenticate_ignores_scheme_sample :
  authenticate Cases.with_jwt (Some "Basic abc") = inr Sample.alice /\
  authenticate Cases.with_jwt (Some "Bearer abc and more") = inr Sample.alice.
Proof.
  split.
  - exact (eq_trans (proj1 (authenticate_ignores_scheme Cases.with_jwt "Basic" "abc" eq_refl))
             eq_refl).
  - reflexivity.
Defined.

End Authentication.

(** ** controllers/tag.controller.ts *)

Section Tags.
Import LinkController LinkReads TagController.

Lemma links_with_tag_In (tagId userId : uuid) (s : store) (l : link) :
  In l (links_with_tag tagId userId s) <->
  In l (links s) /\ link_user_id l = userId /\ In (link_id l, tagId) (link_to_tag s).
Proof.
  unfold links_with_tag. split.
  - intro H. apply (Permutation_in _ (Permutation_sym (order_by_permutation _ _))) in H.
    apply in_flat_map in H. destruct H as (x & Hx & H).
    destruct (link_user_id x =? userId) eqn:Eu; [ | destruct H ].
    apply in_map_iff in H. destruct H as ([a b] & <- & Hp).
    apply filter_In in Hp. destruct Hp as [Hp Hab]. cbn [fst snd] in Hab.
    apply andb_true_iff in Hab. destruct Hab as [Ha Hb].
    apply Nat.eqb_eq in Ha. apply Nat.eqb_eq in Hb. apply Nat.eqb_eq in Eu.
    subst a b. auto.
  - intros (Hin & Hu & Hp).
    apply (Permutation_in _ (order_by_permutation _ _)).
    apply in_flat_map. exists l. split; [ exact Hin | ].
    rewrite Hu, Nat.eqb_refl. apply in_map_iff. exists (link_id l, tagId).
    split; [ reflexivity | ]. apply filter_In. split; [ exact Hp | ].
    cbn [fst snd]. now rewrite !Nat.eqb_refl.
Qed.

Lemma NoDup_all_equal {A : Type} (a : A) (xs : list A) :
  NoDup xs -> (forall x, In x xs -> x = a) -> xs = [] \/ xs = [a].
Proof.
  intros Hnd Hall. destruct xs as [|x [|y xs]]; [ now left | right | exfalso ].
  - now rewrite (Hall x (or_introl eq_refl)).
  - apply NoDup_cons_iff in Hnd. destruct Hnd as [Hx _]. apply Hx. left.
    rewrite (Hall x), (Hall y); cbn; auto.
Qed.

Lemma links_with_tag_NoDup (tagId userId : uuid) (s : store) :
  consistent s -> NoDup (map link_id (links_with_tag tagId userId s)).
Proof.
  intros [C1 _ _ C4 _ _]. unfold links_with_tag.
  apply (Permutation_NoDup (Permutation_map link_id (order_by_permutation later _))).
  induction (links s) as [|l ls IH]; [ constructor | ].
  cbn [map] in C1. apply NoDup_cons_iff in C1. destruct C1 as [Hl C1].
  cbn [flat_map]. rewrite map_app. apply NoDup_app; [ | now apply IH | ].
  - destruct (link_user_id l =? userId); [ | constructor ].
    destruct (NoDup_all_equal (link_id l, tagId)
                (filter (fun p => (fst p =? link_id l) && (snd p =? tagId)) (link_to_tag s)))
      as [E|E].
    + now apply NoDup_filter.
    + intros [a b] Hp. apply filter_In in Hp. destruct Hp as [_ Hab]. cbn [fst snd] in Hab.
      apply andb_true_iff in Hab. destruct Hab as [Ha Hb].
      apply Nat.eqb_eq in Ha. apply Nat.eqb_eq in Hb. now subst.
    + unfold uuid in *. rewrite E. constructor.
    + unfold uuid in *. rewrite E. cbn. constructor; [ intros [] | constructor ].
  - intros id Ha Hb. apply Hl.
    assert (id = link_id l).
    { apply in_map_iff in Ha. destruct Ha as (x & <- & Hx).
      destruct (link_user_id l =? userId); [ | destruct Hx ].
      apply in_map_iff in Hx. now destruct Hx as (p & <- & _). }
    subst id. apply in_map_iff in Hb. destruct Hb as (x & Ex & Hx).
    apply in_flat_map in Hx. destruct Hx as (y & Hy & Hx).
    destruct (link_user_id y =? userId); [ | destruct Hx ].
    apply in_map_iff in Hx. destruct Hx as (p & <- & _).
    apply in_map_iff. now exists y.
Qed.

(** X16.  [getLinksByTag] answers 401 without a user and 404 when no tag
    has the name.  Otherwise it answers 200 with the tag and exactly the
    Records of the requesting user that carry it, the most recently
    created first, each with all of its tags; a Record of another user
    that carries the tag is not listed, and in a store that satisfies the
    constraints of the schema no Record is listed twice. *)
Theorem getLinksByTag_lists_own_tagged_records (req : request) (tagName : string)
  (s : store) :
  match getLinksByTag req tagName s with
  | Answer code (t, listed) =>
      code = 200 /\ In t (tags s) /\ tag_name t = tagName /\
      exists user,
        req_user req = Some user /\
        StronglySorted (fun a b => (tl_createdAt b <= tl_createdAt a)%Z) listed /\
        (forall e, In e listed <->
           exists l, In l (links s) /\ link_user_id l = user_id user /\
                     In (link_id l, tag_id t) (link_to_tag s) /\ e = tagged s l) /\
        Forall (fun e => tl_tags e = tag_names_of (tl_id e) s) listed /\
        (consistent s -> NoDup (map tl_id listed))
  | Refusal code _ =>
      (code = 401 /\ req_user req = None) \/
      (code = 404 /\ forall t, In t (tags s) -> tag_name t <> tagName)
  end.
Proof.
  unfold getLinksByTag. destruct (req_user req) as [user|]; [ | left; now split ].
  unfold find_tag.
  destruct (find (fun t => String.eqb (tag_name t) tagName) (tags s)) as [t|] eqn:E.
  - apply find_some in E. destruct E as [Ht Hn]. apply String.eqb_eq in Hn.
    split; [ reflexivity | split; [ exact Ht | split; [ exact Hn | ] ] ].
    exists user. split; [ reflexivity | split; [ | split; [ | split ] ] ].
    + apply StronglySorted_map. cbn [tl_createdAt tagged]. apply order_by_later_sorted.
    + intro e. rewrite in_map_iff. split.
      * intros (l & <- & Hl). apply links_with_tag_In in Hl. exists l. tauto.
      * intros (l & H1 & H2 & H3 & ->). exists l. split; [ reflexivity | ].
        now apply links_with_tag_In.
    + apply Forall_forall. intros e He. apply in_map_iff in He.
      now destruct He as (l & <- & _).
    + intro Hc. rewrite map_map. cbn [tl_id tagged].
      now apply links_with_tag_NoDup.
  - right. split; [ reflexivity | ]. intros t Ht Hn.
    pose proof (find_none _ _ E t Ht) as H. cbn in H.
    rewrite Hn, String.eqb_refl in H. discriminate.
Qed.

(** X17.  [getAllTags] asks for no user and answers every row of the tag
    table exactly once, whoever created it: the names other users gave
    their Records are listed too.  When the collation of the store is an
    order, the tags come out in that order of their names. *)
Theorem getAllTags_lists_every_tag (name_first : string -> string -> bool) (s : store) :
  Permutation (getAllTags name_first s) (map (fun t => (tag_id t, tag_name t)) (tags s)) /\
  ((forall a b, name_first a b = true -> name_first b a = false) ->
   (forall a b c, name_first a b = false -> name_first b c = false ->
                  name_first a c = false) ->
   StronglySorted (fun a b => name_first (snd b) (snd a) = false) (getAllTags name_first s)).
Proof.
  unfold getAllTags. split.
  - apply Permutation_map, Permutation_sym, order_by_permutation.
  - intros Hasym Htrans. apply StronglySorted_map. cbn [snd].
    apply (order_by_is_sorted (fun a b => name_first (tag_name a) (tag_name b))).
    + intros a b. apply Hasym.
    + intros a b c. apply Htrans.
Qed.

End Tags.

(** ** Requests that fail *)

Section Unsuccessful.
Import OpenAiUtils LinkController.





End Unsuccessful.
